(** * rougelike: physics, collision and combat core of [main.c]

    A shallow embedding of the simulation functions of [src/main.c]
    (bounding boxes, sphere/box tests, map collision queries, player
    physics, the bullet pool, enemy behaviour, bullet collisions and the
    simulation part of the main loop), with the properties of the
    specification stated over it.

    Numbers.  The C program computes in [float] (IEEE-754 binary32).  The
    embedding uses the Standard Library's [spec_float] at precision 24 and
    maximal exponent 128, so every [+ - * / sqrt] and every comparison
    rounds and treats NaN exactly as the compiled program does (assuming
    expressions are evaluated in single precision, without fused
    multiply-add; the one library call, [powf(x, 2.0f)], is taken as the
    rounded product).  [int] values (cell indices, health, colour
    channels) are [Z].  The subtraction from a health is reduced to 32
    bits, as the compiled program does it; in every run of the program the
    healths stay far from the limits, as is proved at the end.  The two
    counters that bound the array loops, [bulletCount] and [enemyCount],
    start at 0 and 10 and never decrease; they are [nat].

    Arrays.  [bullets] and [enemies] are fixed-size C arrays passed with a
    count; they are lists indexed with stdpp's lookup and insert. *)

From Stdlib Require Import ZArith Bool List Lia.
From Stdlib Require Import Floats.SpecFloat.
From stdpp Require Import base tactics option list.

Local Open Scope Z_scope.

(** ** Single-precision arithmetic *)

Module F32.

Definition prec : Z := 24.
Definition emax : Z := 128.

Definition float := spec_float.

Definition add : float → float → float := SFadd prec emax.
Definition sub : float → float → float := SFsub prec emax.
Definition mul : float → float → float := SFmul prec emax.
Definition div : float → float → float := SFdiv prec emax.
Definition sqrtf : float → float := SFsqrt prec emax.
Definition neg : float → float := SFopp.
Definition fabs : float → float := SFabs.

(** C's [<], [<=], [==]; all three are false when an operand is NaN. *)
Definition ltb : float → float → bool := SFltb.
Definition leb : float → float → bool := SFleb.
Definition eqb : float → float → bool := SFeqb.
(** [a > b] is [ltb b a], [a >= b] is [leb b a], [a != b] is
    [negb (eqb a b)]. *)
Definition gtb (a b : float) : bool := ltb b a.
Definition geb (a b : float) : bool := leb b a.
Definition neqb (a b : float) : bool := negb (eqb a b).

(** Conversion [(float)n] of an [int]. *)
Definition of_int (n : Z) : float := binary_normalize prec emax n 0 false.

(** A decimal literal [n/d f] is the float nearest to the quotient, which
    is what correctly rounded division of the two integers returns. *)
Definition lit (n d : Z) : float := div (of_int n) (of_int d).

Definition zero : float := S754_zero false.
Definition one : float := Eval vm_compute in of_int 1.

Definition is_nan (f : float) : bool :=
  match f with S754_nan => true | _ => false end.

Definition is_zero (f : float) : bool :=
  match f with S754_zero _ => true | _ => false end.

Definition INT_MIN : Z := - 2 ^ 31.
Definition INT_MAX : Z := 2 ^ 31 - 1.

(** Conversion [(int)f]: truncation toward zero.  Where the C standard
    leaves the result open (NaN, infinities, values outside [int]) the
    embedding returns [INT_MIN], the value the x86 conversion
    instruction produces. *)
Definition to_int (f : float) : Z :=
  match f with
  | S754_zero _ => 0
  | S754_finite s m e =>
      let a := Z.shiftl (Zpos m) e in
      let v := if s then - a else a in
      if (INT_MIN <=? v) && (v <=? INT_MAX) then v else INT_MIN
  | _ => INT_MIN
  end.

(** [fminf] and [fmaxf]: a NaN operand is ignored in favour of the
    other one. *)
Definition fminf (a b : float) : float :=
  match a, b with
  | S754_nan, _ => b
  | _, S754_nan => a
  | _, _ => if ltb b a then b else a
  end.

Definition fmaxf (a b : float) : float :=
  match a, b with
  | S754_nan, _ => b
  | _, S754_nan => a
  | _, _ => if ltb a b then b else a
  end.

(** The numbers below zero; a zero of either sign and NaN are not among
    them. *)
Definition is_negative (f : float) : bool :=
  match f with
  | S754_infinity true | S754_finite true _ _ => true
  | _ => false
  end.

(** [powf(x, 2.0f)], as the product [x * x] rounded once: the value a
    correctly rounded [powf] returns, and the one the program computes
    when the compiler expands the call into a multiplication.  The C
    library's [powf] may differ from it in the last place; what is proved
    of the rounding of squares is therefore stated for any squaring
    function (see [SphereBoxTest]). *)
Definition powf2 (x : float) : float := mul x x.

End F32.

Abbreviation float := F32.float.

Declare Scope f32_scope.
Delimit Scope f32_scope with f32.
Infix "+" := F32.add : f32_scope.
Infix "-" := F32.sub : f32_scope.
Infix "*" := F32.mul : f32_scope.
Infix "/" := F32.div : f32_scope.
Infix "<?" := F32.ltb : f32_scope.
Infix "<=?" := F32.leb : f32_scope.
Infix ">?" := F32.gtb : f32_scope.
Infix ">=?" := F32.geb : f32_scope.
Infix "=?" := F32.eqb : f32_scope.

(** The literals of the program. *)
Definition f0_5 : float := Eval vm_compute in F32.lit 1 2.
Definition f1_0 : float := F32.one.
Definition f2_0 : float := Eval vm_compute in F32.of_int 2.
Definition f0_1 : float := Eval vm_compute in F32.lit 1 10.
Definition f0_2 : float := Eval vm_compute in F32.lit 2 10.
Definition f3_0 : float := Eval vm_compute in F32.of_int 3.
Definition f10_0 : float := Eval vm_compute in F32.of_int 10.
Definition f50_0 : float := Eval vm_compute in F32.of_int 50.
Definition f100_0 : float := Eval vm_compute in F32.of_int 100.

Definition MAX_ENEMIES : nat := 100.
Definition MAX_BULLETS : nat := 500.
Definition ENEMY_SHOOT_COOLDOWN : float := f2_0.
Definition BULLET_SPEED : float := Eval vm_compute in F32.lit 3 10.
Definition BULLET_RADIUS : float := Eval vm_compute in F32.lit 15 100.

(** ** raylib data: vectors, boxes, colours, textures *)

Record Vector3 := mkVector3 { vx : float; vy : float; vz : float }.

Record BoundingBox := mkBoundingBox { bmin : Vector3; bmax : Vector3 }.

Record Color := mkColor { cr : Z; cg : Z; cb : Z; ca : Z }.

Definition YELLOW : Color := mkColor 253 249 0 255.
Definition RED : Color := mkColor 230 41 55 255.
Definition BLANK : Color := mkColor 0 0 0 0.

(** A texture together with the pixels [LoadImageFromTexture] reads back
    from it, row by row. *)
Record Texture2D := mkTexture2D {
  tex_id : Z;
  tex_width : Z;
  tex_height : Z;
  tex_data : list Color
}.

(** [GetImageColor(image, x, y)]. *)
Definition GetImageColor (image : Texture2D) (x y : Z) : Color :=
  nth (Z.to_nat (y * tex_width image + x)) (tex_data image) BLANK.

(** Of a [Model] the program only uses [GetModelBoundingBox]. *)
Record Model := mkModel { GetModelBoundingBox : BoundingBox }.

Record Ray := mkRay { ray_position : Vector3; ray_direction : Vector3 }.

(** ** raymath *)

Definition Vector3Add (a b : Vector3) : Vector3 :=
  mkVector3 (vx a + vx b)%f32 (vy a + vy b)%f32 (vz a + vz b)%f32.

Definition Vector3Subtract (a b : Vector3) : Vector3 :=
  mkVector3 (vx a - vx b)%f32 (vy a - vy b)%f32 (vz a - vz b)%f32.

Definition Vector3Scale (v : Vector3) (s : float) : Vector3 :=
  mkVector3 (vx v * s)%f32 (vy v * s)%f32 (vz v * s)%f32.

Definition Vector3Length (v : Vector3) : float :=
  F32.sqrtf (vx v * vx v + vy v * vy v + vz v * vz v)%f32.

(** [Vector3Normalize] leaves a vector of length zero as it is. *)
Definition Vector3Normalize (v : Vector3) : Vector3 :=
  let length := Vector3Length v in
  if F32.neqb length F32.zero then
    let ilength := (f1_0 / length)%f32 in
    mkVector3 (vx v * ilength)%f32 (vy v * ilength)%f32 (vz v * ilength)%f32
  else v.

(** ** raylib's box/box test *)

Definition CheckCollisionBoxes (box1 box2 : BoundingBox) : bool :=
  if (vx (bmax box1) >=? vx (bmin box2))%f32
     && (vx (bmin box1) <=? vx (bmax box2))%f32
  then
    negb ((vy (bmax box1) <? vy (bmin box2))%f32
          || (vy (bmin box1) >? vy (bmax box2))%f32)
    && negb ((vz (bmax box1) <? vz (bmin box2))%f32
             || (vz (bmin box1) >? vz (bmax box2))%f32)
  else false.

(** ** Sphere against box ([CheckCollisionSphereBox]) *)

(** The point of the box closest to [center]: the centre clamped to the
    box on each axis. *)
Definition ClosestPoint (center : Vector3) (box : BoundingBox) : Vector3 :=
  mkVector3
    (F32.fmaxf (vx (bmin box)) (F32.fminf (vx center) (vx (bmax box))))
    (F32.fmaxf (vy (bmin box)) (F32.fminf (vy center) (vy (bmax box))))
    (F32.fmaxf (vz (bmin box)) (F32.fminf (vz center) (vz (bmax box)))).

Definition DistanceSquared (center closest : Vector3) : float :=
  (F32.powf2 (vx closest - vx center)
   + F32.powf2 (vy closest - vy center)
   + F32.powf2 (vz closest - vz center))%f32.

Definition CheckCollisionSphereBox (center : Vector3) (radius : float)
    (box : BoundingBox) : bool :=
  let closest :=
    mkVector3
      (F32.fmaxf (vx (bmin box)) (F32.fminf (vx center) (vx (bmax box))))
      (F32.fmaxf (vy (bmin box)) (F32.fminf (vy center) (vy (bmax box))))
      (F32.fmaxf (vz (bmin box)) (F32.fminf (vz center) (vz (bmax box)))) in
  let distanceSquared :=
    (F32.powf2 (vx closest - vx center)
     + F32.powf2 (vy closest - vy center)
     + F32.powf2 (vz closest - vz center))%f32 in
  (distanceSquared <? radius * radius)%f32.

(** The squared distance with the three calls [powf(d, 2.0f)] left open:
    [square d] stands for what the call returns. *)
Definition DistanceSquaredWith (square : float → float)
    (center closest : Vector3) : float :=
  (square (vx closest - vx center)
   + square (vy closest - vy center)
   + square (vz closest - vz center))%f32.

(** [CheckCollisionSphereBox] over any squaring function; the program is
    the instance [F32.powf2]. *)
Definition SphereBoxTest (square : float → float) (center : Vector3)
    (radius : float) (box : BoundingBox) : bool :=
  let closest :=
    mkVector3
      (F32.fmaxf (vx (bmin box)) (F32.fminf (vx center) (vx (bmax box))))
      (F32.fmaxf (vy (bmin box)) (F32.fminf (vy center) (vy (bmax box))))
      (F32.fmaxf (vz (bmin box)) (F32.fminf (vz center) (vz (bmax box)))) in
  let distanceSquared :=
    (square (vx closest - vx center)
     + square (vy closest - vy center)
     + square (vz closest - vz center))%f32 in
  (distanceSquared <? radius * radius)%f32.


(** ** The program's structs

    [Player], [Enemy] and [Bullet] share field names in C; here the fields
    carry the prefix [p_], [e_] or [b_]. *)

Record Player := mkPlayer {
  p_position : Vector3;
  p_size : Vector3;
  p_speed : float;
  p_texture : Texture2D;
  p_direction : Z;
  p_velocity : Vector3;
  p_isGrounded : bool;
  p_jumpForce : float;
  p_gravity : float;
  p_health : Z;
  p_isHit : bool;
  p_hitTimer : float
}.

Record Enemy := mkEnemy {
  e_position : Vector3;
  e_size : Vector3;
  e_speed : float;
  e_texture : Texture2D;
  e_shootTimer : float;
  e_shootCooldown : float;
  e_active : bool;
  e_health : Z;
  e_isHit : bool;
  e_hitTimer : float
}.

Record Bullet := mkBullet {
  b_position : Vector3;
  b_direction : Vector3;
  b_speed : float;
  b_radius : float;
  b_color : Color;
  b_active : bool;
  b_fromPlayer : bool
}.

(** Assignments to single fields. *)

Definition set_vx (x : float) (v : Vector3) := mkVector3 x (vy v) (vz v).
Definition set_vy (y : float) (v : Vector3) := mkVector3 (vx v) y (vz v).
Definition set_vz (z : float) (v : Vector3) := mkVector3 (vx v) (vy v) z.

Definition set_p_position (v : Vector3) (p : Player) : Player :=
  mkPlayer v (p_size p) (p_speed p) (p_texture p) (p_direction p)
    (p_velocity p) (p_isGrounded p) (p_jumpForce p) (p_gravity p)
    (p_health p) (p_isHit p) (p_hitTimer p).

Definition set_p_direction (d : Z) (p : Player) : Player :=
  mkPlayer (p_position p) (p_size p) (p_speed p) (p_texture p) d
    (p_velocity p) (p_isGrounded p) (p_jumpForce p) (p_gravity p)
    (p_health p) (p_isHit p) (p_hitTimer p).

Definition set_p_velocity (v : Vector3) (p : Player) : Player :=
  mkPlayer (p_position p) (p_size p) (p_speed p) (p_texture p)
    (p_direction p) v (p_isGrounded p) (p_jumpForce p) (p_gravity p)
    (p_health p) (p_isHit p) (p_hitTimer p).

Definition set_p_isGrounded (g : bool) (p : Player) : Player :=
  mkPlayer (p_position p) (p_size p) (p_speed p) (p_texture p)
    (p_direction p) (p_velocity p) g (p_jumpForce p) (p_gravity p)
    (p_health p) (p_isHit p) (p_hitTimer p).

Definition set_p_health (h : Z) (p : Player) : Player :=
  mkPlayer (p_position p) (p_size p) (p_speed p) (p_texture p)
    (p_direction p) (p_velocity p) (p_isGrounded p) (p_jumpForce p)
    (p_gravity p) h (p_isHit p) (p_hitTimer p).

Definition set_p_isHit (h : bool) (p : Player) : Player :=
  mkPlayer (p_position p) (p_size p) (p_speed p) (p_texture p)
    (p_direction p) (p_velocity p) (p_isGrounded p) (p_jumpForce p)
    (p_gravity p) (p_health p) h (p_hitTimer p).

Definition set_p_hitTimer (t : float) (p : Player) : Player :=
  mkPlayer (p_position p) (p_size p) (p_speed p) (p_texture p)
    (p_direction p) (p_velocity p) (p_isGrounded p) (p_jumpForce p)
    (p_gravity p) (p_health p) (p_isHit p) t.

Definition set_e_position (v : Vector3) (e : Enemy) : Enemy :=
  mkEnemy v (e_size e) (e_speed e) (e_texture e) (e_shootTimer e)
    (e_shootCooldown e) (e_active e) (e_health e) (e_isHit e) (e_hitTimer e).

Definition set_e_shootTimer (t : float) (e : Enemy) : Enemy :=
  mkEnemy (e_position e) (e_size e) (e_speed e) (e_texture e) t
    (e_shootCooldown e) (e_active e) (e_health e) (e_isHit e) (e_hitTimer e).

Definition set_e_active (a : bool) (e : Enemy) : Enemy :=
  mkEnemy (e_position e) (e_size e) (e_speed e) (e_texture e)
    (e_shootTimer e) (e_shootCooldown e) a (e_health e) (e_isHit e)
    (e_hitTimer e).

Definition set_e_health (h : Z) (e : Enemy) : Enemy :=
  mkEnemy (e_position e) (e_size e) (e_speed e) (e_texture e)
    (e_shootTimer e) (e_shootCooldown e) (e_active e) h (e_isHit e)
    (e_hitTimer e).

Definition set_e_isHit (h : bool) (e : Enemy) : Enemy :=
  mkEnemy (e_position e) (e_size e) (e_speed e) (e_texture e)
    (e_shootTimer e) (e_shootCooldown e) (e_active e) (e_health e) h
    (e_hitTimer e).

Definition set_e_hitTimer (t : float) (e : Enemy) : Enemy :=
  mkEnemy (e_position e) (e_size e) (e_speed e) (e_texture e)
    (e_shootTimer e) (e_shootCooldown e) (e_active e) (e_health e)
    (e_isHit e) t.

Definition set_b_position (v : Vector3) (b : Bullet) : Bullet :=
  mkBullet v (b_direction b) (b_speed b) (b_radius b) (b_color b)
    (b_active b) (b_fromPlayer b).

Definition set_b_active (a : bool) (b : Bullet) : Bullet :=
  mkBullet (b_position b) (b_direction b) (b_speed b) (b_radius b)
    (b_color b) a (b_fromPlayer b).

(** ** Bounding boxes of the actors *)

Definition GetPlayerBoundingBox (player : Player) : BoundingBox :=
  let pos := p_position player in
  let size := p_size player in
  mkBoundingBox
    (mkVector3 (vx pos - vx size / f2_0)%f32 (vy pos)
       (vz pos - vz size / f2_0)%f32)
    (mkVector3 (vx pos + vx size / f2_0)%f32 (vy pos + vy size)%f32
       (vz pos + vz size / f2_0)%f32).

Definition GetEnemyBoundingBox (enemy : Enemy) : BoundingBox :=
  let pos := e_position enemy in
  let size := e_size enemy in
  mkBoundingBox
    (mkVector3 (vx pos - vx size / f2_0)%f32 (vy pos)
       (vz pos - vz size / f2_0)%f32)
    (mkVector3 (vx pos + vx size / f2_0)%f32 (vy pos + vy size)%f32
       (vz pos + vz size / f2_0)%f32).

(** ** Collision queries against the map

    The three queries share their frame: the bounds of the whole model
    moved to [mapPosition], the actor's cell [(cellX, cellZ)] obtained by
    truncating its map-relative position, and a scan of the 3x3 block of
    cells around it, [z] in the outer loop and [x] in the inner one. *)

Section MapQueries.

Variable model : Model.
Variable mapPosition : Vector3.
Variable cubicmap : Texture2D.

Definition MapBounds : BoundingBox :=
  mkBoundingBox
    (Vector3Add (bmin (GetModelBoundingBox model)) mapPosition)
    (Vector3Add (bmax (GetModelBoundingBox model)) mapPosition).

(** The loop's [continue] guard, negated: the cell lies on the map. *)
Definition InsideMap (currentCellX currentCellZ : Z) : bool :=
  negb ((currentCellX <? 0) || (currentCellZ <? 0)
        || (currentCellX >=? tex_width cubicmap)
        || (currentCellZ >=? tex_height cubicmap)).

Definition IsWall (cellColor : Color) : bool :=
  (cr cellColor >? 50) && (cg cellColor >? 50) && (cb cellColor >? 50).

Definition CellBounds (currentCellX currentCellZ : Z) : BoundingBox :=
  let cellXOffset := (F32.of_int currentCellX - f0_5)%f32 in
  let cellZOffset := (F32.of_int currentCellZ - f0_5)%f32 in
  mkBoundingBox
    (mkVector3 (vx mapPosition + cellXOffset)%f32 (vy mapPosition)
       (vz mapPosition + cellZOffset)%f32)
    (mkVector3 (vx mapPosition + cellXOffset + f1_0)%f32
       (vy mapPosition + f1_0)%f32
       (vz mapPosition + cellZOffset + f1_0)%f32).

(** A cell the scan looks at: on the map and a wall pixel. *)
Definition SolidCell (currentCellX currentCellZ : Z) : bool :=
  InsideMap currentCellX currentCellZ
  && IsWall (GetImageColor cubicmap currentCellX currentCellZ).

Definition offsets : list Z := [-1; 0; 1].

(** The pairs [(x, z)] in the order the nested loops visit them. *)
Definition scan_order : list (Z * Z) :=
  z ← offsets; x ← offsets; [(x, z)].

(** *** Player: reports wall collisions and records ground contact *)

(** One iteration of the inner loop; the state is
    [(collision, groundContact)]. *)
Definition player_cell (player : Player) (playerBounds : BoundingBox)
    (cellX cellZ : Z) (st : bool * bool) (xz : Z * Z) : bool * bool :=
  let '(collision, groundContact) := st in
  let currentCellX := cellX + fst xz in
  let currentCellZ := cellZ + snd xz in
  if negb (InsideMap currentCellX currentCellZ) then st
  else if IsWall (GetImageColor cubicmap currentCellX currentCellZ) then
    let cellBounds := CellBounds currentCellX currentCellZ in
    if CheckCollisionBoxes playerBounds cellBounds then
      let playerBottomY := vy (p_position player) in
      let cellTopY := (vy mapPosition + f1_0)%f32 in
      if (F32.fabs (playerBottomY - cellTopY) <? f0_1)%f32
      then (collision, true)
      else (true, groundContact)
    else st
  else st.

(** Returns the collision flag and the player as the call leaves it. *)
Definition CheckCollisionPlayerWithMap (player : Player) : bool * Player :=
  let mapBounds := MapBounds in
  let playerBounds := GetPlayerBoundingBox player in
  if negb (CheckCollisionBoxes playerBounds mapBounds) then (true, player)
  else
    let cellX := F32.to_int (vx (p_position player) - vx mapPosition)%f32 in
    let cellZ := F32.to_int (vz (p_position player) - vz mapPosition)%f32 in
    let '(collision, groundContact) :=
      foldl (player_cell player playerBounds cellX cellZ) (false, false)
        scan_order in
    let player :=
      if groundContact || (vy (p_position player) <=? f0_5)%f32
      then set_p_isGrounded true player
      else player in
    (collision, player).

(** *** Enemy: first wall cell hit ends the scan *)

Definition CheckCollisionEnemyWithMap (enemy : Enemy) : bool :=
  let enemyBounds := GetEnemyBoundingBox enemy in
  let mapBounds := MapBounds in
  if negb (CheckCollisionBoxes enemyBounds mapBounds) then true
  else
    let cellX := F32.to_int (vx (e_position enemy) - vx mapPosition)%f32 in
    let cellZ := F32.to_int (vz (e_position enemy) - vz mapPosition)%f32 in
    existsb
      (λ xz,
         let currentCellX := cellX + fst xz in
         let currentCellZ := cellZ + snd xz in
         SolidCell currentCellX currentCellZ
         && CheckCollisionBoxes enemyBounds
              (CellBounds currentCellX currentCellZ))
      scan_order.

(** *** Bullet: sphere against the cells *)

Definition CheckCollisionBulletWithMap (bullet : Bullet) : bool :=
  let mapBounds := MapBounds in
  if negb (CheckCollisionSphereBox (b_position bullet) (b_radius bullet)
             mapBounds)
  then true
  else
    let cellX := F32.to_int (vx (b_position bullet) - vx mapPosition)%f32 in
    let cellZ := F32.to_int (vz (b_position bullet) - vz mapPosition)%f32 in
    existsb
      (λ xz,
         let currentCellX := cellX + fst xz in
         let currentCellZ := cellZ + snd xz in
         SolidCell currentCellX currentCellZ
         && CheckCollisionSphereBox (b_position bullet) (b_radius bullet)
              (CellBounds currentCellX currentCellZ))
      scan_order.

(** ** Player physics ([UpdatePlayerPhysics]) *)

(** The landing test of one cell. *)
Definition lands_on (playerBounds : BoundingBox) (currentCellX currentCellZ : Z)
    : bool :=
  let cellBounds := CellBounds currentCellX currentCellZ in
  (vy (bmin playerBounds) <=? vy (bmax cellBounds))%f32
  && (vy (bmin playerBounds) >=? vy (bmax cellBounds) - f0_1)%f32
  && CheckCollisionBoxes playerBounds cellBounds.

(** Inner loop over [x]; it stops at the first cell landed on. *)
Fixpoint landing_row (playerBounds : BoundingBox) (cellX cellZ z : Z)
    (xs : list Z) (player : Player) : Player :=
  match xs with
  | [] => player
  | x :: xs =>
      let currentCellX := cellX + x in
      let currentCellZ := cellZ + z in
      if SolidCell currentCellX currentCellZ
         && lands_on playerBounds currentCellX currentCellZ
      then
        let cellBounds := CellBounds currentCellX currentCellZ in
        let player := set_p_isGrounded true player in
        let player :=
          set_p_position (set_vy (vy (bmax cellBounds)) (p_position player))
            player in
        set_p_velocity (set_vy F32.zero (p_velocity player)) player
      else landing_row playerBounds cellX cellZ z xs player
  end.

(** Outer loop over [z]; after each row it stops if the player is
    grounded. *)
Fixpoint landing_rows (playerBounds : BoundingBox) (cellX cellZ : Z)
    (zs : list Z) (player : Player) : Player :=
  match zs with
  | [] => player
  | z :: zs =>
      let player := landing_row playerBounds cellX cellZ z offsets player in
      if p_isGrounded player then player
      else landing_rows playerBounds cellX cellZ zs player
  end.

(** "Apply gravity". *)
Definition apply_gravity (player : Player) : Player :=
  if negb (p_isGrounded player) then
    set_p_velocity
      (set_vy (vy (p_velocity player) - p_gravity player)%f32
         (p_velocity player)) player
  else if (vy (p_velocity player) <? F32.zero)%f32 then
    (* Reset vertical velocity when grounded *)
    set_p_velocity (set_vy F32.zero (p_velocity player)) player
  else player.

(** "Apply vertical velocity to position". *)
Definition apply_velocity (player : Player) : Player :=
  set_p_position
    (set_vy (vy (p_position player) + vy (p_velocity player))%f32
       (p_position player)) player.

(** "Check if player is below ground level", with the search for a cell
    to land on in the other branch. *)
Definition resolve_ground (player : Player) : Player :=
  if (vy (p_position player) <? f0_5)%f32 then
    let player :=
      set_p_position (set_vy f0_5 (p_position player)) player in
    let player :=
      set_p_velocity (set_vy F32.zero (p_velocity player)) player in
    set_p_isGrounded true player
  else
    let player := set_p_isGrounded false player in
    if (vy (p_velocity player) <? F32.zero)%f32 then
      let player := snd (CheckCollisionPlayerWithMap player) in
      let playerBounds := GetPlayerBoundingBox player in
      let cellX := F32.to_int (vx (p_position player) - vx mapPosition)%f32 in
      let cellZ := F32.to_int (vz (p_position player) - vz mapPosition)%f32 in
      landing_rows playerBounds cellX cellZ offsets player
    else player.

Definition UpdatePlayerPhysics (player : Player) (deltaTime : float)
    : Player :=
  let player := apply_gravity player in
  let player := apply_velocity player in
  resolve_ground player.

End MapQueries.

(** ** The bullet pool *)

(** [for (int i = 0; i < n; i++) body]: the state is threaded through the
    iterations in index order. *)
Definition for_range {S : Type} (n : nat) (body : nat → S → S) (s : S) : S :=
  foldl (λ s i, body i s) s (seq 0 n).

(** The search loop of [ShootBullet]: index of the first slot, counted
    from [i], that is not active. *)
Fixpoint first_inactive (bullets : list Bullet) (i : nat) : option nat :=
  match bullets with
  | [] => None
  | b :: bullets =>
      if negb (b_active b) then Some i else first_inactive bullets (S i)
  end.

(** [bullets] has [MAX_BULLETS] slots; [bulletCount] is the caller's
    counter, passed by pointer and returned here as second component. *)
Definition ShootBullet (bullets : list Bullet) (bulletCount : nat)
    (position direction : Vector3) (fromPlayer : bool)
    : list Bullet * nat :=
  (* Don't shoot if bullet array is full *)
  if (MAX_BULLETS <=? bulletCount)%nat then (bullets, bulletCount)
  else
    let '(bulletIndex, bulletCount) :=
      match first_inactive (take MAX_BULLETS bullets) 0 with
      | None => (Nat.modulo bulletCount MAX_BULLETS, bulletCount)
      | Some i => (i, S bulletCount)
      end in
    let bullet :=
      mkBullet position direction BULLET_SPEED BULLET_RADIUS
        (if fromPlayer then YELLOW else RED) true fromPlayer in
    (<[bulletIndex := bullet]> bullets, bulletCount).

(** The body of the loop of [UpdateBullets]. *)
Definition advance_bullet (b : Bullet) : Bullet :=
  if b_active b then
    let b :=
      set_b_position
        (mkVector3
           (vx (b_position b) + vx (b_direction b) * b_speed b)%f32
           (vy (b_position b) + vy (b_direction b) * b_speed b)%f32
           (vz (b_position b) + vz (b_direction b) * b_speed b)%f32) b in
    let distance := Vector3Length (b_position b) in
    if (distance >? f50_0)%f32 then set_b_active false b else b
  else b.

Definition UpdateBullets (bullets : list Bullet) (bulletCount : nat)
    (deltaTime : float) : list Bullet :=
  for_range bulletCount (λ i bullets, alter advance_bullet i bullets) bullets.

(** ** Hit timers *)

Definition player_hit_timer (deltaTime : float) (player : Player) : Player :=
  if p_isHit player then
    let player :=
      set_p_hitTimer (p_hitTimer player - deltaTime)%f32 player in
    if (p_hitTimer player <=? F32.zero)%f32
    then set_p_isHit false player
    else player
  else player.

Definition enemy_hit_timer (deltaTime : float) (enemy : Enemy) : Enemy :=
  if e_isHit enemy then
    let enemy := set_e_hitTimer (e_hitTimer enemy - deltaTime)%f32 enemy in
    if (e_hitTimer enemy <=? F32.zero)%f32
    then set_e_isHit false enemy
    else enemy
  else enemy.

(** ** raylib's [GetRandomValue]

    [r] is the value the underlying [rand()] call returns. *)
Definition GetRandomValue (r : Z) (min max : Z) : Z :=
  r mod (Z.abs (max - min) + 1) + min.

(** ** Damage *)

(** The value an [int] operation leaves: the exact result reduced to 32
    bits in two's complement.  C gives no meaning to signed overflow; the
    embedding takes the wrap-around of the compiled program. *)
Definition wrap_int (z : Z) : Z :=
  (z - F32.INT_MIN) mod 2 ^ 32 + F32.INT_MIN.

(** The values of an [int]. *)
Definition is_int (z : Z) : Prop := F32.INT_MIN ≤ z ≤ F32.INT_MAX.

Definition damage_player (player : Player) : Player :=
  if negb (p_isHit player) then
    let player := set_p_health (wrap_int (p_health player - 10)) player in
    let player := set_p_isHit true player in
    set_p_hitTimer f0_5 player
  else player.

Definition damage_enemy (enemy : Enemy) : Enemy :=
  if negb (e_isHit enemy) then
    let enemy := set_e_health (wrap_int (e_health enemy - 10)) enemy in
    let enemy := set_e_isHit true enemy in
    let enemy := set_e_hitTimer f0_2 enemy in
    if e_health enemy <=? 0 then set_e_active false enemy else enemy
  else enemy.

(** The loop over the enemies in [CheckBulletCollisions], left at the
    first active enemy the bullet touches.  Returns whether one was
    touched. *)
Fixpoint enemy_scan (bullet : Bullet) (js : list nat) (enemies : list Enemy)
    : bool * list Enemy :=
  match js with
  | [] => (false, enemies)
  | j :: js =>
      match enemies !! j with
      | Some enemy =>
          if e_active enemy
             && CheckCollisionSphereBox (b_position bullet) (b_radius bullet)
                  (GetEnemyBoundingBox enemy)
          then (true, <[j := damage_enemy enemy]> enemies)
          else enemy_scan bullet js enemies
      | None => enemy_scan bullet js enemies
      end
  end.

(** ** Enemies, bullet collisions and the simulation step *)

Section Simulation.

Variable model : Model.
Variable mapPosition : Vector3.
Variable cubicmap : Texture2D.
(** [rand n] is the value of the [n]-th call of [rand()]. *)
Variable rand : nat → Z.

(** The movement block of [UpdateEnemies]: X first, then Z, each tested
    and restored on its own. *)
Definition enemy_move (direction : Vector3) (enemy : Enemy) : Enemy :=
  let previousPosition := e_position enemy in
  let enemy :=
    set_e_position
      (set_vx (vx (e_position enemy) + vx direction)%f32 (e_position enemy))
      enemy in
  let enemy :=
    if CheckCollisionEnemyWithMap model mapPosition cubicmap enemy
    then set_e_position (set_vx (vx previousPosition) (e_position enemy))
           enemy
    else enemy in
  let enemy :=
    set_e_position
      (set_vz (vz (e_position enemy) + vz direction)%f32 (e_position enemy))
      enemy in
  if CheckCollisionEnemyWithMap model mapPosition cubicmap enemy
  then set_e_position (set_vz (vz previousPosition) (e_position enemy)) enemy
  else enemy.

(** What the loop of [UpdateEnemies] threads besides the enemies: the
    bullet array, its counter and the number of [rand()] calls made. *)
Definition Shots : Type := list Bullet * nat * nat.

(** Distance from an enemy to the player, as computed at the start of
    the enemy's iteration. *)
Definition enemy_distance (player : Player) (enemy : Enemy) : float :=
  Vector3Length (Vector3Subtract (p_position player) (e_position enemy)).

Definition raise_half (v : Vector3) : Vector3 :=
  mkVector3 (vx v) (vy v + f0_5)%f32 (vz v).

(** The body of the loop for an active enemy. *)
Definition UpdateEnemy (player : Player) (deltaTime : float)
    (enemy : Enemy) (shots : Shots) : Enemy * Shots :=
  let '(bullets, bulletCount, calls) := shots in
  let enemy := enemy_hit_timer deltaTime enemy in
  let direction := Vector3Subtract (p_position player) (e_position enemy) in
  let distance := Vector3Length direction in
  let direction :=
    if (distance >? F32.zero)%f32
    then Vector3Scale (Vector3Normalize direction) (e_speed enemy)
    else direction in
  let enemy :=
    if (distance >? f3_0)%f32 then enemy_move direction enemy else enemy in
  let enemy :=
    set_e_shootTimer (e_shootTimer enemy - deltaTime)%f32 enemy in
  if (e_shootTimer enemy <=? F32.zero)%f32 && (distance <? f10_0)%f32 then
    let shootDirection :=
      Vector3Normalize
        (Vector3Subtract (raise_half (p_position player))
           (raise_half (e_position enemy))) in
    let '(bullets, bulletCount) :=
      ShootBullet bullets bulletCount (raise_half (e_position enemy))
        shootDirection false in
    let enemy :=
      set_e_shootTimer
        (e_shootCooldown enemy
         + F32.of_int (GetRandomValue (rand calls) (-50) 50) / f100_0)%f32
        enemy in
    (enemy, (bullets, bulletCount, S calls))
  else (enemy, (bullets, bulletCount, calls)).

Definition enemies_body (player : Player) (deltaTime : float) (i : nat)
    (st : list Enemy * Shots) : list Enemy * Shots :=
  let '(enemies, shots) := st in
  match enemies !! i with
  | Some enemy =>
      if e_active enemy then
        let '(enemy, shots) := UpdateEnemy player deltaTime enemy shots in
        (<[i := enemy]> enemies, shots)
      else st
  | None => st
  end.

Definition UpdateEnemies (enemies : list Enemy) (enemyCount : nat)
    (player : Player) (shots : Shots) (deltaTime : float)
    : list Enemy * Shots :=
  for_range enemyCount (enemies_body player deltaTime) (enemies, shots).

(** The body of the loop of [CheckBulletCollisions] for an active
    bullet: map, then player, then enemies. *)
Definition check_bullet (enemyCount : nat) (bullet : Bullet)
    (player : Player) (enemies : list Enemy)
    : Bullet * Player * list Enemy :=
  if CheckCollisionBulletWithMap model mapPosition cubicmap bullet then
    (set_b_active false bullet, player, enemies)
  else if negb (b_fromPlayer bullet)
          && CheckCollisionSphereBox (b_position bullet) (b_radius bullet)
               (GetPlayerBoundingBox player)
  then (set_b_active false bullet, damage_player player, enemies)
  else if b_fromPlayer bullet then
    let '(hit, enemies) := enemy_scan bullet (seq 0 enemyCount) enemies in
    (if hit then set_b_active false bullet else bullet, player, enemies)
  else (bullet, player, enemies).

Definition collisions_body (enemyCount : nat) (i : nat)
    (st : list Bullet * Player * list Enemy)
    : list Bullet * Player * list Enemy :=
  let '(bullets, player, enemies) := st in
  match bullets !! i with
  | Some bullet =>
      if b_active bullet then
        let '(bullet, player, enemies) :=
          check_bullet enemyCount bullet player enemies in
        (<[i := bullet]> bullets, player, enemies)
      else st
  | None => st
  end.

Definition CheckBulletCollisions (bullets : list Bullet) (bulletCount : nat)
    (player : Player) (enemies : list Enemy) (enemyCount : nat)
    : list Bullet * Player * list Enemy :=
  for_range bulletCount (collisions_body enemyCount)
    (bullets, player, enemies).

End Simulation.

(** ** The simulation part of the main loop *)

(** What one frame reads from raylib. *)
Record Input := mkInput {
  frameTime : float;
  pressed_P : bool;
  down_RIGHT : bool; down_D : bool;
  down_LEFT : bool; down_A : bool;
  down_DOWN : bool; down_S : bool;
  down_UP : bool; down_W : bool;
  pressed_SPACE : bool;
  pressed_MOUSE_LEFT : bool;
  mouseRay : Ray
}.

Inductive GameState := GAME_PLAYING | GAME_PAUSED.

(** The variables of [main] that the simulation reads and writes. *)
Record Game := mkGame {
  player : Player;
  enemies : list Enemy;
  enemyCount : nat;
  bullets : list Bullet;
  bulletCount : nat;
  gameState : GameState;
  canShoot : bool;
  shootTimer : float;
  randCalls : nat
}.

Definition shootCooldown : float := f0_5.

Section MainLoop.

Variable model : Model.
Variable mapPosition : Vector3.
Variable cubicmap : Texture2D.
Variable rand : nat → Z.

(** The key handling of the player's horizontal movement. *)
Definition player_keys (input : Input) (player : Player) : Player :=
  let player :=
    if down_RIGHT input || down_D input then
      set_p_direction 1
        (set_p_position
           (set_vx (vx (p_position player) + p_speed player)%f32
              (p_position player)) player)
    else if down_LEFT input || down_A input then
      set_p_direction 3
        (set_p_position
           (set_vx (vx (p_position player) - p_speed player)%f32
              (p_position player)) player)
    else player in
  if down_DOWN input || down_S input then
    set_p_direction 0
      (set_p_position
         (set_vz (vz (p_position player) + p_speed player)%f32
            (p_position player)) player)
  else if down_UP input || down_W input then
    set_p_direction 2
      (set_p_position
         (set_vz (vz (p_position player) - p_speed player)%f32
            (p_position player)) player)
  else player.

(** Horizontal movement of the player: the keys are applied on both
    axes, one query is made, and the stored position is put back if it
    reports a collision. *)
Definition player_move (input : Input) (player : Player) : Player :=
  let previousPosition := p_position player in
  let player := player_keys input player in
  let '(collision, player) :=
    CheckCollisionPlayerWithMap model mapPosition cubicmap player in
  if collision then set_p_position previousPosition player else player.

Definition player_jump (input : Input) (player : Player) : Player :=
  if pressed_SPACE input && p_isGrounded player then
    let player :=
      set_p_velocity (set_vy (p_jumpForce player) (p_velocity player))
        player in
    set_p_isGrounded false player
  else player.

(** The direction of a player shot, from the mouse ray. *)
Definition player_aim (ray : Ray) (player : Player) : Vector3 :=
  let t :=
    ((vy (p_position player) + f0_5 - vy (ray_position ray))
     / vy (ray_direction ray))%f32 in
  let targetPoint :=
    Vector3Add (ray_position ray) (Vector3Scale (ray_direction ray) t) in
  let direction :=
    Vector3Normalize
      (Vector3Subtract targetPoint (raise_half (p_position player))) in
  (* Force the y component to be zero to ensure horizontal shooting *)
  let direction := set_vy F32.zero direction in
  (* Re-normalize after zeroing the y component *)
  Vector3Normalize direction.

Definition player_shoot (input : Input) (deltaTime : float)
    (player : Player) (st : list Bullet * nat * bool * float)
    : list Bullet * nat * bool * float :=
  let '(bullets, bulletCount, canShoot, shootTimer) := st in
  let '(canShoot, shootTimer) :=
    if negb canShoot then
      let shootTimer := (shootTimer - deltaTime)%f32 in
      (if (shootTimer <=? F32.zero)%f32 then true else canShoot, shootTimer)
    else (canShoot, shootTimer) in
  if pressed_MOUSE_LEFT input && canShoot then
    let direction := player_aim (mouseRay input) player in
    let '(bullets, bulletCount) :=
      ShootBullet bullets bulletCount (raise_half (p_position player))
        direction true in
    (bullets, bulletCount, false, shootCooldown)
  else (bullets, bulletCount, canShoot, shootTimer).

(** One pass of the [while] loop of [main], without camera and
    drawing. *)
Definition Frame (input : Input) (g : Game) : Game :=
  let deltaTime := frameTime input in
  let gameState :=
    if pressed_P input then
      match gameState g with
      | GAME_PLAYING => GAME_PAUSED
      | GAME_PAUSED => GAME_PLAYING
      end
    else gameState g in
  match gameState with
  | GAME_PLAYING =>
      let player := player_hit_timer deltaTime (player g) in
      let player := player_move input player in
      let player := player_jump input player in
      let '(bullets, bulletCount, canShoot, shootTimer) :=
        player_shoot input deltaTime player
          (bullets g, bulletCount g, canShoot g, shootTimer g) in
      let player :=
        UpdatePlayerPhysics model mapPosition cubicmap player deltaTime in
      let '(enemies, (bullets, bulletCount, randCalls)) :=
        UpdateEnemies model mapPosition cubicmap rand (enemies g)
          (enemyCount g) player (bullets, bulletCount, randCalls g)
          deltaTime in
      let bullets := UpdateBullets bullets bulletCount deltaTime in
      let '(bullets, player, enemies) :=
        CheckBulletCollisions model mapPosition cubicmap bullets
          bulletCount player enemies (enemyCount g) in
      let gameState :=
        if p_health player <=? 0 then GAME_PAUSED else gameState in
      mkGame player enemies (enemyCount g) bullets bulletCount gameState
        canShoot shootTimer randCalls
  | GAME_PAUSED =>
      mkGame (player g) (enemies g) (enemyCount g) (bullets g)
        (bulletCount g) gameState (canShoot g) (shootTimer g) (randCalls g)
  end.

End MainLoop.

(** ** Statements of the specification, as definitions *)

(** Movement resolved axis by axis: the X delta is applied and taken back
    alone if the position then collides, and likewise the Z delta. *)
Definition axis_by_axis (collides : Vector3 → bool) (position : Vector3)
    (dx dz : float) : Vector3 :=
  let moved := set_vx (vx position + dx)%f32 position in
  let afterX := if collides moved then set_vx (vx position) moved else moved in
  let moved := set_vz (vz afterX + dz)%f32 afterX in
  if collides moved then set_vz (vz position) moved else moved.

(** The number of active bullets. *)
Definition active_count (bullets : list Bullet) : nat :=
  length (filter (λ b, b_active b = true) bullets).

(** Every active bullet lies below the counter, so the loops over
    [i < bulletCount] reach it. *)
Definition pool_inv (bullets : list Bullet) (bulletCount : nat) : Prop :=
  forallb (λ b, negb (b_active b)) (drop bulletCount bullets) = true.

(** The state of the bullet array that the program keeps between calls:
    all [MAX_BULLETS] slots exist and the active ones lie below the
    counter. *)
Definition pool_ok (bullets : list Bullet) (bulletCount : nat) : Prop :=
  length bullets = MAX_BULLETS ∧ pool_inv bullets bulletCount.

(** Where an active bullet is after one advance. *)
Definition next_position (b : Bullet) : Vector3 :=
  mkVector3
    (vx (b_position b) + vx (b_direction b) * b_speed b)%f32
    (vy (b_position b) + vy (b_direction b) * b_speed b)%f32
    (vz (b_position b) + vz (b_direction b) * b_speed b)%f32.

(** The bullet touches a box. *)
Definition touches (bullet : Bullet) (box : BoundingBox) : bool :=
  CheckCollisionSphereBox (b_position bullet) (b_radius bullet) box.

(** The bullet strikes the enemy: the enemy is active and the bullet
    touches its box. *)
Definition strikes (bullet : Bullet) (enemy : Enemy) : bool :=
  e_active enemy && touches bullet (GetEnemyBoundingBox enemy).

(** A direction without vertical part: its [y] is a zero, or NaN when the
    normalisation had no number to give. *)
Definition flat (v : Vector3) : bool :=
  F32.is_zero (vy v) || F32.is_nan (vy v).

(** The bullet, if it is an active shot of the player, has a flat
    direction. *)
Definition horizontal_shot (b : Bullet) : Prop :=
  b_active b = true → b_fromPlayer b = true → flat (b_direction b) = true.

(** A cell of the 3x3 block that counts as ground under the player: a
    wall cell on the map whose box meets the player's and whose top is
    within 0.1 of the player's base. *)
Definition ground_cell (mapPosition : Vector3) (cubicmap : Texture2D)
    (player : Player) (xz : Z * Z) : bool :=
  let cellX := F32.to_int (vx (p_position player) - vx mapPosition)%f32 in
  let cellZ := F32.to_int (vz (p_position player) - vz mapPosition)%f32 in
  let currentCellX := cellX + fst xz in
  let currentCellZ := cellZ + snd xz in
  SolidCell cubicmap currentCellX currentCellZ
  && CheckCollisionBoxes (GetPlayerBoundingBox player)
       (CellBounds mapPosition currentCellX currentCellZ)
  && (F32.fabs (vy (p_position player) - (vy mapPosition + f1_0))
      <? f0_1)%f32.

(** Whether the player's map query marks the player as grounded. *)
Definition query_grounds (model : Model) (mapPosition : Vector3)
    (cubicmap : Texture2D) (player : Player) : bool :=
  CheckCollisionBoxes (GetPlayerBoundingBox player)
    (MapBounds model mapPosition)
  && (existsb (ground_cell mapPosition cubicmap player) scan_order
      || (vy (p_position player) <=? f0_5)%f32).

(** What a successful [ShootBullet] writes into the chosen slot. *)
Definition spawned (position direction : Vector3) (fromPlayer : bool)
    : Bullet :=
  mkBullet position direction BULLET_SPEED BULLET_RADIUS
    (if fromPlayer then YELLOW else RED) true fromPlayer.

(** No slot of the pool is in use. *)
Definition all_inactive (bullets : list Bullet) : Prop :=
  pool_inv bullets 0.

(** A shot fired far outside the play area, followed by the advance of
    the bullets: the new bullet is beyond 50 units and is deactivated at
    once. *)
Definition stray_shot (pool : list Bullet * nat) : list Bullet * nat :=
  let '(bullets, bulletCount) :=
    ShootBullet pool.1 pool.2 (mkVector3 f100_0 F32.zero F32.zero)
      (mkVector3 f1_0 F32.zero F32.zero) true in
  (UpdateBullets bullets bulletCount F32.zero, bulletCount).

(** ** A small scene for examples

    A 4x4 map at the world origin with one wall cell at [(2, 1)]; the
    model's box is the one [GenMeshCubicmap] produces for unit cubes.  The
    player and the enemy carry the values [main] initialises them with,
    except for their positions. *)

Module Scene.

Definition fl (n d : Z) : float := F32.lit n d.

Definition black : Color := mkColor 0 0 0 255.
Definition white : Color := mkColor 255 255 255 255.

Definition cubicmap : Texture2D :=
  mkTexture2D 3 4 4
    [ black; black; black; black;
      black; black; white; black;
      black; black; black; black;
      black; black; black; black ].

Definition model : Model :=
  mkModel
    (mkBoundingBox
       (mkVector3 (fl (-1) 2) (fl 0 1) (fl (-1) 2))
       (mkVector3 (fl 7 2) (fl 1 1) (fl 7 2))).

Definition mapPosition : Vector3 := mkVector3 F32.zero F32.zero F32.zero.

Definition sprite : Texture2D := mkTexture2D 1 16 16 [].

Definition player_at (x y z : float) : Player :=
  mkPlayer (mkVector3 x y z) (mkVector3 f0_5 f0_5 f0_5) (fl 1 4) sprite 0
    (mkVector3 F32.zero F32.zero F32.zero) true (fl 2 10) (fl 1 100)
    100 false F32.zero.

Definition enemy_at (x y z : float) (shootTimer : float) : Enemy :=
  mkEnemy (mkVector3 x y z) (mkVector3 f0_5 f0_5 f0_5) (fl 13 100) sprite
    shootTimer ENEMY_SHOOT_COOLDOWN true 30 false F32.zero.

Definition no_bullet : Bullet :=
  mkBullet mapPosition mapPosition F32.zero F32.zero BLANK false false.

(** [Bullet bullets[MAX_BULLETS] = {0}]. *)
Definition empty_pool : list Bullet := replicate MAX_BULLETS no_bullet.

Definition no_ray : Ray := mkRay mapPosition mapPosition.

Definition no_input (dt : float) : Input :=
  mkInput dt false false false false false false false false false
    false false no_ray.

Definition rand (n : nat) : Z := 0.

End Scene.


(** ** The rest of [main]: start-up values and camera *)

(** A number that is neither NaN nor infinite. *)
Definition is_finite (f : float) : bool :=
  match f with
  | S754_zero _ | S754_finite _ _ _ => true
  | _ => false
  end.

Definition f5_0 : float := Eval vm_compute in F32.of_int 5.
Definition f30_0 : float := Eval vm_compute in F32.of_int 30.

(** [Player player = {0}] followed by the assignments of [main]. *)
Definition init_player (texture : Texture2D) : Player :=
  mkPlayer (mkVector3 F32.zero f0_5 (F32.neg f2_0))
    (mkVector3 f0_5 f0_5 f0_5) (F32.lit 25 100) texture 0
    (mkVector3 F32.zero F32.zero F32.zero) true (F32.lit 2 10)
    (F32.lit 1 100) 100 false F32.zero.

(** An element of [Enemy enemies[MAX_ENEMIES] = {0}]. *)
Definition zero_enemy : Enemy :=
  mkEnemy (mkVector3 F32.zero F32.zero F32.zero)
    (mkVector3 F32.zero F32.zero F32.zero) F32.zero (mkTexture2D 0 0 0 [])
    F32.zero F32.zero false 0 false F32.zero.

(** An element of [Bullet bullets[MAX_BULLETS] = {0}]. *)
Definition zero_bullet : Bullet :=
  mkBullet (mkVector3 F32.zero F32.zero F32.zero)
    (mkVector3 F32.zero F32.zero F32.zero) F32.zero F32.zero BLANK false
    false.

(** The body of the loop that places the enemies; [rx], [rz], [rt] are
    the values [rand()] returns for the three [GetRandomValue] calls, taken
    here in the order X, Z, timer. *)
Definition init_enemy (enemyTexture : Texture2D) (rx rz rt : Z) : Enemy :=
  mkEnemy
    (mkVector3 (F32.of_int (GetRandomValue rx 0 10) + f0_5)%f32 f0_5
       (F32.of_int (GetRandomValue rz 0 10) + f0_5)%f32)
    (mkVector3 f0_5 f0_5 f0_5) (F32.lit 13 100) enemyTexture
    (F32.of_int (GetRandomValue rt 0 100) / f100_0 * ENEMY_SHOOT_COOLDOWN)%f32
    ENEMY_SHOOT_COOLDOWN true 30 false F32.zero.

(** [enemyCount] at start-up. *)
Definition initial_enemyCount : nat := 10.

Definition init_enemies (rand : nat → Z) (enemyTexture : Texture2D)
    : list Enemy :=
  for_range initial_enemyCount
    (λ i enemies,
       <[i := init_enemy enemyTexture (rand (3 * i)%nat)
                (rand (3 * i + 1)%nat) (rand (3 * i + 2)%nat)]> enemies)
    (replicate MAX_ENEMIES zero_enemy).

(** The simulation variables as [main] has them when it enters the loop.
    The enemy texture falls back to the player's when it did not load. *)
Definition init_game (rand : nat → Z) (playerTexture enemyTexture : Texture2D)
    : Game :=
  let enemyTexture :=
    if tex_id enemyTexture =? 0 then playerTexture else enemyTexture in
  mkGame (init_player playerTexture) (init_enemies rand enemyTexture)
    initial_enemyCount (replicate MAX_BULLETS zero_bullet) 0 GAME_PLAYING
    true F32.zero (3 * initial_enemyCount).

(** The game after the frames of a list of inputs. *)
Definition run (model : Model) (mapPosition : Vector3) (cubicmap : Texture2D)
    (rand : nat → Z) (inputs : list Input) (g : Game) : Game :=
  foldl (λ g input, Frame model mapPosition cubicmap rand input g) g inputs.

(** The camera, of which the loop moves the position and the target. *)
Record Camera := mkCamera {
  cam_position : Vector3;
  cam_target : Vector3;
  cam_up : Vector3;
  cam_fovy : float;
  cam_projection : Z
}.

Definition init_camera : Camera :=
  mkCamera (mkVector3 (F32.of_int 16) (F32.of_int 18) (F32.of_int 16))
    (mkVector3 F32.zero F32.zero F32.zero)
    (mkVector3 F32.zero f1_0 F32.zero) (F32.of_int 45) 0.

Definition UpdateGameCamera (camera : Camera) (player : Player) : Camera :=
  let position :=
    mkVector3 (vx (p_position player)) (vy (cam_position camera))
      (vz (p_position player) + f10_0)%f32 in
  mkCamera position (p_position player) (cam_up camera) (cam_fovy camera)
    (cam_projection camera).

(** "Camera zoom control": [mouseWheel] is [GetMouseWheelMove()]. *)
Definition zoom_camera (mouseWheel : float) (camera : Camera) : Camera :=
  if F32.neqb mouseWheel F32.zero then
    let y := (vy (cam_position camera) - mouseWheel * f2_0)%f32 in
    let y := if (y <? f5_0)%f32 then f5_0 else y in
    let y := if (y >? f30_0)%f32 then f30_0 else y in
    mkCamera (set_vy y (cam_position camera)) (cam_target camera)
      (cam_up camera) (cam_fovy camera) (cam_projection camera)
  else camera.

(** The camera part of one pass of the loop: it follows the player while
    the game is playing, then the zoom is applied. *)
Definition camera_frame (playing : bool) (mouseWheel : float)
    (player : Player) (camera : Camera) : Camera :=
  let camera := if playing then UpdateGameCamera camera player else camera in
  zoom_camera mouseWheel camera.

(** ** Invariants of the simulation state, as definitions *)

(** An enemy that takes part in the simulation has health left. *)
Definition enemy_alive (enemy : Enemy) : Prop :=
  e_active enemy = true → 0 < e_health enemy.

(** The collision flag of the enemy's map query at a position. *)
Definition enemy_blocked (model : Model) (mapPosition : Vector3)
    (cubicmap : Texture2D) (enemy : Enemy) : bool :=
  CheckCollisionEnemyWithMap model mapPosition cubicmap enemy.

(** The collision flag of the player's map query. *)
Definition player_blocked (model : Model) (mapPosition : Vector3)
    (cubicmap : Texture2D) (player : Player) : bool :=
  fst (CheckCollisionPlayerWithMap model mapPosition cubicmap player).

(** Two players that differ at most in vertical position, vertical
    velocity and the grounded flag. *)
Definition same_but_vertical (a b : Player) : Prop :=
  vx (p_position a) = vx (p_position b)
  ∧ vz (p_position a) = vz (p_position b)
  ∧ vx (p_velocity a) = vx (p_velocity b)
  ∧ vz (p_velocity a) = vz (p_velocity b)
  ∧ p_size a = p_size b ∧ p_speed a = p_speed b
  ∧ p_texture a = p_texture b ∧ p_direction a = p_direction b
  ∧ p_jumpForce a = p_jumpForce b ∧ p_gravity a = p_gravity b
  ∧ p_health a = p_health b ∧ p_isHit a = p_isHit b
  ∧ p_hitTimer a = p_hitTimer b.


(** ** What a collision pass may do to a slot, as definitions *)

(** A bullet after the pass: as before, or switched off. *)
Definition bullet_spent (before after : Bullet) : Prop :=
  after = before ∨ (b_active before = true ∧ after = set_b_active false before).

(** The player after the pass: as before, or damaged once from outside
    his hit window. *)
Definition player_struck (before after : Player) : Prop :=
  after = before ∨ (p_isHit before = false ∧ after = damage_player before).

(** An enemy after the pass: as before, or damaged once while active and
    outside its hit window. *)
Definition enemy_struck (before after : Enemy) : Prop :=
  after = before
  ∨ (e_active before = true ∧ e_isHit before = false
     ∧ after = damage_enemy before).

(** An enemy after [UpdateEnemies]: only the horizontal position, the
    shoot timer and the hit state may differ. *)
Definition enemy_steered (before after : Enemy) : Prop :=
  vy (e_position after) = vy (e_position before)
  ∧ e_size after = e_size before ∧ e_speed after = e_speed before
  ∧ e_texture after = e_texture before
  ∧ e_shootCooldown after = e_shootCooldown before
  ∧ e_active after = e_active before ∧ e_health after = e_health before.


(** ** More items for examples *)

Module Shots.

(** A bullet of an enemy inside the box of a player at [(1, 0.5, 1)]. *)
Definition at_player : Bullet :=
  mkBullet (mkVector3 f1_0 (F32.lit 3 4) f1_0)
    (mkVector3 f1_0 F32.zero F32.zero) BULLET_SPEED BULLET_RADIUS RED true
    false.

(** A bullet of the player inside the box of an enemy at [(3, 0.5, 3)]. *)
Definition at_enemy : Bullet :=
  mkBullet (mkVector3 f3_0 (F32.lit 3 4) f3_0)
    (mkVector3 f1_0 F32.zero F32.zero) BULLET_SPEED BULLET_RADIUS YELLOW true
    true.

Definition target : Player := Scene.player_at f1_0 f0_5 f1_0.

Definition foe : Enemy := Scene.enemy_at f3_0 f0_5 f3_0 f1_0.

End Shots.


(** ** The stages of a frame, as definitions *)

(** The game state after the P key is handled. *)
Definition toggled (input : Input) (g : Game) : GameState :=
  if pressed_P input then
    match gameState g with
    | GAME_PLAYING => GAME_PAUSED
    | GAME_PAUSED => GAME_PLAYING
    end
  else gameState g.

(** An enemy over a whole frame: it is steered, then possibly struck. *)
Definition enemy_framed (before after : Enemy) : Prop :=
  ∃ middle, enemy_steered before middle ∧ enemy_struck middle after.


(** ** The state the main loop keeps, as definitions *)

(** An enemy in play stands at the height it was placed at and has 10, 20
    or 30 health. *)
Definition enemy_sound (enemy : Enemy) : Prop :=
  e_active enemy = true →
  vy (e_position enemy) = f0_5
  ∧ (e_health enemy = 10 ∨ e_health enemy = 20 ∨ e_health enemy = 30).

(** What holds of the simulation variables between two passes of the
    loop. *)
Definition game_ok (g : Game) : Prop :=
  pool_ok (bullets g) (bulletCount g)
  ∧ (bulletCount g ≤ MAX_BULLETS)%nat
  ∧ enemyCount g = initial_enemyCount
  ∧ length (enemies g) = MAX_ENEMIES
  ∧ Forall enemy_sound (enemies g)
  ∧ (∀ j e, (initial_enemyCount ≤ j)%nat → enemies g !! j = Some e →
            e_active e = false)
  ∧ p_health (player g) ≤ 100
  ∧ (gameState g = GAME_PLAYING → 0 < p_health (player g))
  ∧ (vy (p_position (player g)) <? f0_5)%f32 = false
  ∧ 100 ≤ p_health (player g)
          + 10 * (Z.of_nat (bulletCount g)
                  - Z.of_nat (active_count (bullets g))).


(** ** The player's shots over a frame, as definitions *)

(** A slot holds no shot of the player that was not in flight in it
    before. *)
Definition no_new_shot (before after : Bullet) : Prop :=
  b_active after = true → b_fromPlayer after = true →
  b_active before = true ∧ b_fromPlayer before = true
  ∧ b_direction after = b_direction before.

(** Whether the player may shoot in this frame: [canShoot] after the
    cooldown timer has been updated. *)
Definition ready (input : Input) (g : Game) : bool :=
  canShoot g || (shootTimer g - frameTime input <=? F32.zero)%f32.


(** The camera's height is neither below 5 nor above 30. *)
Definition zoom_range (camera : Camera) : Prop :=
  (vy (cam_position camera) <? f5_0)%f32 = false
  ∧ (vy (cam_position camera) >? f30_0)%f32 = false.


(** ** A bullet with nothing left to hit, as a definition *)

(** The bullet, if active, overlaps nothing it could hit: not the map,
    and not the player if an enemy shot it, nor an active enemy below
    [enemyCount] if the player did. *)
Definition at_rest (model : Model) (mapPosition : Vector3)
    (cubicmap : Texture2D) (enemyCount : nat) (player : Player)
    (enemies : list Enemy) (bullet : Bullet) : Prop :=
  b_active bullet = true →
  CheckCollisionBulletWithMap model mapPosition cubicmap bullet = false
  ∧ if b_fromPlayer bullet
    then ∀ k e, (k < enemyCount)%nat → enemies !! k = Some e →
                strikes bullet e = false
    else touches bullet (GetPlayerBoundingBox player) = false.


(** ** The two map queries side by side, as definitions *)

(** The player's base is within 0.1 of the top of the map's cells, which
    is where his map query takes a wall for ground. *)
Definition near_top (mapPosition : Vector3) (player : Player) : bool :=
  (F32.fabs (vy (p_position player) - (vy mapPosition + f1_0)) <? f0_1)%f32.

(** Some wall cell of the 3x3 block around [(cellX, cellZ)] meets the
    box. *)
Definition wall_overlap (mapPosition : Vector3) (cubicmap : Texture2D)
    (box : BoundingBox) (cellX cellZ : Z) (cells : list (Z * Z)) : bool :=
  existsb
    (λ xz,
       let currentCellX := cellX + fst xz in
       let currentCellZ := cellZ + snd xz in
       SolidCell cubicmap currentCellX currentCellZ
       && CheckCollisionBoxes box
            (CellBounds mapPosition currentCellX currentCellZ))
    cells.


(** ** An enemy over many frames, as a definition *)

(** An [int] health from which 10 can be taken [hits] times without
    leaving the range of [int]. *)
Definition has_room (hits : nat) (health : Z) : Prop :=
  F32.INT_MIN + 10 * Z.of_nat hits ≤ health ≤ F32.INT_MAX.

(** An enemy [frames] frames later in a run: not brought back into play,
    as it was if it was out of play, at the same height and of the same
    size; and, where its health had room for a hit in every frame, not
    healed and with at most 10 health less for each frame. *)
Definition enemy_worn (frames : nat) (before after : Enemy) : Prop :=
  (e_active after = true → e_active before = true)
  ∧ (e_active before = false → after = before)
  ∧ vy (e_position after) = vy (e_position before)
  ∧ e_size after = e_size before
  ∧ (has_room frames (e_health before) →
     e_health before - 10 * Z.of_nat frames ≤ e_health after
     ∧ e_health after ≤ e_health before).


(** * Properties *)

(** Case analysis on a condition of the goal that contains no other
    conditional. *)
Ltac case_inner_if :=
  match goal with
  | |- context [if ?c then _ else _] =>
      lazymatch c with
      | context [if _ then _ else _] => fail
      | _ => destruct c eqn:?; simpl
      end
  end.

(** ** Comparisons of single-precision numbers *)

Module F32Facts.

Lemma compare_antisym (a b : float) :
  SFcompare b a = option_map CompOpp (SFcompare a b).
Proof.
  destruct a as [sa|sa| |sa ma ea], b as [sb|sb| |sb mb eb]; simpl;
    try reflexivity;
    try (destruct sa; reflexivity);
    try (destruct sb; reflexivity);
    try (destruct sa, sb; reflexivity).
  destruct sa, sb; simpl; try reflexivity;
    rewrite (Z.compare_antisym ea eb);
    destruct (ea ?= eb) eqn:E; simpl; try reflexivity;
    change (Pcompare ?x ?y Eq) with (Pos.compare x y);
    rewrite (Pos.compare_antisym ma mb);
    destruct (ma ?= mb)%positive; reflexivity.
Qed.

(** [a < b] excludes [a == b]. *)
Lemma ltb_not_eqb (a b : float) :
  F32.ltb a b = true → F32.eqb a b = false.
Proof.
  unfold F32.ltb, F32.eqb, SFltb, SFeqb.
  destruct (SFcompare a b) as [[]|]; congruence.
Qed.

Lemma eqb_not_ltb (a b : float) :
  F32.eqb a b = true → F32.ltb a b = false.
Proof.
  unfold F32.ltb, F32.eqb, SFltb, SFeqb.
  destruct (SFcompare a b) as [[]|]; congruence.
Qed.

(** [a <= b] excludes [a > b]. *)
Lemma leb_not_gtb (a b : float) :
  F32.leb a b = true → F32.gtb a b = false.
Proof.
  unfold F32.gtb, F32.ltb, F32.leb, SFltb, SFleb.
  rewrite (compare_antisym a b).
  destruct (SFcompare a b) as [[]|]; simpl; congruence.
Qed.

(** Between numbers, not [a <= b] means [b < a]; with a NaN both
    comparisons are false. *)
Lemma compare_numbers (a b : float) :
  F32.is_nan a = false → F32.is_nan b = false →
  ∃ c, SFcompare a b = Some c.
Proof.
  destruct a, b; simpl; intros Ha Hb; try discriminate; eauto.
Qed.

Lemma not_leb_ltb (a b : float) :
  F32.is_nan a = false → F32.is_nan b = false →
  F32.leb a b = false → F32.ltb b a = true.
Proof.
  intros Ha Hb.
  unfold F32.ltb, F32.leb, SFltb, SFleb.
  rewrite (compare_antisym a b).
  destruct (compare_numbers a b Ha Hb) as [c ->].
  destruct c; simpl; congruence.
Qed.

Lemma leb_numbers (a b : float) :
  F32.leb a b = true → F32.is_nan a = false ∧ F32.is_nan b = false.
Proof. destruct a, b; simpl; auto; discriminate. Qed.

Lemma eqb_refl (a : float) : F32.is_nan a = false → F32.eqb a a = true.
Proof.
  unfold F32.eqb, SFeqb.
  destruct a as [s|s| |s m e]; simpl; try discriminate; intros _;
    try (destruct s; reflexivity).
  destruct s; rewrite Z.compare_refl;
    change (Pcompare m m Eq) with (Pos.compare m m);
    now rewrite Pos.compare_refl.
Qed.

(** [a <= b] without [a < b] is [a == b]. *)
Lemma leb_not_ltb_eqb (a b : float) :
  F32.leb a b = true → F32.ltb a b = false → F32.eqb a b = true.
Proof.
  unfold F32.leb, F32.ltb, F32.eqb, SFleb, SFltb, SFeqb.
  destruct (SFcompare a b) as [[]|]; congruence.
Qed.

(** Clamping a number that lies between the bounds returns a number
    equal to it. *)
Lemma clamp_inside (lo v hi : float) :
  F32.leb lo v = true → F32.leb v hi = true →
  F32.eqb (F32.fmaxf lo (F32.fminf v hi)) v = true.
Proof.
  intros Hlo Hhi.
  destruct (leb_numbers _ _ Hlo) as [Nlo Nv].
  destruct (leb_numbers _ _ Hhi) as [_ Nhi].
  assert (F32.fminf v hi = v) as ->.
  { apply leb_not_gtb in Hhi. unfold F32.gtb in Hhi. unfold F32.fminf.
    rewrite Hhi. destruct v, hi; try reflexivity; discriminate. }
  assert (F32.fmaxf lo v = if F32.ltb lo v then v else lo) as ->.
  { unfold F32.fmaxf. destruct lo, v; try reflexivity; discriminate. }
  destruct (F32.ltb lo v) eqn:Hlt.
  - now apply eqb_refl.
  - now apply leb_not_ltb_eqb.
Qed.

(** A product with a zero is a zero or NaN. *)
Lemma mul_zero_l (s : bool) (y : float) :
  F32.is_zero (F32.mul (S754_zero s) y) = true
  ∨ F32.is_nan (F32.mul (S754_zero s) y) = true.
Proof. destruct y; simpl; auto. Qed.

(** [f < 0] holds of the negative numbers only. *)
Lemma ltb_zero (f : float) (s : bool) :
  F32.ltb f (S754_zero s) = F32.is_negative f.
Proof. destruct f as [sf|sf| |sf m e]; try destruct sf; reflexivity. Qed.

(** A comparison with a NaN is false. *)
Lemma ltb_nan (a b : float) :
  F32.is_nan a = true ∨ F32.is_nan b = true → F32.ltb a b = false.
Proof.
  intros [H | H]; [destruct a | destruct b]; try discriminate;
    [reflexivity | now destruct a].
Qed.

(** Rounding keeps the sign. *)
Lemma round_aux_sign (sx : bool) (mx ex : Z) (lx : location) :
  F32.is_negative (binary_round_aux F32.prec F32.emax sx mx ex lx) = true →
  sx = true.
Proof.
  unfold binary_round_aux.
  destruct (shr_fexp _ _ mx ex lx) as [mrs' e'].
  destruct (shr_fexp _ _ _ e' loc_Exact) as [mrs'' e''].
  destruct (shr_m mrs''); [destruct sx; simpl; congruence| |discriminate].
  destruct (_ <=? _); destruct sx; simpl; congruence.
Qed.

(** The sum of two numbers that are not negative is not negative. *)
Lemma add_not_negative (a b : float) :
  F32.is_negative a = false → F32.is_negative b = false →
  F32.is_negative (F32.add a b) = false.
Proof.
  intros Ha Hb.
  destruct a as [sa|sa| |sa ma ea], b as [sb|sb| |sb mb eb];
    try destruct sa; try destruct sb; try discriminate; try reflexivity.
  unfold F32.add, SFadd, cond_Zopp. cbv zeta.
  generalize (shl_align ma ea (Z.min ea eb)).1,
    (shl_align mb eb (Z.min ea eb)).1.
  intros p q. change (Z.pos p + Z.pos q) with (Z.pos (p + q)).
  unfold binary_normalize, binary_round.
  destruct (shl_align _ _ _) as [mz ez]. clear Ha Hb.
  match goal with
  | |- F32.is_negative ?x = false => destruct (F32.is_negative x) eqn:Hneg
  end; [|reflexivity].
  apply round_aux_sign in Hneg. discriminate.
Qed.

(** The rounded product [x * x] is never negative. *)
Lemma powf2_not_negative (x : float) :
  F32.is_negative (F32.powf2 x) = false.
Proof.
  destruct x as [s|s| |s m e]; try reflexivity; try (destruct s; reflexivity).
  unfold F32.powf2, F32.mul, SFmul.
  match goal with
  | |- F32.is_negative ?x = false => destruct (F32.is_negative x) eqn:Hneg
  end; [|reflexivity].
  apply round_aux_sign in Hneg. now destruct s.
Qed.

End F32Facts.

(** ** Sphere against box *)

(** C5 (as stated) fails at the boundary: both sides of the comparison
    are rounded, so a sphere whose distance to the box is exactly its
    radius can be reported as colliding.  The sphere of radius 11709
    around [(7784, 4067, 7744)] touches the box at its corner [(0, 0, 0)],
    since 7784^2 + 4067^2 + 7744^2 = 11709^2.  The three squares are exact
    in single precision, whatever [powf] is used; their sum is rounded
    twice, to 137100672, and the squared radius once, to 137100688. *)
Lemma tangent_sphere_collides :
  let center :=
    mkVector3 (F32.of_int 7784) (F32.of_int 4067) (F32.of_int 7744) in
  let radius := F32.of_int 11709 in
  let corner := mkVector3 F32.zero F32.zero F32.zero in
  let box :=
    mkBoundingBox
      (mkVector3 (F32.of_int (-1)) (F32.of_int (-1)) (F32.of_int (-1)))
      corner in
  7784 * 7784 + 4067 * 4067 + 7744 * 7744 = 11709 * 11709
  ∧ ClosestPoint center box = corner
  ∧ F32.powf2 (vx corner - vx center)%f32 = F32.of_int (7784 * 7784)
  ∧ F32.powf2 (vy corner - vy center)%f32 = F32.of_int (4067 * 4067)
  ∧ F32.powf2 (vz corner - vz center)%f32 = F32.of_int (7744 * 7744)
  ∧ DistanceSquared center corner = F32.of_int 137100672
  ∧ (radius * radius)%f32 = F32.of_int 137100688
  ∧ CheckCollisionSphereBox center radius box = true.
Proof. vm_compute. repeat split. Qed.

(** C5: [CheckCollisionSphereBox], with any function in the place of
    [powf(x, 2.0f)], answers true exactly when the squared distance it
    computes from the centre to the centre clamped to the box, the
    single-precision sum of the three squares, is strictly below the
    single-precision product [radius * radius].  When the two computed
    values are equal, or one of them is NaN, the answer is false; and a
    sphere of radius 0 collides with nothing, also with its centre inside
    the box, as long as the squares are not negative. *)
Theorem CheckCollisionSphereBox_rounded (square : float → float)
    (center : Vector3) (radius : float) (box : BoundingBox) :
  let closest := ClosestPoint center box in
  let distanceSquared := DistanceSquaredWith square center closest in
  CheckCollisionSphereBox center radius box
  = SphereBoxTest F32.powf2 center radius box
  ∧ (SphereBoxTest square center radius box = true ↔
     (distanceSquared <? radius * radius)%f32 = true)
  ∧ ((distanceSquared =? radius * radius)%f32 = true →
     SphereBoxTest square center radius box = false)
  ∧ (F32.is_nan distanceSquared = true
     ∨ F32.is_nan (radius * radius)%f32 = true →
     SphereBoxTest square center radius box = false)
  ∧ (F32.is_negative (square (vx closest - vx center)%f32) = false →
     F32.is_negative (square (vy closest - vy center)%f32) = false →
     F32.is_negative (square (vz closest - vz center)%f32) = false →
     F32.is_zero radius = true →
     SphereBoxTest square center radius box = false).
Proof.
  intros closest distanceSquared.
  assert (SphereBoxTest square center radius box
          = (distanceSquared <? radius * radius)%f32) as Htest
    by reflexivity.
  rewrite Htest.
  split; [reflexivity|]. split; [reflexivity|]. split.
  { intros Heq. now apply F32Facts.eqb_not_ltb in Heq. }
  split; [apply F32Facts.ltb_nan|].
  intros Hx Hy Hz Hzero.
  assert (F32.is_negative distanceSquared = false) as Hsum.
  { subst distanceSquared. unfold DistanceSquaredWith.
    apply F32Facts.add_not_negative; [|exact Hz].
    now apply F32Facts.add_not_negative. }
  destruct radius as [s|s| |s m e]; try discriminate.
  change (S754_zero s * S754_zero s)%f32 with (S754_zero (xorb s s)).
  now rewrite F32Facts.ltb_zero.
Qed.

(** A sphere of radius 0 at the centre of the unit cube: the distance is
    0, as is the radius, and the program reports no collision. *)
Lemma CheckCollisionSphereBox_rounded_witness :
  CheckCollisionSphereBox (mkVector3 f0_5 f0_5 f0_5) F32.zero
    (mkBoundingBox (mkVector3 F32.zero F32.zero F32.zero)
       (mkVector3 f1_0 f1_0 f1_0)) = false.
Proof.
  pose proof (CheckCollisionSphereBox_rounded F32.powf2
                (mkVector3 f0_5 f0_5 f0_5) F32.zero
                (mkBoundingBox (mkVector3 F32.zero F32.zero F32.zero)
                   (mkVector3 f1_0 f1_0 f1_0))) as H.
  cbv zeta in H. destruct H as (-> & _ & _ & _ & Hzero).
  apply Hzero; vm_compute; reflexivity.
Defined.

(** For a centre inside the box the clamped point is the centre, axis by
    axis. *)
Lemma ClosestPoint_inside (center : Vector3) (box : BoundingBox) :
  (vx (bmin box) <=? vx center)%f32 = true →
  (vx center <=? vx (bmax box))%f32 = true →
  (vy (bmin box) <=? vy center)%f32 = true →
  (vy center <=? vy (bmax box))%f32 = true →
  (vz (bmin box) <=? vz center)%f32 = true →
  (vz center <=? vz (bmax box))%f32 = true →
  (vx (ClosestPoint center box) =? vx center)%f32 = true
  ∧ (vy (ClosestPoint center box) =? vy center)%f32 = true
  ∧ (vz (ClosestPoint center box) =? vz center)%f32 = true.
Proof.
  intros. unfold ClosestPoint. simpl.
  repeat split; now apply F32Facts.clamp_inside.
Qed.

(** The same sphere with radius 1.25 reaches the cube. *)
Example sphere_reaches_cube :
  CheckCollisionSphereBox
    (mkVector3 f2_0 f0_5 f0_5) (F32.lit 5 4)
    (mkBoundingBox (mkVector3 F32.zero F32.zero F32.zero)
       (mkVector3 f1_0 f1_0 f1_0)) = true.
Proof. vm_compute. reflexivity. Qed.

(** ** The player's map query *)

Section PlayerQuery.

Variable model : Model.
Variable mapPosition : Vector3.
Variable cubicmap : Texture2D.

(** The scan of the 3x3 block sets [groundContact] exactly when one of
    the cells is a ground cell. *)
Lemma scan_groundContact (player : Player) (cells : list (Z * Z))
    (st : bool * bool) :
  snd (foldl
         (player_cell mapPosition cubicmap player
            (GetPlayerBoundingBox player)
            (F32.to_int (vx (p_position player) - vx mapPosition)%f32)
            (F32.to_int (vz (p_position player) - vz mapPosition)%f32))
         st cells)
  = snd st || existsb (ground_cell mapPosition cubicmap player) cells.
Proof.
  revert st. induction cells as [|xz cells IH]; intros [c g]; simpl.
  - now rewrite orb_false_r.
  - rewrite IH. unfold ground_cell, SolidCell.
    destruct (InsideMap _ _ _); simpl; [|reflexivity].
    destruct (IsWall _); simpl; [|reflexivity].
    destruct (CheckCollisionBoxes _ _); simpl; [|reflexivity].
    destruct (F32.ltb _ _); simpl; [|reflexivity].
    now rewrite orb_true_r.
Qed.

(** The player the query leaves behind. *)
Lemma query_player (player : Player) :
  snd (CheckCollisionPlayerWithMap model mapPosition cubicmap player)
  = if query_grounds model mapPosition cubicmap player
    then set_p_isGrounded true player else player.
Proof.
  unfold CheckCollisionPlayerWithMap, query_grounds.
  generalize scan_order. intros cells.
  destruct (CheckCollisionBoxes _ _); simpl; [|reflexivity].
  pose proof (scan_groundContact player cells (false, false)) as H.
  destruct (foldl _ _ _) as [c g]. simpl in H. subst g. reflexivity.
Qed.

Lemma query_position (player : Player) :
  p_position
    (snd (CheckCollisionPlayerWithMap model mapPosition cubicmap player))
  = p_position player.
Proof. rewrite query_player. now destruct (query_grounds _ _ _ player). Qed.

End PlayerQuery.

(** C10 (as stated) fails for a player outside the box of the whole map:
    the query returns before it looks at the player's height, so a player
    at base height 0.5 keeps [isGrounded = false]. *)
Lemma query_outside_map_not_grounded :
  let player :=
    set_p_isGrounded false
      (Scene.player_at f100_0 f0_5 f100_0) in
  (vy (p_position player) <=? f0_5)%f32 = true
  ∧ p_isGrounded
      (snd (CheckCollisionPlayerWithMap Scene.model Scene.mapPosition
              Scene.cubicmap player)) = false.
Proof. vm_compute. split; reflexivity. Qed.

(** C10 (amended): when the player's box meets the box of the whole map,
    the query sets [isGrounded] if the base height is at most 0.5 or one
    of the cells of the 3x3 block is a ground cell; when the boxes do not
    meet it reports a collision and leaves the player as it is.  It never
    clears [isGrounded], and no other field of the player changes. *)
Theorem query_sets_grounded (model : Model) (mapPosition : Vector3)
    (cubicmap : Texture2D) (player : Player) :
  let result := CheckCollisionPlayerWithMap model mapPosition cubicmap player in
  (CheckCollisionBoxes (GetPlayerBoundingBox player)
     (MapBounds model mapPosition) = true →
   (vy (p_position player) <=? f0_5)%f32 = true
   ∨ (∃ xz, xz ∈ scan_order
            ∧ ground_cell mapPosition cubicmap player xz = true) →
   p_isGrounded (snd result) = true)
  ∧ (CheckCollisionBoxes (GetPlayerBoundingBox player)
       (MapBounds model mapPosition) = false →
     result = (true, player))
  ∧ (p_isGrounded player = true → p_isGrounded (snd result) = true)
  ∧ snd result = set_p_isGrounded (p_isGrounded (snd result)) player.
Proof.
  intros result. subst result. rewrite query_player. repeat split.
  - intros Hbox Hcond. unfold query_grounds. rewrite Hbox.
    assert (existsb (ground_cell mapPosition cubicmap player) scan_order
            || (vy (p_position player) <=? f0_5)%f32 = true) as ->.
    { apply orb_true_iff. destruct Hcond as [Hy | (xz & Hin & Hg)].
      - now right.
      - left. apply existsb_exists. exists xz. split; [|exact Hg].
        now apply list_elem_of_In. }
    reflexivity.
  - intros Hbox. unfold CheckCollisionPlayerWithMap. now rewrite Hbox.
  - intros Hg. destruct (query_grounds _ _ _ player); [reflexivity | exact Hg].
  - destruct (query_grounds _ _ _ player); [reflexivity|].
    now destruct player.
Qed.

(** On the scene's floor the query grounds a player whose flag was
    cleared. *)
Lemma query_sets_grounded_witness :
  p_isGrounded
    (snd (CheckCollisionPlayerWithMap Scene.model Scene.mapPosition
            Scene.cubicmap
            (set_p_isGrounded false (Scene.player_at f1_0 f0_5 f1_0))))
  = true.
Proof.
  apply (proj1 (query_sets_grounded Scene.model Scene.mapPosition
                  Scene.cubicmap
                  (set_p_isGrounded false (Scene.player_at f1_0 f0_5 f1_0)))).
  - vm_compute. reflexivity.
  - left. vm_compute. reflexivity.
Defined.

(** ** Horizontal movement *)

Section Movement.

Variable model : Model.
Variable mapPosition : Vector3.
Variable cubicmap : Texture2D.

Lemma enemy_move_axis_by_axis (direction : Vector3) (enemy : Enemy) :
  enemy_move model mapPosition cubicmap direction enemy
  = set_e_position
      (axis_by_axis
         (λ position,
            CheckCollisionEnemyWithMap model mapPosition cubicmap
              (set_e_position position enemy))
         (e_position enemy) (vx direction) (vz direction))
      enemy.
Proof.
  unfold enemy_move, axis_by_axis.
  destruct enemy as [[x y z] size speed tex st sc act h ih ht].
  unfold set_e_position, set_vx, set_vz; simpl.
  repeat case_inner_if; reflexivity.
Qed.

Lemma player_move_all_or_nothing (input : Input) (player : Player) :
  p_position (player_move model mapPosition cubicmap input player)
  = if fst (CheckCollisionPlayerWithMap model mapPosition cubicmap
              (player_keys input player))
    then p_position player
    else p_position (player_keys input player).
Proof.
  unfold player_move.
  pose proof (query_position model mapPosition cubicmap
                (player_keys input player)) as Hpos.
  destruct (CheckCollisionPlayerWithMap _ _ _ _) as [c p']. simpl in *.
  destruct c; [reflexivity | exact Hpos].
Qed.

End Movement.

(** C1 (as stated) fails for the player.  In the scene, a player at
    [(1, 0.5, 1)] holding RIGHT and DOWN would collide with the wall cell
    [(2, 1)] on the X axis only; axis-by-axis resolution would keep the Z
    step and end at [z = 1.25], but the player is put back at [z = 1]. *)
Lemma player_move_not_axis_by_axis :
  let player := Scene.player_at f1_0 f0_5 f1_0 in
  let input :=
    mkInput (F32.lit 1 60) false true false false false true false false
      false false false Scene.no_ray in
  let collides position :=
    fst (CheckCollisionPlayerWithMap Scene.model Scene.mapPosition
           Scene.cubicmap (set_p_position position player)) in
  axis_by_axis collides (p_position player) (p_speed player) (p_speed player)
  = mkVector3 f1_0 f0_5 (F32.lit 5 4)
  ∧ p_position
      (player_move Scene.model Scene.mapPosition Scene.cubicmap input player)
    = mkVector3 f1_0 f0_5 f1_0
  ∧ p_position
      (player_move Scene.model Scene.mapPosition Scene.cubicmap input player)
    ≠ axis_by_axis collides (p_position player) (p_speed player)
        (p_speed player).
Proof. vm_compute. repeat split; congruence. Qed.

(** C1 (amended): an enemy's move is resolved axis by axis, X first and
    then Z, each step taken back alone when the enemy then collides with
    the map; so when only the X step collides the Z step is kept, and
    when only the Z step collides the X step is kept.  The
    player's move applies the key steps of both axes, asks once, and on a
    collision restores the whole previous position. *)
Theorem movement_resolution (model : Model) (mapPosition : Vector3)
    (cubicmap : Texture2D) (direction : Vector3) (enemy : Enemy)
    (input : Input) (player : Player) :
  let collides position :=
    CheckCollisionEnemyWithMap model mapPosition cubicmap
      (set_e_position position enemy) in
  let position := e_position enemy in
  enemy_move model mapPosition cubicmap direction enemy
  = set_e_position
      (axis_by_axis collides position (vx direction) (vz direction)) enemy
  ∧ (collides (set_vx (vx position + vx direction)%f32 position) = true →
     collides (set_vz (vz position + vz direction)%f32 position) = false →
     e_position (enemy_move model mapPosition cubicmap direction enemy)
     = set_vz (vz position + vz direction)%f32 position)
  ∧ (let moved := set_vx (vx position + vx direction)%f32 position in
     collides moved = false →
     collides (set_vz (vz moved + vz direction)%f32 moved) = true →
     e_position (enemy_move model mapPosition cubicmap direction enemy)
     = moved)
  ∧ p_position (player_move model mapPosition cubicmap input player)
    = if fst (CheckCollisionPlayerWithMap model mapPosition cubicmap
                (player_keys input player))
      then p_position player
      else p_position (player_keys input player).
Proof.
  intros collides position. split; [|split; [|split]].
  - apply enemy_move_axis_by_axis.
  - intros HX HZ. rewrite enemy_move_axis_by_axis. fold collides.
    subst position. destruct enemy as [[x y z] ? ? ? ? ? ? ? ? ?].
    unfold axis_by_axis. simpl in *. rewrite HX. simpl.
    unfold set_vx, set_vz in *. simpl in *. rewrite HZ. reflexivity.
  - intros moved HX HZ. rewrite enemy_move_axis_by_axis. fold collides.
    subst moved position. destruct enemy as [[x y z] ? ? ? ? ? ? ? ? ?].
    unfold axis_by_axis. simpl in *. rewrite HX. simpl.
    unfold set_vx, set_vz in *. simpl in *. rewrite HZ. reflexivity.
  - apply player_move_all_or_nothing.
Qed.

(** The enemy of the scene slides along the wall: from [(1, 0.5, 1)] with
    step [(0.25, 0, 0.25)] it ends at [(1, 0.5, 1.25)]. *)
Lemma movement_resolution_witness :
  let enemy := Scene.enemy_at f1_0 f0_5 f1_0 F32.zero in
  let direction := mkVector3 (F32.lit 1 4) F32.zero (F32.lit 1 4) in
  e_position
    (enemy_move Scene.model Scene.mapPosition Scene.cubicmap direction enemy)
  = set_vz (vz (e_position enemy) + vz direction)%f32 (e_position enemy).
Proof.
  intros enemy direction.
  apply (proj1 (proj2 (movement_resolution Scene.model Scene.mapPosition
                         Scene.cubicmap direction enemy
                         (Scene.no_input F32.zero)
                         (Scene.player_at f1_0 f0_5 f1_0)))).
  - vm_compute. reflexivity.
  - vm_compute. reflexivity.
Defined.

(** ** Loops over an index range *)

Lemma for_range_S {S : Type} (n : nat) (body : nat → S → S) (s : S) :
  for_range (Datatypes.S n) body s = body n (for_range n body s).
Proof. unfold for_range. now rewrite seq_S, foldl_app. Qed.

(** A loop that rewrites slot [i] in iteration [i] applies the rewrite
    once to every slot below the bound and to no other. *)
Lemma for_range_alter_lookup {A : Type} (f : A → A) (n : nat) (l : list A)
    (i : nat) :
  for_range n (λ i l, alter f i l) l !! i
  = if decide (i < n)%nat then f <$> l !! i else l !! i.
Proof.
  induction n as [|n IH].
  - now destruct (decide (i < 0)%nat) as [H|H]; [lia|].
  - rewrite for_range_S.
    destruct (decide (i = n)) as [->|Hne].
    + rewrite list_lookup_alter_eq, IH.
      destruct (decide (n < n)%nat); [lia|].
      now destruct (decide (n < Datatypes.S n)%nat); [|lia].
    + rewrite list_lookup_alter_ne by congruence. rewrite IH.
      destruct (decide (i < n)%nat), (decide (i < Datatypes.S n)%nat);
        try reflexivity; lia.
Qed.

(** ** The bullet pool *)

Section Pool.

Implicit Types (bullets : list Bullet) (bulletCount i : nat).

Lemma first_inactive_Some bullets i k :
  first_inactive bullets i = Some k →
  (i ≤ k)%nat
  ∧ (∃ b, bullets !! (k - i)%nat = Some b ∧ b_active b = false)
  ∧ (∀ j b, (j < k - i)%nat → bullets !! j = Some b → b_active b = true).
Proof.
  revert i. induction bullets as [|b bullets IH]; intros i; simpl.
  - discriminate.
  - destruct (b_active b) eqn:Hb; simpl.
    + intros H. apply IH in H as (Hle & (b' & Hb' & Hin) & Hall).
      split; [lia|]. split.
      * exists b'. split; [|exact Hin].
        replace (k - i)%nat with (Datatypes.S (k - Datatypes.S i)) by lia.
        exact Hb'.
      * intros [|j] b0 Hj Hl; simpl in Hl.
        -- congruence.
        -- apply (Hall j b0); [lia | exact Hl].
    + intros [= <-]. split; [lia|]. rewrite Nat.sub_diag. split.
      * exists b. now split.
      * intros j b0 Hj. lia.
Qed.

Lemma first_inactive_None bullets i :
  first_inactive bullets i = None →
  ∀ j b, bullets !! j = Some b → b_active b = true.
Proof.
  revert i. induction bullets as [|b bullets IH]; intros i; simpl.
  - intros _ j b. now rewrite lookup_nil.
  - destruct (b_active b) eqn:Hb; simpl; [|discriminate].
    intros H [|j] b0; simpl.
    + congruence.
    + apply (IH _ H).
Qed.

Lemma ShootBullet_full bullets bulletCount position direction fromPlayer :
  (MAX_BULLETS ≤ bulletCount)%nat →
  ShootBullet bullets bulletCount position direction fromPlayer
  = (bullets, bulletCount).
Proof.
  intros H. unfold ShootBullet.
  now destruct (Nat.leb_spec MAX_BULLETS bulletCount); [|lia].
Qed.

Lemma ShootBullet_free_slot bullets bulletCount position direction
    fromPlayer i :
  (bulletCount < MAX_BULLETS)%nat →
  first_inactive (take MAX_BULLETS bullets) 0 = Some i →
  ShootBullet bullets bulletCount position direction fromPlayer
  = (<[i := spawned position direction fromPlayer]> bullets,
     S bulletCount).
Proof.
  intros H Hi. unfold ShootBullet.
  destruct (Nat.leb_spec MAX_BULLETS bulletCount); [lia|].
  now rewrite Hi.
Qed.

Lemma ShootBullet_recycle bullets bulletCount position direction
    fromPlayer :
  (bulletCount < MAX_BULLETS)%nat →
  first_inactive (take MAX_BULLETS bullets) 0 = None →
  ShootBullet bullets bulletCount position direction fromPlayer
  = (<[Nat.modulo bulletCount MAX_BULLETS
       := spawned position direction fromPlayer]> bullets,
     bulletCount).
Proof.
  intros H Hi. unfold ShootBullet.
  destruct (Nat.leb_spec MAX_BULLETS bulletCount); [lia|].
  now rewrite Hi.
Qed.

Lemma ShootBullet_length bullets bulletCount position direction fromPlayer :
  length (ShootBullet bullets bulletCount position direction fromPlayer).1
  = length bullets.
Proof.
  unfold ShootBullet.
  destruct (MAX_BULLETS <=? bulletCount)%nat; [reflexivity|].
  destruct (first_inactive _ _); simpl; apply length_insert.
Qed.

Lemma ShootBullet_count bullets bulletCount position direction fromPlayer :
  (bulletCount ≤ MAX_BULLETS)%nat →
  ((ShootBullet bullets bulletCount position direction fromPlayer).2
   ≤ MAX_BULLETS)%nat.
Proof.
  intros H. unfold ShootBullet.
  destruct (Nat.leb_spec MAX_BULLETS bulletCount); [exact H|].
  destruct (first_inactive _ _); simpl; lia.
Qed.

Lemma active_count_le_length bullets :
  (active_count bullets ≤ length bullets)%nat.
Proof. apply length_filter. Qed.

Lemma pool_inv_spec bullets bulletCount :
  pool_inv bullets bulletCount ↔
  ∀ i b, bullets !! i = Some b → (bulletCount ≤ i)%nat → b_active b = false.
Proof.
  unfold pool_inv. rewrite forallb_forall. split.
  - intros H i b Hi Hle. apply negb_true_iff, H, list_elem_of_In.
    apply list_elem_of_lookup. exists (i - bulletCount)%nat.
    rewrite lookup_drop. now replace (bulletCount + (i - bulletCount))%nat
      with i by lia.
  - intros H b Hin. apply list_elem_of_In, list_elem_of_lookup in Hin
      as [i Hi]. rewrite lookup_drop in Hi.
    apply negb_true_iff, (H _ _ Hi). lia.
Qed.

Lemma all_inactive_spec bullets :
  all_inactive bullets ↔ ∀ i b, bullets !! i = Some b → b_active b = false.
Proof.
  unfold all_inactive. rewrite pool_inv_spec. split.
  - intros H i b Hi. apply (H i b Hi). lia.
  - intros H i b Hi _. exact (H i b Hi).
Qed.

Lemma all_inactive_count bullets :
  all_inactive bullets → active_count bullets = 0%nat.
Proof.
  rewrite all_inactive_spec. unfold active_count.
  induction bullets as [|b bullets IH]; intros H; [reflexivity|].
  rewrite filter_cons. pose proof (H 0%nat b eq_refl) as Hb.
  destruct (decide (b_active b = true)) as [Ht|_]; [congruence|].
  apply IH. intros i b' Hi. exact (H (Datatypes.S i) b' Hi).
Qed.

(** The advance of the bullets, slot by slot. *)
Lemma UpdateBullets_lookup bullets bulletCount deltaTime i :
  UpdateBullets bullets bulletCount deltaTime !! i
  = if decide (i < bulletCount)%nat
    then advance_bullet <$> bullets !! i
    else bullets !! i.
Proof. apply for_range_alter_lookup. Qed.

Lemma UpdateBullets_length bullets bulletCount deltaTime :
  length (UpdateBullets bullets bulletCount deltaTime) = length bullets.
Proof.
  unfold UpdateBullets. induction bulletCount as [|n IH]; [reflexivity|].
  now rewrite for_range_S, length_alter.
Qed.

Lemma advance_inactive (b : Bullet) :
  b_active b = false → advance_bullet b = b.
Proof. intros H. unfold advance_bullet. now rewrite H. Qed.

Lemma advance_stays_inactive (b : Bullet) :
  b_active b = false → b_active (advance_bullet b) = false.
Proof. intros H. now rewrite advance_inactive. Qed.

(** ShootBullet keeps every active bullet below the counter. *)
Lemma ShootBullet_pool_inv bullets bulletCount position direction
    fromPlayer :
  length bullets = MAX_BULLETS →
  pool_inv bullets bulletCount →
  pool_inv
    (ShootBullet bullets bulletCount position direction fromPlayer).1
    (ShootBullet bullets bulletCount position direction fromPlayer).2.
Proof.
  rewrite !pool_inv_spec. intros Hlen Hinv.
  destruct (Nat.le_gt_cases MAX_BULLETS bulletCount) as [Hfull|Hroom].
  { now rewrite ShootBullet_full. }
  destruct (lookup_lt_is_Some_2 bullets bulletCount) as [b0 Hb0]; [lia|].
  pose proof (Hinv _ _ Hb0 (Nat.le_refl _)) as Hb0i.
  assert (take MAX_BULLETS bullets = bullets) as Htake
    by (apply take_ge; lia).
  destruct (first_inactive bullets 0) as [i|] eqn:Hfirst.
  - rewrite (ShootBullet_free_slot _ _ _ _ _ i) by
      (try rewrite Htake; assumption).
    simpl. apply first_inactive_Some in Hfirst as (_ & _ & Hall).
    rewrite Nat.sub_0_r in Hall.
    assert (i ≤ bulletCount)%nat as Hi.
    { destruct (Nat.le_gt_cases i bulletCount) as [|Hgt]; [assumption|].
      specialize (Hall _ _ Hgt Hb0). congruence. }
    intros j b Hj Hle. rewrite list_lookup_insert_ne in Hj by lia.
    apply (Hinv j b Hj). lia.
  - pose proof (first_inactive_None _ _ Hfirst _ _ Hb0). congruence.
Qed.

Lemma UpdateBullets_pool_inv bullets bulletCount deltaTime :
  pool_inv bullets bulletCount →
  pool_inv (UpdateBullets bullets bulletCount deltaTime) bulletCount.
Proof.
  rewrite !pool_inv_spec.
  intros Hinv j b Hj Hle. rewrite UpdateBullets_lookup in Hj.
  destruct (decide (j < bulletCount)%nat); [lia|].
  exact (Hinv j b Hj Hle).
Qed.

End Pool.

(** C7: with every active bullet below the counter, as [ShootBullet]
    maintains it, one advance moves each active bullet by its direction
    times its speed and clears its active flag exactly when the new
    position is more than 50 from the origin; an inactive bullet is left
    as it is; the frame time plays no part. *)
Theorem UpdateBullets_advances (bullets : list Bullet) (bulletCount : nat)
    (deltaTime : float) (i : nat) (b : Bullet) :
  pool_inv bullets bulletCount →
  bullets !! i = Some b →
  (b_active b = true →
   UpdateBullets bullets bulletCount deltaTime !! i
   = Some (mkBullet (next_position b) (b_direction b) (b_speed b)
             (b_radius b) (b_color b)
             (negb (Vector3Length (next_position b) >? f50_0)%f32)
             (b_fromPlayer b)))
  ∧ (b_active b = false →
     UpdateBullets bullets bulletCount deltaTime !! i = Some b)
  ∧ (∀ deltaTime',
       UpdateBullets bullets bulletCount deltaTime'
       = UpdateBullets bullets bulletCount deltaTime).
Proof.
  intros Hinv Hb. split; [|split].
  - intros Hactive. rewrite UpdateBullets_lookup.
    destruct (decide (i < bulletCount)%nat) as [_|Hge].
    + rewrite Hb. simpl. f_equal. unfold advance_bullet. rewrite Hactive.
      destruct b as [pos dir speed radius color active fromPlayer].
      simpl in Hactive. subst active.
      unfold next_position, set_b_position, set_b_active. simpl.
      now destruct (F32.gtb _ _).
    + pose proof (proj1 (pool_inv_spec _ _) Hinv i b Hb) as Hoff.
      rewrite Hoff in Hactive by lia. discriminate.
  - intros Hinactive. rewrite UpdateBullets_lookup.
    destruct (decide (i < bulletCount)%nat); [|exact Hb].
    rewrite Hb. simpl. now rewrite advance_inactive.
  - reflexivity.
Qed.

(** A shot from the origin along X in the empty pool moves by 0.3 and
    stays active. *)
Lemma UpdateBullets_advances_witness :
  let origin := mkVector3 F32.zero F32.zero F32.zero in
  let along_x := mkVector3 f1_0 F32.zero F32.zero in
  let pool := ShootBullet Scene.empty_pool 0 origin along_x true in
  UpdateBullets pool.1 pool.2 (F32.lit 1 60) !! 0%nat
  = Some (mkBullet (mkVector3 BULLET_SPEED F32.zero F32.zero) along_x
            BULLET_SPEED BULLET_RADIUS YELLOW true true).
Proof.
  intros origin along_x pool.
  refine (eq_trans
            (proj1 (UpdateBullets_advances pool.1 pool.2 (F32.lit 1 60) 0%nat
                      (spawned origin along_x true) _ _) _) _).
  - vm_compute. reflexivity.
  - vm_compute. reflexivity.
  - reflexivity.
  - vm_compute. reflexivity.
Defined.

(** ** Exhaustion of the bullet counter *)

Lemma stray_bullet_expires :
  b_active
    (advance_bullet
       (spawned (mkVector3 f100_0 F32.zero F32.zero)
          (mkVector3 f1_0 F32.zero F32.zero) true)) = false.
Proof. vm_compute. reflexivity. Qed.

(** A stray shot uses up one unit of the counter and leaves no bullet
    active. *)
Lemma stray_shot_step (bullets : list Bullet) (bulletCount : nat) :
  length bullets = MAX_BULLETS →
  all_inactive bullets →
  (bulletCount < MAX_BULLETS)%nat →
  (stray_shot (bullets, bulletCount)).2 = S bulletCount
  ∧ length (stray_shot (bullets, bulletCount)).1 = MAX_BULLETS
  ∧ all_inactive (stray_shot (bullets, bulletCount)).1.
Proof.
  intros Hlen Hall Hroom. unfold stray_shot. simpl fst. simpl snd.
  destruct bullets as [|b0 bullets]; [discriminate|].
  pose proof (proj1 (all_inactive_spec _) Hall) as Hall'.
  pose proof (Hall' 0%nat b0 eq_refl) as Hb0.
  rewrite (ShootBullet_free_slot _ _ _ _ _ 0%nat); [|exact Hroom|].
  2:{ change (take MAX_BULLETS (b0 :: bullets))
        with (b0 :: take (pred MAX_BULLETS) bullets).
      simpl. now rewrite Hb0. }
  simpl fst. simpl snd. split; [reflexivity|]. split.
  - rewrite UpdateBullets_length. exact Hlen.
  - apply all_inactive_spec. intros i b. rewrite UpdateBullets_lookup.
    destruct i as [|i]; simpl.
    + destruct (decide (0 < S bulletCount)%nat); [|lia].
      simpl. intros Hb. apply Some_inj in Hb. rewrite <- Hb.
      apply stray_bullet_expires.
    + intros Hi.
      assert (bullets !! i = Some b → b_active b = false) as Hold
        by (intros H; exact (Hall' (Datatypes.S i) b H)).
      destruct (decide (S i < S bulletCount)%nat).
      * destruct (bullets !! i) as [b'|] eqn:Hb'; [|discriminate].
        simpl in Hi. injection Hi as <-.
        apply advance_stays_inactive, (Hall' (Datatypes.S i) b' Hb').
      * now apply Hold.
Qed.

Lemma stray_shots (k : nat) :
  (k ≤ MAX_BULLETS)%nat →
  (Nat.iter k stray_shot (Scene.empty_pool, 0%nat)).2 = k
  ∧ length (Nat.iter k stray_shot (Scene.empty_pool, 0%nat)).1 = MAX_BULLETS
  ∧ all_inactive (Nat.iter k stray_shot (Scene.empty_pool, 0%nat)).1.
Proof.
  induction k as [|k IH]; intros Hk.
  - split; [reflexivity|]. split; [apply length_replicate|].
    vm_compute. reflexivity.
  - destruct IH as (Hc & Hl & Ha); [lia|].
    simpl Nat.iter.
    destruct (Nat.iter k stray_shot (Scene.empty_pool, 0%nat)) as [bs n].
    simpl in Hc, Hl, Ha. subst n.
    apply stray_shot_step; [assumption..|lia].
Qed.

(** C2: after [MAX_BULLETS] shots that have all expired, no bullet is
    active and the first slot is free, yet [ShootBullet] returns without
    firing: its guard reads the counter, which counts every shot ever
    placed and is never decreased. *)
Theorem ShootBullet_counter_exhausted :
  let pool := Nat.iter MAX_BULLETS stray_shot (Scene.empty_pool, 0%nat) in
  active_count pool.1 = 0%nat
  ∧ pool.2 = MAX_BULLETS
  ∧ first_inactive (take MAX_BULLETS pool.1) 0 = Some 0%nat
  ∧ ∀ position direction fromPlayer,
      ShootBullet pool.1 pool.2 position direction fromPlayer = pool.
Proof.
  intros pool.
  destruct (stray_shots MAX_BULLETS (Nat.le_refl _)) as (Hc & Hl & Ha).
  fold pool in Hc, Hl, Ha. clearbody pool.
  split; [|split; [|split]].
  - now apply all_inactive_count.
  - exact Hc.
  - rewrite take_ge by lia.
    destruct (pool.1) as [|b0 bs] eqn:Hp; [discriminate|].
    pose proof (proj1 (all_inactive_spec _) Ha 0%nat b0 eq_refl) as Hb0.
    simpl. now rewrite Hb0.
  - intros position direction fromPlayer.
    rewrite ShootBullet_full by lia. now destruct pool.
Qed.

(** ** Hit timers *)

Lemma player_hit_timer_spec (deltaTime : float) (player : Player) :
  let after := player_hit_timer deltaTime player in
  (p_isHit player = true →
   p_hitTimer after = (p_hitTimer player - deltaTime)%f32
   ∧ p_isHit after = negb (p_hitTimer after <=? F32.zero)%f32)
  ∧ (p_isHit player = false → after = player)
  ∧ after = set_p_isHit (p_isHit after)
              (set_p_hitTimer (p_hitTimer after) player).
Proof.
  unfold player_hit_timer. destruct player. simpl.
  destruct p_isHit0; simpl.
  - destruct (F32.leb _ _) eqn:E; simpl; rewrite ?E;
      (split; [auto|]; split; [discriminate | reflexivity]).
  - split; [discriminate|]. split; reflexivity.
Qed.

Lemma enemy_hit_timer_spec (deltaTime : float) (enemy : Enemy) :
  let after := enemy_hit_timer deltaTime enemy in
  (e_isHit enemy = true →
   e_hitTimer after = (e_hitTimer enemy - deltaTime)%f32
   ∧ e_isHit after = negb (e_hitTimer after <=? F32.zero)%f32)
  ∧ (e_isHit enemy = false → after = enemy)
  ∧ after = set_e_isHit (e_isHit after)
              (set_e_hitTimer (e_hitTimer after) enemy).
Proof.
  unfold enemy_hit_timer. destruct enemy. simpl.
  destruct e_isHit0; simpl.
  - destruct (F32.leb _ _) eqn:E; simpl; rewrite ?E;
      (split; [auto|]; split; [discriminate | reflexivity]).
  - split; [discriminate|]. split; reflexivity.
Qed.

(** C8 (as stated) fails in its last part: the timer is not brought to
    exactly 0 before [isHit] clears.  With [hitTimer = 0.5] and a frame of
    0.75 the flag clears with the timer at -0.25; and an enemy hit for 0.2
    at 60 frames per second still has a positive timer after 12 frames and
    a negative one, with the flag cleared, after 13. *)
Lemma hit_timer_skips_zero :
  let player :=
    set_p_hitTimer f0_5 (set_p_isHit true (Scene.player_at f1_0 f0_5 f1_0)) in
  let after := player_hit_timer (F32.lit 3 4) player in
  let enemy :=
    set_e_hitTimer f0_2
      (set_e_isHit true (Scene.enemy_at f1_0 f0_5 f1_0 F32.zero)) in
  let frames n := Nat.iter n (enemy_hit_timer (F32.lit 1 60)) enemy in
  (p_isHit after = false
   ∧ p_hitTimer after = F32.neg (F32.lit 1 4)
   ∧ (p_hitTimer after =? F32.zero)%f32 = false)
  ∧ (e_isHit (frames 12%nat) = true
     ∧ (e_hitTimer (frames 12%nat) >? F32.zero)%f32 = true
     ∧ e_isHit (frames 13%nat) = false
     ∧ (e_hitTimer (frames 13%nat) <? F32.zero)%f32 = true).
Proof. vm_compute. repeat split; reflexivity. Qed.

(** C8 (amended): for an actor with [isHit] set, the decay replaces
    [hitTimer] by [hitTimer - dt] and clears [isHit] exactly when the new
    value is [<= 0]; the timer keeps that value, which may be negative.
    An actor with [isHit] clear is untouched, and no other field changes.
    After the decay, [isHit] set means the timer is not [<= 0], and is
    positive unless it is NaN. *)
Theorem hit_timer_decay (deltaTime : float) (player : Player)
    (enemy : Enemy) :
  let p' := player_hit_timer deltaTime player in
  let e' := enemy_hit_timer deltaTime enemy in
  ((p_isHit player = true →
    p_hitTimer p' = (p_hitTimer player - deltaTime)%f32
    ∧ p_isHit p' = negb (p_hitTimer p' <=? F32.zero)%f32)
   ∧ (p_isHit player = false → p' = player)
   ∧ p' = set_p_isHit (p_isHit p') (set_p_hitTimer (p_hitTimer p') player)
   ∧ (p_isHit p' = true →
      (p_hitTimer p' <=? F32.zero)%f32 = false
      ∧ (F32.is_nan (p_hitTimer p') = false →
         (p_hitTimer p' >? F32.zero)%f32 = true)))
  ∧ ((e_isHit enemy = true →
      e_hitTimer e' = (e_hitTimer enemy - deltaTime)%f32
      ∧ e_isHit e' = negb (e_hitTimer e' <=? F32.zero)%f32)
     ∧ (e_isHit enemy = false → e' = enemy)
     ∧ e' = set_e_isHit (e_isHit e') (set_e_hitTimer (e_hitTimer e') enemy)
     ∧ (e_isHit e' = true →
        (e_hitTimer e' <=? F32.zero)%f32 = false
        ∧ (F32.is_nan (e_hitTimer e') = false →
           (e_hitTimer e' >? F32.zero)%f32 = true))).
Proof.
  intros p' e'.
  destruct (player_hit_timer_spec deltaTime player) as (P1 & P2 & P3).
  destruct (enemy_hit_timer_spec deltaTime enemy) as (E1 & E2 & E3).
  fold p' in P1, P2, P3. fold e' in E1, E2, E3.
  split; (split; [assumption|]; split; [assumption|]; split; [assumption|]).
  - intros Hhit.
    assert ((p_hitTimer p' <=? F32.zero)%f32 = false) as Hle.
    { destruct (p_isHit player) eqn:Hp.
      - destruct (P1 eq_refl) as [_ Hflag]. rewrite Hflag in Hhit.
        now apply negb_true_iff in Hhit.
      - rewrite (P2 eq_refl) in Hhit. congruence. }
    split; [exact Hle|]. intros Hnan.
    now apply F32Facts.not_leb_ltb.
  - intros Hhit.
    assert ((e_hitTimer e' <=? F32.zero)%f32 = false) as Hle.
    { destruct (e_isHit enemy) eqn:He.
      - destruct (E1 eq_refl) as [_ Hflag]. rewrite Hflag in Hhit.
        now apply negb_true_iff in Hhit.
      - rewrite (E2 eq_refl) in Hhit. congruence. }
    split; [exact Hle|]. intros Hnan.
    now apply F32Facts.not_leb_ltb.
Qed.

(** A player hit for 0.5 is still hit, with 0.25 left, after a frame of
    0.25. *)
Lemma hit_timer_decay_witness :
  let player :=
    set_p_hitTimer f0_5 (set_p_isHit true (Scene.player_at f1_0 f0_5 f1_0)) in
  p_hitTimer (player_hit_timer (F32.lit 1 4) player)
  = (p_hitTimer player - F32.lit 1 4)%f32
  ∧ p_isHit (player_hit_timer (F32.lit 1 4) player)
    = negb (p_hitTimer (player_hit_timer (F32.lit 1 4) player)
            <=? F32.zero)%f32.
Proof.
  intros player.
  apply (proj1 (proj1 (hit_timer_decay (F32.lit 1 4) player
                         (Scene.enemy_at f1_0 f0_5 f1_0 F32.zero)))).
  vm_compute. reflexivity.
Defined.

(** ** Jumping and vertical physics *)

(** C6 (as stated) fails at the jump itself: the physics of the same
    frame already applies gravity, so the frame in which a grounded player
    at rest jumps ends with [velocity.y = jumpForce - gravity] (0.2 - 0.01)
    and the player already risen by that amount, not with
    [velocity.y = jumpForce]. *)
Lemma jump_frame_applies_gravity :
  let start :=
    mkGame (Scene.player_at f1_0 f0_5 f1_0) [] 0 Scene.empty_pool 0
      GAME_PLAYING true F32.zero 0 in
  let input :=
    mkInput (F32.lit 1 60) false false false false false false false false
      false true false Scene.no_ray in
  let after :=
    player (Frame Scene.model Scene.mapPosition Scene.cubicmap Scene.rand
              input start) in
  p_isGrounded (player start) = true
  ∧ vy (p_velocity (player start)) = F32.zero
  ∧ vy (p_velocity after) = (F32.lit 2 10 - F32.lit 1 100)%f32
  ∧ (vy (p_velocity after) =? p_jumpForce (player start))%f32 = false
  ∧ vy (p_position after) = (f0_5 + (F32.lit 2 10 - F32.lit 1 100))%f32
  ∧ p_isGrounded after = false.
Proof. vm_compute. repeat split; reflexivity. Qed.

Section Vertical.

Variable model : Model.
Variable mapPosition : Vector3.
Variable cubicmap : Texture2D.

Lemma apply_gravity_airborne (player : Player) :
  p_isGrounded player = false →
  apply_gravity player
  = set_p_velocity
      (set_vy (vy (p_velocity player) - p_gravity player)%f32
         (p_velocity player)) player.
Proof. intros H. unfold apply_gravity. now rewrite H. Qed.

Lemma resolve_ground_below (player : Player) :
  (vy (p_position player) <? f0_5)%f32 = true →
  resolve_ground model mapPosition cubicmap player
  = set_p_isGrounded true
      (set_p_velocity (set_vy F32.zero (p_velocity player))
         (set_p_position (set_vy f0_5 (p_position player)) player)).
Proof. intros H. unfold resolve_ground. now rewrite H. Qed.

Lemma resolve_ground_rising (player : Player) :
  (vy (p_position player) <? f0_5)%f32 = false →
  (vy (p_velocity player) <? F32.zero)%f32 = false →
  resolve_ground model mapPosition cubicmap player
  = set_p_isGrounded false player.
Proof.
  intros Hy Hv. unfold resolve_ground. rewrite Hy. cbv zeta.
  change (p_velocity (set_p_isGrounded false player))
    with (p_velocity player).
  rewrite Hv. reflexivity.
Qed.

Lemma player_jump_grounded (input : Input) (player : Player) :
  pressed_SPACE input = true → p_isGrounded player = true →
  player_jump input player
  = set_p_isGrounded false
      (set_p_velocity (set_vy (p_jumpForce player) (p_velocity player))
         player).
Proof. intros Hs Hg. unfold player_jump. now rewrite Hs, Hg. Qed.

End Vertical.

(** C6 (amended): a jump of a grounded player sets [velocity.y] to the
    jump force and clears [isGrounded]; the physics that follows in the
    same frame is gravity, then velocity, then the ground check.  For an
    airborne player gravity lowers [velocity.y] by [gravity]; then
    [position.y] grows by [velocity.y]; and if [position.y] is then below
    0.5 it becomes 0.5 with [velocity.y = 0] and [isGrounded] set.  So the
    frame of the jump ends, when the player stays above 0.5 and still
    rises, with [velocity.y = jumpForce - gravity], [position.y] raised by
    that and [isGrounded] clear. *)
Theorem player_vertical_physics (model : Model) (mapPosition : Vector3)
    (cubicmap : Texture2D) (input : Input) (deltaTime : float)
    (player : Player) :
  let physics := UpdatePlayerPhysics model mapPosition cubicmap in
  (pressed_SPACE input = true → p_isGrounded player = true →
   vy (p_velocity (player_jump input player)) = p_jumpForce player
   ∧ p_isGrounded (player_jump input player) = false)
  ∧ physics player deltaTime
    = resolve_ground model mapPosition cubicmap
        (apply_velocity (apply_gravity player))
  ∧ (p_isGrounded player = false →
     vy (p_velocity (apply_gravity player))
     = (vy (p_velocity player) - p_gravity player)%f32)
  ∧ vy (p_position (apply_velocity player))
    = (vy (p_position player) + vy (p_velocity player))%f32
  ∧ ((vy (p_position player) <? f0_5)%f32 = true →
     let landed := resolve_ground model mapPosition cubicmap player in
     vy (p_position landed) = f0_5
     ∧ vy (p_velocity landed) = F32.zero
     ∧ p_isGrounded landed = true)
  ∧ (pressed_SPACE input = true → p_isGrounded player = true →
     let v := (p_jumpForce player - p_gravity player)%f32 in
     let y := (vy (p_position player) + v)%f32 in
     (y <? f0_5)%f32 = false → (v <? F32.zero)%f32 = false →
     let after := physics (player_jump input player) deltaTime in
     vy (p_velocity after) = v
     ∧ vy (p_position after) = y
     ∧ p_isGrounded after = false).
Proof.
  intros physics. split; [|split; [|split; [|split; [|split]]]].
  - intros Hs Hg. now rewrite player_jump_grounded.
  - reflexivity.
  - intros Hg. now rewrite apply_gravity_airborne.
  - reflexivity.
  - intros Hy landed. subst landed.
    now rewrite resolve_ground_below.
  - intros Hs Hg v y Hy Hv after. subst after physics.
    unfold UpdatePlayerPhysics.
    rewrite player_jump_grounded by assumption.
    rewrite apply_gravity_airborne by reflexivity.
    rewrite resolve_ground_rising; [now split | exact Hy | exact Hv].
Qed.

(** The jump of the scene's player. *)
Lemma player_vertical_physics_witness :
  let player := Scene.player_at f1_0 f0_5 f1_0 in
  let input :=
    mkInput (F32.lit 1 60) false false false false false false false false
      false true false Scene.no_ray in
  let after :=
    UpdatePlayerPhysics Scene.model Scene.mapPosition Scene.cubicmap
      (player_jump input player) (F32.lit 1 60) in
  vy (p_velocity after) = (p_jumpForce player - p_gravity player)%f32
  ∧ vy (p_position after)
    = (vy (p_position player) + (p_jumpForce player - p_gravity player))%f32
  ∧ p_isGrounded after = false.
Proof.
  intros player input after.
  apply (proj2 (proj2 (proj2 (proj2 (proj2
           (player_vertical_physics Scene.model Scene.mapPosition
              Scene.cubicmap input (F32.lit 1 60) player))))));
    vm_compute; reflexivity.
Defined.

(** ** Bullet collisions *)

Lemma damage_player_in_window (player : Player) :
  p_isHit player = true → damage_player player = player.
Proof. intros H. unfold damage_player. now rewrite H. Qed.

Lemma damage_enemy_in_window (enemy : Enemy) :
  e_isHit enemy = true → damage_enemy enemy = enemy.
Proof. intros H. unfold damage_enemy. now rewrite H. Qed.

Lemma touches_unfold (bullet : Bullet) (box : BoundingBox) :
  touches bullet box
  = CheckCollisionSphereBox (b_position bullet) (b_radius bullet) box.
Proof. reflexivity. Qed.

Lemma strikes_unfold (bullet : Bullet) (enemy : Enemy) :
  strikes bullet enemy
  = e_active enemy
    && CheckCollisionSphereBox (b_position bullet) (b_radius bullet)
         (GetEnemyBoundingBox enemy).
Proof. reflexivity. Qed.

(** The scan over the enemies [start, start + len): it rewrites the first
    enemy struck, and only that one. *)
Lemma enemy_scan_seq (bullet : Bullet) (len start : nat)
    (enemies : list Enemy) :
  (enemy_scan bullet (seq start len) enemies = (false, enemies)
   ∧ ∀ k e, (start ≤ k < start + len)%nat → enemies !! k = Some e →
            strikes bullet e = false)
  ∨ ∃ j e, (start ≤ j < start + len)%nat
           ∧ enemies !! j = Some e
           ∧ strikes bullet e = true
           ∧ (∀ k e', (start ≤ k < j)%nat → enemies !! k = Some e' →
                      strikes bullet e' = false)
           ∧ enemy_scan bullet (seq start len) enemies
             = (true, <[j := damage_enemy e]> enemies).
Proof.
  revert start. induction len as [|len IH]; intros start; simpl.
  - left. split; [reflexivity|]. intros k e Hk. lia.
  - destruct (enemies !! start) as [e0|] eqn:He0.
    + rewrite <- (strikes_unfold bullet e0).
      destruct (strikes bullet e0) eqn:Hs.
      * right. exists start, e0. repeat split; try assumption; lia.
      * destruct (IH (S start)) as [[Heq Hnone] | (j & e & Hj & He & Hse & Hfirst & Heq)].
        -- left. split; [exact Heq|]. intros k e Hk Hke.
           destruct (decide (k = start)) as [->|Hne].
           ++ congruence.
           ++ apply (Hnone k e); [lia | exact Hke].
        -- right. exists j, e. repeat split; try assumption; try lia.
           intros k e' Hk Hke. destruct (decide (k = start)) as [->|Hne].
           ++ congruence.
           ++ apply (Hfirst k e'); [lia | exact Hke].
    + destruct (IH (S start)) as [[Heq Hnone] | (j & e & Hj & He & Hse & Hfirst & Heq)].
      * left. split; [exact Heq|]. intros k e Hk Hke.
        destruct (decide (k = start)) as [->|Hne].
        -- congruence.
        -- apply (Hnone k e); [lia | exact Hke].
      * right. exists j, e. repeat split; try assumption; try lia.
        intros k e' Hk Hke. destruct (decide (k = start)) as [->|Hne].
        -- congruence.
        -- apply (Hfirst k e'); [lia | exact Hke].
Qed.

Section Collisions.

Variable model : Model.
Variable mapPosition : Vector3.
Variable cubicmap : Texture2D.

Let hits_map := CheckCollisionBulletWithMap model mapPosition cubicmap.
Let check := check_bullet model mapPosition cubicmap.

(** The four ways the body of the loop can end for an active bullet. *)
Lemma check_bullet_cases (enemyCount : nat) (bullet : Bullet)
    (player : Player) (enemies : list Enemy) :
  (hits_map bullet = true
   ∧ check enemyCount bullet player enemies
     = (set_b_active false bullet, player, enemies))
  ∨ (hits_map bullet = false ∧ b_fromPlayer bullet = false
     ∧ touches bullet (GetPlayerBoundingBox player) = true
     ∧ check enemyCount bullet player enemies
       = (set_b_active false bullet, damage_player player, enemies))
  ∨ (hits_map bullet = false
     ∧ (if b_fromPlayer bullet
        then ∀ k e, (k < enemyCount)%nat → enemies !! k = Some e →
                    strikes bullet e = false
        else touches bullet (GetPlayerBoundingBox player) = false)
     ∧ check enemyCount bullet player enemies = (bullet, player, enemies))
  ∨ (hits_map bullet = false ∧ b_fromPlayer bullet = true
     ∧ ∃ j e, (j < enemyCount)%nat
              ∧ enemies !! j = Some e
              ∧ strikes bullet e = true
              ∧ (∀ k e', (k < j)%nat → enemies !! k = Some e' →
                         strikes bullet e' = false)
              ∧ check enemyCount bullet player enemies
                = (set_b_active false bullet, player,
                   <[j := damage_enemy e]> enemies)).
Proof.
  subst hits_map check. unfold check_bullet.
  destruct (CheckCollisionBulletWithMap _ _ _ bullet) eqn:Hmap.
  { left. now split. }
  right. rewrite <- (touches_unfold bullet (GetPlayerBoundingBox player)).
  destruct (b_fromPlayer bullet) eqn:Hfrom; simpl.
  - destruct (enemy_scan_seq bullet enemyCount 0 enemies)
      as [[Heq Hnone] | (j & e & Hj & He & Hse & Hfirst & Heq)];
      rewrite Heq.
    + right. left. split; [reflexivity|]. split; [|reflexivity].
      intros k e Hk. apply Hnone. lia.
    + right. right. split; [reflexivity|]. split; [reflexivity|].
      exists j, e. repeat split; try assumption; try lia.
      intros k e' Hk. apply Hfirst. lia.
  - destruct (touches bullet (GetPlayerBoundingBox player)) eqn:Ht.
    + left. now repeat split.
    + right. left. now repeat split.
Qed.

End Collisions.

Section HitWindow.

Variable model : Model.
Variable mapPosition : Vector3.
Variable cubicmap : Texture2D.



End HitWindow.



(** ** Enemy behaviour *)


Section EnemyAI.

Variable model : Model.
Variable mapPosition : Vector3.
Variable cubicmap : Texture2D.
Variable rand : nat → Z.

Let update := UpdateEnemy model mapPosition cubicmap rand.

(** Iteration [i] of [UpdateEnemies] works on the enemy the array held
    at [i] before the loop; earlier iterations only change the bullets,
    the counter and the number of [rand()] calls it starts from. *)
Lemma UpdateEnemies_lookup (player : Player) (deltaTime : float)
    (enemies : list Enemy) (shots : Shots) (n i : nat) :
  let result :=
    for_range n
      (enemies_body model mapPosition cubicmap rand player deltaTime)
      (enemies, shots) in
  length result.1 = length enemies
  ∧ ((n ≤ i)%nat → result.1 !! i = enemies !! i)
  ∧ ((i < n)%nat → ∀ enemy, enemies !! i = Some enemy →
     if e_active enemy
     then ∃ before, result.1 !! i
                    = Some (update player deltaTime enemy before).1
     else result.1 !! i = Some enemy).
Proof.
  induction n as [|n IH]; simpl.
  - split; [reflexivity|]. split; [reflexivity|]. lia.
  - rewrite for_range_S.
    destruct (for_range n _ _) as [es sh]. simpl in IH.
    destruct IH as (Hlen & Hge & Hlt). unfold enemies_body.
    destruct (es !! n) as [e|] eqn:He.
    + destruct (e_active e) eqn:Hact.
      * destruct (UpdateEnemy _ _ _ _ _ _ e sh) as [e' sh'] eqn:Hup.
        simpl. split; [now rewrite length_insert|]. split.
        -- intros Hle. rewrite list_lookup_insert_ne by lia.
           apply Hge. lia.
        -- intros Hi enemy Henemy.
           destruct (decide (i = n)) as [->|Hne].
           ++ rewrite Hge in He by lia. rewrite Henemy in He.
              injection He as ->. rewrite Hact.
              exists sh. subst update. rewrite Hup. simpl.
              apply list_lookup_insert_eq. rewrite Hlen.
              now apply lookup_lt_Some in Henemy.
           ++ rewrite list_lookup_insert_ne by congruence.
              apply Hlt; [lia | exact Henemy].
      * simpl. split; [exact Hlen|]. split.
        -- intros Hle. apply Hge. lia.
        -- intros Hi enemy Henemy.
           destruct (decide (i = n)) as [->|Hne].
           ++ rewrite Hge in He by lia. rewrite Henemy in He.
              injection He as ->. rewrite Hact.
              rewrite Hge by lia. exact Henemy.
           ++ apply Hlt; [lia | exact Henemy].
    + simpl. split; [exact Hlen|]. split.
      * intros Hle. apply Hge. lia.
      * intros Hi enemy Henemy.
        destruct (decide (i = n)) as [->|Hne].
        -- rewrite Hge in He by lia. congruence.
        -- apply Hlt; [lia | exact Henemy].
Qed.

End EnemyAI.

Section EnemyStep.

Variable model : Model.
Variable mapPosition : Vector3.
Variable cubicmap : Texture2D.
Variable rand : nat → Z.

Lemma enemy_hit_timer_keeps (deltaTime : float) (enemy : Enemy) :
  let after := enemy_hit_timer deltaTime enemy in
  e_position after = e_position enemy
  ∧ e_speed after = e_speed enemy
  ∧ e_shootTimer after = e_shootTimer enemy
  ∧ e_shootCooldown after = e_shootCooldown enemy.
Proof.
  intros after. subst after.
  destruct (enemy_hit_timer_spec deltaTime enemy) as (_ & _ & H).
  rewrite H. now repeat split.
Qed.

Lemma enemy_move_keeps (direction : Vector3) (enemy : Enemy) :
  let after := enemy_move model mapPosition cubicmap direction enemy in
  e_shootTimer after = e_shootTimer enemy
  ∧ e_shootCooldown after = e_shootCooldown enemy.
Proof.
  intros after. subst after. rewrite enemy_move_axis_by_axis.
  now split.
Qed.

(** The body of the loop, for an active enemy. *)
Lemma UpdateEnemy_spec (player : Player) (deltaTime : float)
    (enemy : Enemy) (bullets : list Bullet) (bulletCount calls : nat) :
  let distance := enemy_distance player enemy in
  let timer := (e_shootTimer enemy - deltaTime)%f32 in
  let result :=
    UpdateEnemy model mapPosition cubicmap rand player deltaTime enemy
      (bullets, bulletCount, calls) in
  ((distance <=? f3_0)%f32 = true →
   e_position result.1 = e_position enemy)
  ∧ (if (timer <=? F32.zero)%f32 && (distance <? f10_0)%f32
     then
       e_shootTimer result.1
       = (e_shootCooldown enemy
          + F32.of_int (GetRandomValue (rand calls) (-50) 50) / f100_0)%f32
       ∧ result.2
         = (ShootBullet bullets bulletCount
              (raise_half (e_position result.1))
              (Vector3Normalize
                 (Vector3Subtract (raise_half (p_position player))
                    (raise_half (e_position result.1))))
              false,
            S calls)
     else e_shootTimer result.1 = timer
          ∧ result.2 = (bullets, bulletCount, calls)).
Proof.
  intros distance timer result. subst result. unfold UpdateEnemy.
  destruct (enemy_hit_timer_keeps deltaTime enemy)
    as (Hpos & Hspeed & Htimer & Hcool).
  set (e1 := enemy_hit_timer deltaTime enemy) in *.
  rewrite Hpos.
  change (Vector3Length
            (Vector3Subtract (p_position player) (e_position enemy)))
    with distance.
  set (direction :=
         if (distance >? F32.zero)%f32
         then Vector3Scale
                (Vector3Normalize
                   (Vector3Subtract (p_position player) (e_position enemy)))
                (e_speed e1)
         else Vector3Subtract (p_position player) (e_position enemy)).
  set (e2 := if (distance >? f3_0)%f32
             then enemy_move model mapPosition cubicmap direction e1
             else e1).
  assert (e_shootTimer e2 = e_shootTimer enemy
          ∧ e_shootCooldown e2 = e_shootCooldown enemy) as [Ht2 Hc2].
  { subst e2. destruct (distance >? f3_0)%f32; [|now split].
    destruct (enemy_move_keeps direction e1) as [-> ->]. now split. }
  change (e_shootTimer (set_e_shootTimer ?t ?e)) with t.
  rewrite Ht2. fold timer.
  split.
  - intros Hnear. apply F32Facts.leb_not_gtb in Hnear.
    assert (e2 = e1) as -> by (subst e2; now rewrite Hnear).
    destruct ((timer <=? F32.zero)%f32 && (distance <? f10_0)%f32).
    + destruct (ShootBullet _ _ _ _ _). exact Hpos.
    + exact Hpos.
  - destruct ((timer <=? F32.zero)%f32 && (distance <? f10_0)%f32).
    + change (e_position (set_e_shootTimer timer e2))
        with (e_position e2).
      destruct (ShootBullet _ _ _ _ _) as [bs bc] eqn:Hshoot.
      simpl. rewrite Hc2. split; [reflexivity|].
      now rewrite Hshoot.
    + now split.
Qed.

End EnemyStep.

(** ** Directions of the bullets *)

(** C3 (as stated) fails for the bullets of the enemies, and for unit
    length.  An enemy at height 0.5 that shoots at a player in the air at
    height 1.5 spawns an active bullet whose direction points upwards; an
    enemy standing on the player's position spawns one whose direction is
    the zero vector, of length 0; and so does the player when the mouse
    ray meets his plane exactly above him. *)
Lemma bullet_not_horizontal_unit :
  let shoot shooter enemy :=
    (UpdateEnemy Scene.model Scene.mapPosition Scene.cubicmap Scene.rand
       shooter (F32.lit 1 60) enemy (Scene.empty_pool, 0%nat, 0%nat)).2.1.1
    !! 0%nat in
  let click :=
    mkInput (F32.lit 1 60) false false false false false false false false
      false false true
      (mkRay (mkVector3 f1_0 (F32.lit 37 2) f1_0)
         (mkVector3 F32.zero (F32.of_int (-1)) F32.zero)) in
  (∃ b, shoot (Scene.player_at f1_0 (F32.lit 3 2) f1_0)
              (Scene.enemy_at (F32.of_int 4) f0_5 f1_0 F32.zero) = Some b
        ∧ b_active b = true ∧ b_fromPlayer b = false
        ∧ (vy (b_direction b) >? F32.zero)%f32 = true
        ∧ flat (b_direction b) = false)
  ∧ (∃ b, shoot (Scene.player_at f1_0 f0_5 f1_0)
                (Scene.enemy_at f1_0 f0_5 f1_0 F32.zero) = Some b
          ∧ b_active b = true ∧ b_fromPlayer b = false
          ∧ Vector3Length (b_direction b) = F32.zero
          ∧ (Vector3Length (b_direction b) =? f1_0)%f32 = false)
  ∧ (∃ b, (player_shoot click (F32.lit 1 60)
             (Scene.player_at f1_0 f0_5 f1_0)
             (Scene.empty_pool, 0%nat, true, F32.zero)).1.1.1 !! 0%nat
          = Some b
          ∧ b_active b = true ∧ b_fromPlayer b = true
          ∧ Vector3Length (b_direction b) = F32.zero
          ∧ (Vector3Length (b_direction b) =? f1_0)%f32 = false).
Proof.
  split; [|split]; eexists; (split; [vm_compute; reflexivity|]);
    vm_compute; repeat split; reflexivity.
Qed.

Lemma Vector3Normalize_flat (v : Vector3) :
  F32.is_zero (vy v) = true → flat (Vector3Normalize v) = true.
Proof.
  intros Hz. unfold flat, Vector3Normalize.
  destruct (F32.neqb _ _); simpl.
  - destruct (vy v) as [s| | |]; try discriminate.
    apply orb_true_iff, F32Facts.mul_zero_l.
  - now rewrite Hz.
Qed.

(** The aim of the player is flat. *)
Lemma player_aim_flat (ray : Ray) (player : Player) :
  flat (player_aim ray player) = true.
Proof. unfold player_aim. now apply Vector3Normalize_flat. Qed.

Section Horizontal.

Variable model : Model.
Variable mapPosition : Vector3.
Variable cubicmap : Texture2D.
Variable rand : nat → Z.

Lemma ShootBullet_horizontal (bullets : list Bullet) (bulletCount : nat)
    (position direction : Vector3) (fromPlayer : bool) :
  (fromPlayer = true → flat direction = true) →
  Forall horizontal_shot bullets →
  Forall horizontal_shot
    (ShootBullet bullets bulletCount position direction fromPlayer).1.
Proof.
  intros Hdir Hall. unfold ShootBullet.
  destruct (MAX_BULLETS <=? bulletCount)%nat; [exact Hall|].
  destruct (first_inactive _ _); simpl;
    (apply Forall_insert; [exact Hall|]); intros _ Hfrom; simpl in *;
    auto.
Qed.

Lemma advance_bullet_horizontal (b : Bullet) :
  horizontal_shot b → horizontal_shot (advance_bullet b).
Proof.
  unfold horizontal_shot, advance_bullet.
  destruct b as [pos dir speed radius color [] fromPlayer]; simpl;
    [|auto].
  destruct (F32.gtb _ _); simpl; auto.
Qed.

Lemma UpdateBullets_horizontal (bullets : list Bullet) (bulletCount : nat)
    (deltaTime : float) :
  Forall horizontal_shot bullets →
  Forall horizontal_shot (UpdateBullets bullets bulletCount deltaTime).
Proof.
  intros Hall. unfold UpdateBullets.
  induction bulletCount as [|n IH]; [exact Hall|].
  rewrite for_range_S. apply Forall_alter; [exact IH|].
  intros b _. apply advance_bullet_horizontal.
Qed.

Lemma UpdateEnemy_horizontal (player : Player) (deltaTime : float)
    (enemy : Enemy) (shots : Shots) :
  Forall horizontal_shot shots.1.1 →
  Forall horizontal_shot
    (UpdateEnemy model mapPosition cubicmap rand player deltaTime enemy
       shots).2.1.1.
Proof.
  destruct shots as [[bullets bulletCount] calls]. intros Hall.
  simpl in Hall.
  destruct (UpdateEnemy_spec model mapPosition cubicmap rand player
              deltaTime enemy bullets bulletCount calls) as [_ Hshoot].
  destruct (_ && _).
  - destruct Hshoot as [_ ->]. simpl.
    apply ShootBullet_horizontal; [discriminate | exact Hall].
  - destruct Hshoot as [_ ->]. exact Hall.
Qed.

Lemma UpdateEnemies_horizontal (enemies : list Enemy) (enemyCount : nat)
    (player : Player) (shots : Shots) (deltaTime : float) :
  Forall horizontal_shot shots.1.1 →
  Forall horizontal_shot
    (UpdateEnemies model mapPosition cubicmap rand enemies enemyCount
       player shots deltaTime).2.1.1.
Proof.
  intros Hall. unfold UpdateEnemies.
  induction enemyCount as [|n IH]; [exact Hall|].
  rewrite for_range_S. destruct (for_range n _ _) as [es sh].
  simpl in IH. unfold enemies_body.
  destruct (es !! n) as [e|]; [|exact IH].
  destruct (e_active e); [|exact IH].
  pose proof (UpdateEnemy_horizontal player deltaTime e sh IH) as Hstep.
  now destruct (UpdateEnemy _ _ _ _ _ _ e sh).
Qed.

Lemma check_bullet_horizontal (enemyCount : nat) (bullet : Bullet)
    (player : Player) (enemies : list Enemy) :
  horizontal_shot bullet →
  horizontal_shot
    (check_bullet model mapPosition cubicmap enemyCount bullet player
       enemies).1.1.
Proof.
  intros Hb.
  destruct (check_bullet_cases model mapPosition cubicmap enemyCount bullet
              player enemies)
    as [[_ ->] | [(_ & _ & _ & ->) | [(_ & _ & ->)
        | (_ & _ & j0 & e0 & _ & _ & _ & _ & ->)]]]; simpl;
    try exact Hb; intros Hactive; discriminate.
Qed.

Lemma CheckBulletCollisions_horizontal (bullets : list Bullet)
    (bulletCount : nat) (player : Player) (enemies : list Enemy)
    (enemyCount : nat) :
  Forall horizontal_shot bullets →
  Forall horizontal_shot
    (CheckBulletCollisions model mapPosition cubicmap bullets bulletCount
       player enemies enemyCount).1.1.
Proof.
  intros Hall. unfold CheckBulletCollisions.
  induction bulletCount as [|n IH]; [exact Hall|].
  rewrite for_range_S. destruct (for_range n _ _) as [[bs p] es].
  simpl in IH. unfold collisions_body.
  destruct (bs !! n) as [b|] eqn:Hb; [|exact IH].
  destruct (b_active b); [|exact IH].
  pose proof (check_bullet_horizontal enemyCount b p es
                (proj1 (Forall_lookup _ _) IH n b Hb)) as Hstep.
  destruct (check_bullet _ _ _ _ _ _ _) as [[b' p'] es']. simpl in *.
  now apply Forall_insert.
Qed.

Lemma player_shoot_horizontal (input : Input) (deltaTime : float)
    (player : Player) (st : list Bullet * nat * bool * float) :
  Forall horizontal_shot st.1.1.1 →
  Forall horizontal_shot (player_shoot input deltaTime player st).1.1.1.
Proof.
  destruct st as [[[bs bc] cs] t]. simpl. intros Hall.
  unfold player_shoot.
  destruct (if negb cs then _ else _) as [cs' t'].
  destruct (pressed_MOUSE_LEFT input && cs'); [|exact Hall].
  pose proof (ShootBullet_horizontal bs bc
                (raise_half (p_position player))
                (player_aim (mouseRay input) player) true
                (λ _, player_aim_flat _ _) Hall) as Hshot.
  now destruct (ShootBullet _ _ _ _ _).
Qed.

(** A frame keeps the shots of the player horizontal. *)
Lemma Frame_horizontal (input : Input) (g : Game) :
  Forall horizontal_shot (bullets g) →
  Forall horizontal_shot
    (bullets (Frame model mapPosition cubicmap rand input g)).
Proof.
  intros Hall. unfold Frame.
  destruct (if pressed_P input then _ else _); [|exact Hall].
  pose proof (player_shoot_horizontal input (frameTime input)
                (player_jump input
                   (player_move model mapPosition cubicmap input
                      (player_hit_timer (frameTime input) (player g))))
                (bullets g, bulletCount g, canShoot g, shootTimer g) Hall)
    as Hshoot.
  destruct (player_shoot _ _ _ _) as [[[bs bc] cs] t]. simpl in Hshoot.
  match goal with
  | |- context [UpdateEnemies ?m ?mp ?c ?r ?es ?n ?p ?sh ?dt] =>
      pose proof (UpdateEnemies_horizontal es n p sh dt Hshoot) as Henemies;
      destruct (UpdateEnemies m mp c r es n p sh dt) as [es' [[bs' bc'] calls']]
  end.
  simpl in Henemies.
  pose proof (UpdateBullets_horizontal bs' bc' (frameTime input) Henemies)
    as Hadvance.
  match goal with
  | |- context [CheckBulletCollisions ?m ?mp ?c ?b ?n ?p ?es ?k] =>
      pose proof (CheckBulletCollisions_horizontal b n p es k Hadvance)
        as Hcheck;
      destruct (CheckBulletCollisions m mp c b n p es k) as [[bs'' p''] es'']
  end.
  exact Hcheck.
Qed.

End Horizontal.

Lemma inactive_horizontal (pool : list Bullet) :
  all_inactive pool → Forall horizontal_shot pool.
Proof.
  intros Hall. apply Forall_lookup. intros i b Hb Hactive.
  rewrite (proj1 (all_inactive_spec _) Hall i b Hb) in Hactive.
  discriminate.
Qed.

(** A shot that is not refused puts the bullet, with the direction as
    given, into a slot of the array. *)
Lemma ShootBullet_spawns (pool : list Bullet) (bulletCount : nat)
    (position direction : Vector3) (fromPlayer : bool) :
  length pool = MAX_BULLETS → (bulletCount < MAX_BULLETS)%nat →
  ∃ i, (ShootBullet pool bulletCount position direction fromPlayer).1 !! i
       = Some (spawned position direction fromPlayer).
Proof.
  intros Hlen Hroom.
  destruct (first_inactive (take MAX_BULLETS pool) 0) as [i|] eqn:Hfirst.
  - rewrite (ShootBullet_free_slot _ _ _ _ _ i) by assumption.
    exists i. simpl. apply list_lookup_insert_eq.
    apply first_inactive_Some in Hfirst as (_ & (b & Hb & _) & _).
    rewrite Nat.sub_0_r in Hb. apply lookup_lt_Some in Hb.
    rewrite length_take in Hb. lia.
  - rewrite ShootBullet_recycle by assumption.
    exists (Nat.modulo bulletCount MAX_BULLETS). cbn [fst].
    apply list_lookup_insert_eq. rewrite Hlen.
    apply Nat.mod_upper_bound. discriminate.
Qed.

(** C3 (amended): every shot of the player is aimed with the vertical
    component set to zero before the last normalisation, so the direction
    of an active player bullet has a zero vertical component (NaN if the
    aim had no finite value), in the frame it is fired and in every later
    frame.  The shots of the enemies are not flattened: an enemy fires
    along [Vector3Normalize] of the 3-D vector from half a unit above
    itself to half a unit above the player.  A spawned bullet stores the
    direction it is given, and the advance and the collision pass leave it
    alone.  [Vector3Normalize] returns a vector of length zero as it is,
    so a direction need not be of unit length. *)
Theorem bullet_directions (model : Model) (mapPosition : Vector3)
    (cubicmap : Texture2D) (rand : nat → Z) (input : Input) (g : Game)
    (ray : Ray) (shooter : Player) (deltaTime : float) (enemy : Enemy)
    (foes : list Enemy) (foeCount : nat)
    (pool : list Bullet) (count calls : nat)
    (position direction : Vector3) (fromPlayer : bool) :
  flat (player_aim ray shooter) = true
  ∧ (Forall horizontal_shot (bullets g) →
     Forall horizontal_shot
       (bullets (Frame model mapPosition cubicmap rand input g)))
  ∧ (all_inactive pool → Forall horizontal_shot pool)
  ∧ (let step :=
       UpdateEnemy model mapPosition cubicmap rand shooter deltaTime enemy
         (pool, count, calls) in
     ((e_shootTimer enemy - deltaTime <=? F32.zero)%f32
      && (enemy_distance shooter enemy <? f10_0)%f32 = true →
      step.2
      = (ShootBullet pool count (raise_half (e_position step.1))
           (Vector3Normalize
              (Vector3Subtract (raise_half (p_position shooter))
                 (raise_half (e_position step.1))))
           false,
         S calls)))
  ∧ (length pool = MAX_BULLETS → (count < MAX_BULLETS)%nat →
     ∃ i, (ShootBullet pool count position direction fromPlayer).1 !! i
          = Some (spawned position direction fromPlayer))
  ∧ (∀ b, b_direction (advance_bullet b) = b_direction b)
  ∧ (∀ b, b_direction
            (check_bullet model mapPosition cubicmap foeCount b shooter
               foes).1.1
          = b_direction b)
  ∧ (∀ v, (Vector3Length v =? F32.zero)%f32 = true →
          Vector3Normalize v = v).
Proof.
  split; [apply player_aim_flat|].
  split; [apply Frame_horizontal|].
  split; [apply inactive_horizontal|].
  split; [|split; [apply ShootBullet_spawns|split; [|split]]].
  - intros step Hcond. subst step.
    destruct (UpdateEnemy_spec model mapPosition cubicmap rand shooter
                deltaTime enemy pool count calls) as [_ Hshoot].
    rewrite Hcond in Hshoot. apply Hshoot.
  - intros b. unfold advance_bullet.
    destruct (b_active b); [|reflexivity]. simpl.
    now destruct (F32.gtb _ _).
  - intros b.
    destruct (check_bullet_cases model mapPosition cubicmap foeCount b
                shooter foes)
      as [[_ ->] | [(_ & _ & _ & ->) | [(_ & _ & ->)
          | (_ & _ & j0 & e0 & _ & _ & _ & _ & ->)]]]; reflexivity.
  - intros v Hzero. unfold Vector3Normalize, F32.neqb.
    now rewrite Hzero.
Qed.

(** The player of the scene shoots along a vertical mouse ray that meets
    his plane ten units further along Z: the frame leaves a pool of
    horizontal shots whose first bullet flies along [(0, 0, 1)]. *)
Lemma bullet_directions_witness :
  let start :=
    mkGame (Scene.player_at f1_0 f0_5 f1_0) [] 0 Scene.empty_pool 0
      GAME_PLAYING true F32.zero 0 in
  let ray :=
    mkRay (mkVector3 f1_0 (F32.lit 37 2) (F32.of_int 11))
      (mkVector3 F32.zero (F32.of_int (-1)) F32.zero) in
  let input :=
    mkInput (F32.lit 1 60) false false false false false false false false
      false false true ray in
  let after :=
    Frame Scene.model Scene.mapPosition Scene.cubicmap Scene.rand input
      start in
  Forall horizontal_shot (bullets after)
  ∧ b_direction <$> bullets after !! 0%nat
    = Some (mkVector3 F32.zero F32.zero f1_0).
Proof.
  intros start ray input after. split.
  - apply (proj1 (proj2 (bullet_directions Scene.model Scene.mapPosition
                           Scene.cubicmap Scene.rand input start ray
                           (player start) (F32.lit 1 60)
                           (Scene.enemy_at f1_0 f0_5 f1_0 F32.zero) [] 0
                           Scene.empty_pool 0 0 Scene.mapPosition
                           Scene.mapPosition true))).
    apply inactive_horizontal. vm_compute. reflexivity.
  - vm_compute. reflexivity.
Defined.

(** ** The bullet array from frame to frame *)

Section PoolFrames.

Variable model : Model.
Variable mapPosition : Vector3.
Variable cubicmap : Texture2D.
Variable rand : nat → Z.

Lemma ShootBullet_pool_ok (pool : list Bullet) (count : nat)
    (position direction : Vector3) (fromPlayer : bool) :
  pool_ok pool count →
  pool_ok (ShootBullet pool count position direction fromPlayer).1
    (ShootBullet pool count position direction fromPlayer).2.
Proof.
  intros [Hlen Hinv]. split.
  - now rewrite ShootBullet_length.
  - now apply ShootBullet_pool_inv.
Qed.

Lemma UpdateEnemy_pool_ok (shooter : Player) (deltaTime : float)
    (enemy : Enemy) (shots : Shots) :
  pool_ok shots.1.1 shots.1.2 →
  let after :=
    (UpdateEnemy model mapPosition cubicmap rand shooter deltaTime enemy
       shots).2 in
  pool_ok after.1.1 after.1.2.
Proof.
  destruct shots as [[pool count] calls]. intros Hok after. subst after.
  simpl in Hok.
  destruct (UpdateEnemy_spec model mapPosition cubicmap rand shooter
              deltaTime enemy pool count calls) as [_ Hshoot].
  destruct (_ && _).
  - destruct Hshoot as [_ ->]. cbn [fst snd].
    now apply ShootBullet_pool_ok.
  - destruct Hshoot as [_ ->]. exact Hok.
Qed.

Lemma UpdateEnemies_pool_ok (foes : list Enemy) (foeCount : nat)
    (shooter : Player) (shots : Shots) (deltaTime : float) :
  pool_ok shots.1.1 shots.1.2 →
  let after :=
    (UpdateEnemies model mapPosition cubicmap rand foes foeCount shooter
       shots deltaTime).2 in
  pool_ok after.1.1 after.1.2.
Proof.
  intros Hok after. subst after. unfold UpdateEnemies.
  induction foeCount as [|n IH]; [exact Hok|].
  rewrite for_range_S. destruct (for_range n _ _) as [es sh].
  simpl in IH. unfold enemies_body.
  destruct (es !! n) as [e|]; [|exact IH].
  destruct (e_active e); [|exact IH].
  pose proof (UpdateEnemy_pool_ok shooter deltaTime e sh IH) as Hstep.
  now destruct (UpdateEnemy _ _ _ _ _ _ e sh).
Qed.

Lemma UpdateBullets_pool_ok (pool : list Bullet) (count : nat)
    (deltaTime : float) :
  pool_ok pool count → pool_ok (UpdateBullets pool count deltaTime) count.
Proof.
  intros [Hlen Hinv]. split.
  - now rewrite UpdateBullets_length.
  - now apply UpdateBullets_pool_inv.
Qed.

(** Writing back a bullet that is the old one or the old one switched
    off keeps the array in order. *)
Lemma insert_pool_ok (pool : list Bullet) (count i : nat) (b b' : Bullet) :
  pool !! i = Some b → (b_active b' = true → b_active b = true) →
  pool_ok pool count → pool_ok (<[i := b']> pool) count.
Proof.
  intros Hb Hoff [Hlen Hinv]. split; [now rewrite length_insert|].
  apply pool_inv_spec. intros j bj Hj Hle.
  pose proof (proj1 (pool_inv_spec _ _) Hinv) as Hold.
  destruct (decide (j = i)) as [->|Hne].
  - rewrite list_lookup_insert_eq in Hj by (eapply lookup_lt_Some; eauto).
    injection Hj as <-. specialize (Hold i b Hb Hle).
    destruct (b_active b') eqn:E; [|reflexivity].
    rewrite (Hoff eq_refl) in Hold. discriminate.
  - rewrite list_lookup_insert_ne in Hj by congruence.
    exact (Hold j bj Hj Hle).
Qed.

Lemma CheckBulletCollisions_pool_ok (pool : list Bullet) (count : nat)
    (target : Player) (foes : list Enemy) (foeCount : nat) :
  pool_ok pool count →
  pool_ok
    (CheckBulletCollisions model mapPosition cubicmap pool count target foes
       foeCount).1.1 count.
Proof.
  intros Hok. unfold CheckBulletCollisions.
  generalize count at 1. intros n.
  induction n as [|n IH]; [exact Hok|].
  rewrite for_range_S. destruct (for_range n _ _) as [[bs p] es].
  simpl in IH. unfold collisions_body.
  destruct (bs !! n) as [b|] eqn:Hb; [|exact IH].
  destruct (b_active b) eqn:Hactive; [|exact IH].
  destruct (check_bullet_cases model mapPosition cubicmap foeCount b p es)
    as [[_ Heq] | [(_ & _ & _ & Heq) | [(_ & _ & Heq)
        | (_ & _ & j0 & e0 & _ & _ & _ & _ & Heq)]]];
    rewrite Heq; cbn [fst snd];
    apply (insert_pool_ok bs count n b); auto; discriminate.
Qed.

Lemma player_shoot_pool_ok (input : Input) (deltaTime : float)
    (shooter : Player) (st : list Bullet * nat * bool * float) :
  pool_ok st.1.1.1 st.1.1.2 →
  let after := player_shoot input deltaTime shooter st in
  pool_ok after.1.1.1 after.1.1.2.
Proof.
  destruct st as [[[bs bc] cs] t]. intros Hok after. subst after.
  simpl in Hok. unfold player_shoot.
  destruct (if negb cs then _ else _) as [cs' t'].
  destruct (pressed_MOUSE_LEFT input && cs'); [|exact Hok].
  pose proof (ShootBullet_pool_ok bs bc (raise_half (p_position shooter))
                (player_aim (mouseRay input) shooter) true Hok) as Hshot.
  now destruct (ShootBullet _ _ _ _ _).
Qed.

(** Every frame hands the bullet array on in order: all slots present,
    active bullets below the counter. *)
Lemma Frame_pool_ok (input : Input) (g : Game) :
  pool_ok (bullets g) (bulletCount g) →
  pool_ok (bullets (Frame model mapPosition cubicmap rand input g))
    (bulletCount (Frame model mapPosition cubicmap rand input g)).
Proof.
  intros Hok. unfold Frame.
  destruct (if pressed_P input then _ else _); [|exact Hok].
  pose proof (player_shoot_pool_ok input (frameTime input)
                (player_jump input
                   (player_move model mapPosition cubicmap input
                      (player_hit_timer (frameTime input) (player g))))
                (bullets g, bulletCount g, canShoot g, shootTimer g) Hok)
    as Hshoot.
  destruct (player_shoot _ _ _ _) as [[[bs bc] cs] t]. simpl in Hshoot.
  match goal with
  | |- context [UpdateEnemies ?m ?mp ?c ?r ?es ?n ?p ?sh ?dt] =>
      pose proof (UpdateEnemies_pool_ok es n p sh dt Hshoot) as Henemies;
      destruct (UpdateEnemies m mp c r es n p sh dt)
        as [es' [[bs' bc'] calls']]
  end.
  simpl in Henemies.
  pose proof (UpdateBullets_pool_ok bs' bc' (frameTime input) Henemies)
    as Hadvance.
  match goal with
  | |- context [CheckBulletCollisions ?m ?mp ?c ?b ?n ?p ?es ?k] =>
      pose proof (CheckBulletCollisions_pool_ok b n p es k Hadvance)
        as Hcheck;
      destruct (CheckBulletCollisions m mp c b n p es k) as [[bs'' p''] es'']
  end.
  exact Hcheck.
Qed.

End PoolFrames.

(** The array [main] starts with is in order. *)
Lemma empty_pool_ok : pool_ok Scene.empty_pool 0.
Proof. split; [apply length_replicate | vm_compute; reflexivity]. Qed.

(** * Further properties of the code *)

(** ** More on single-precision comparisons *)

(** [a <= b] and [b < c] give [a < c]. *)
Lemma leb_ltb_trans (a b c : float) :
  F32.leb a b = true → F32.ltb b c = true → F32.ltb a c = true.
Proof.
  unfold F32.leb, F32.ltb, SFleb, SFltb.
  destruct a as [sa|sa| |sa ma ea], b as [sb|sb| |sb mb eb],
    c as [sc|sc| |sc mc ec];
    simpl; try discriminate; try reflexivity;
    repeat match goal with s : bool |- _ => destruct s end;
    simpl; try discriminate; try reflexivity;
    change (Pcompare ?x ?y Eq) with (Pos.compare x y);
    repeat match goal with
           | |- context [Z.compare ?x ?y] => destruct (Z.compare_spec x y)
           | |- context [Pos.compare ?x ?y] => destruct (Pos.compare_spec x y)
           end;
    simpl; try discriminate; try reflexivity; lia.
Qed.

Lemma eqb_finite_same (sa sb : bool) (ma mb : positive) (ea eb : Z) :
  F32.eqb (S754_finite sa ma ea) (S754_finite sb mb eb) = true →
  sa = sb ∧ ea = eb ∧ ma = mb.
Proof.
  unfold F32.eqb, SFeqb. simpl.
  change (Pcompare ma mb Eq) with (Pos.compare ma mb).
  destruct sa, sb; try discriminate;
    destruct (Z.compare_spec ea eb); try discriminate;
    destruct (Pos.compare_spec ma mb); try discriminate; auto.
Qed.

(** Equal finite numbers have a zero difference. *)
Lemma sub_eq_zero (a b : float) :
  F32.eqb a b = true → is_finite b = true →
  F32.is_zero (F32.sub a b) = true.
Proof.
  intros H Hf.
  destruct b as [sb|sb| |sb mb eb]; try discriminate;
    destruct a as [sa|sa| |sa ma ea];
    try (destruct sa; discriminate); try (destruct sb; discriminate);
    try discriminate.
  - destruct sa, sb; reflexivity.
  - apply eqb_finite_same in H as (-> & -> & ->).
    unfold F32.sub, SFsub. rewrite Z.min_id.
    unfold shl_align. rewrite Z.sub_diag. simpl.
    destruct sb; simpl; rewrite ?Z.pos_sub_diag; reflexivity.
Qed.

Lemma square_of_zero (a : float) :
  F32.is_zero a = true → F32.powf2 a = F32.zero.
Proof. destruct a as [[]| | |]; try discriminate; reflexivity. Qed.

(** ** A sphere whose centre lies in the box *)

(** X1: when the centre of the sphere has finite coordinates and lies
    inside the box or on its border, [CheckCollisionSphereBox] reports a
    collision exactly when the squared radius is positive; for a bullet,
    whose radius is 0.15, always. *)
Theorem sphere_centre_in_box (center : Vector3) (radius : float)
    (box : BoundingBox) :
  is_finite (vx center) = true → is_finite (vy center) = true →
  is_finite (vz center) = true →
  (vx (bmin box) <=? vx center)%f32 = true →
  (vx center <=? vx (bmax box))%f32 = true →
  (vy (bmin box) <=? vy center)%f32 = true →
  (vy center <=? vy (bmax box))%f32 = true →
  (vz (bmin box) <=? vz center)%f32 = true →
  (vz center <=? vz (bmax box))%f32 = true →
  CheckCollisionSphereBox center radius box
  = (F32.zero <? radius * radius)%f32
  ∧ CheckCollisionSphereBox center BULLET_RADIUS box = true.
Proof.
  intros Fx Fy Fz X1 X2 Y1 Y2 Z1 Z2.
  assert (∀ r, CheckCollisionSphereBox center r box
               = (F32.zero <? r * r)%f32) as Hall.
  { intros r. unfold CheckCollisionSphereBox. simpl.
    rewrite (square_of_zero _
               (sub_eq_zero _ _ (F32Facts.clamp_inside _ _ _ X1 X2) Fx)).
    rewrite (square_of_zero _
               (sub_eq_zero _ _ (F32Facts.clamp_inside _ _ _ Y1 Y2) Fy)).
    rewrite (square_of_zero _
               (sub_eq_zero _ _ (F32Facts.clamp_inside _ _ _ Z1 Z2) Fz)).
    reflexivity. }
  split; [apply Hall|]. rewrite Hall. vm_compute. reflexivity.
Qed.

(** A bullet in the middle of the unit cube. *)
Lemma sphere_centre_in_box_witness :
  CheckCollisionSphereBox (mkVector3 f0_5 f0_5 f0_5) BULLET_RADIUS
    (mkBoundingBox (mkVector3 F32.zero F32.zero F32.zero)
       (mkVector3 f1_0 f1_0 f1_0)) = true.
Proof.
  apply (proj2 (sphere_centre_in_box (mkVector3 f0_5 f0_5 f0_5) BULLET_RADIUS
                  (mkBoundingBox (mkVector3 F32.zero F32.zero F32.zero)
                     (mkVector3 f1_0 f1_0 f1_0))
                  eq_refl eq_refl eq_refl eq_refl eq_refl eq_refl eq_refl
                  eq_refl eq_refl)).
Defined.

(** ** Moves never end inside the map *)

Lemma axis_by_axis_stays_free (collides : Vector3 → bool)
    (position : Vector3) (dx dz : float) :
  collides position = false →
  collides (axis_by_axis collides position dx dz) = false
  ∧ vy (axis_by_axis collides position dx dz) = vy position.
Proof.
  intros Hfree. destruct position as [x y z].
  unfold axis_by_axis, set_vx, set_vz. simpl.
  destruct (collides (mkVector3 (x + dx)%f32 y z)) eqn:HX; simpl.
  - destruct (collides (mkVector3 x y (z + dz)%f32)) eqn:HZ; simpl;
      split; congruence.
  - destruct (collides (mkVector3 (x + dx)%f32 y (z + dz)%f32)) eqn:HZ;
      simpl; split; congruence.
Qed.

Lemma set_e_position_same (enemy : Enemy) :
  set_e_position (e_position enemy) enemy = enemy.
Proof. now destruct enemy. Qed.

(** X2: an enemy that is clear of the map before its move is clear of it
    after the move, whatever the step: each axis step that would collide
    is taken back to the exact previous coordinate.  The move changes
    nothing but the X and Z coordinates. *)
Theorem enemy_move_stays_free (model : Model) (mapPosition : Vector3)
    (cubicmap : Texture2D) (direction : Vector3) (enemy : Enemy) :
  enemy_blocked model mapPosition cubicmap enemy = false →
  let moved := enemy_move model mapPosition cubicmap direction enemy in
  enemy_blocked model mapPosition cubicmap moved = false
  ∧ vy (e_position moved) = vy (e_position enemy)
  ∧ moved = set_e_position (e_position moved) enemy.
Proof.
  intros Hfree moved. subst moved. unfold enemy_blocked in *.
  rewrite enemy_move_axis_by_axis.
  set (collides := λ position,
         CheckCollisionEnemyWithMap model mapPosition cubicmap
           (set_e_position position enemy)).
  destruct (axis_by_axis_stays_free collides (e_position enemy)
              (vx direction) (vz direction)) as [Hc Hy].
  { unfold collides. now rewrite set_e_position_same. }
  split; [exact Hc|]. split; [exact Hy|]. reflexivity.
Qed.

(** The enemy of the scene next to the wall cell, with a step into it. *)
Lemma enemy_move_stays_free_witness :
  let enemy := Scene.enemy_at f1_0 f0_5 f1_0 F32.zero in
  let direction := mkVector3 (F32.lit 1 4) F32.zero (F32.lit 1 4) in
  enemy_blocked Scene.model Scene.mapPosition Scene.cubicmap
    (enemy_move Scene.model Scene.mapPosition Scene.cubicmap direction enemy)
  = false.
Proof.
  intros enemy direction.
  apply (enemy_move_stays_free Scene.model Scene.mapPosition Scene.cubicmap
           direction enemy).
  vm_compute. reflexivity.
Defined.

Section PlayerMoves.

Variable model : Model.
Variable mapPosition : Vector3.
Variable cubicmap : Texture2D.

Lemma player_blocked_unfold (player : Player) :
  player_blocked model mapPosition cubicmap player
  = if negb (CheckCollisionBoxes (GetPlayerBoundingBox player)
               (MapBounds model mapPosition))
    then true
    else
      fst (foldl
             (player_cell mapPosition cubicmap player
                (GetPlayerBoundingBox player)
                (F32.to_int (vx (p_position player) - vx mapPosition)%f32)
                (F32.to_int (vz (p_position player) - vz mapPosition)%f32))
             (false, false) scan_order).
Proof.
  unfold player_blocked, CheckCollisionPlayerWithMap.
  generalize scan_order. intros cells.
  destruct (negb _); [reflexivity|].
  now destruct (foldl _ _ _).
Qed.

(** The collision flag of the player's query depends on the position and
    the size only. *)
Lemma player_blocked_geometry (a b : Player) :
  p_position a = p_position b → p_size a = p_size b →
  player_blocked model mapPosition cubicmap a
  = player_blocked model mapPosition cubicmap b.
Proof.
  intros Hp Hs. rewrite !player_blocked_unfold.
  unfold GetPlayerBoundingBox, player_cell. now rewrite Hp, Hs.
Qed.

Lemma player_keys_keeps (input : Input) (player : Player) :
  let moved := player_keys input player in
  vy (p_position moved) = vy (p_position player)
  ∧ p_size moved = p_size player
  ∧ p_health moved = p_health player
  ∧ p_velocity moved = p_velocity player
  ∧ p_isGrounded moved = p_isGrounded player
  ∧ p_isHit moved = p_isHit player
  ∧ p_hitTimer moved = p_hitTimer player.
Proof.
  unfold player_keys. destruct player as [[x y z] ? ? ? ? ? ? ? ? ? ? ?].
  simpl.
  destruct (down_RIGHT input || down_D input),
    (down_LEFT input || down_A input), (down_DOWN input || down_S input),
    (down_UP input || down_W input); simpl; now repeat split.
Qed.

Lemma query_keeps (player : Player) :
  let after :=
    snd (CheckCollisionPlayerWithMap model mapPosition cubicmap player) in
  p_position after = p_position player
  ∧ p_size after = p_size player
  ∧ p_health after = p_health player
  ∧ p_velocity after = p_velocity player
  ∧ p_isHit after = p_isHit player
  ∧ p_hitTimer after = p_hitTimer player.
Proof.
  intros after. subst after. rewrite query_player.
  destruct (query_grounds _ _ _ player); now repeat split.
Qed.

Lemma player_move_keeps (input : Input) (player : Player) :
  let moved := player_move model mapPosition cubicmap input player in
  vy (p_position moved) = vy (p_position player)
  ∧ p_size moved = p_size player
  ∧ p_health moved = p_health player
  ∧ p_velocity moved = p_velocity player
  ∧ p_isHit moved = p_isHit player
  ∧ p_hitTimer moved = p_hitTimer player.
Proof.
  intros moved. subst moved. unfold player_move.
  destruct (player_keys_keeps input player)
    as (Ky & Ks & Kh & Kv & _ & Ki & Kt).
  destruct (query_keeps (player_keys input player))
    as (Qp & Qs & Qh & Qv & Qi & Qt).
  destruct (CheckCollisionPlayerWithMap _ _ _ _) as [c p']. simpl in *.
  destruct c; simpl.
  - repeat split; congruence.
  - rewrite Qp. repeat split; congruence.
Qed.

End PlayerMoves.

(** X3: a player that is clear of the map before the horizontal movement
    of a frame is clear of it afterwards, whatever keys are held: a move
    that the query rejects is undone as a whole.  The movement leaves the
    height, the velocity, the health and the hit state alone. *)
Theorem player_move_stays_free (model : Model) (mapPosition : Vector3)
    (cubicmap : Texture2D) (input : Input) (player : Player) :
  player_blocked model mapPosition cubicmap player = false →
  let moved := player_move model mapPosition cubicmap input player in
  player_blocked model mapPosition cubicmap moved = false
  ∧ vy (p_position moved) = vy (p_position player)
  ∧ p_velocity moved = p_velocity player
  ∧ p_health moved = p_health player
  ∧ p_isHit moved = p_isHit player
  ∧ p_hitTimer moved = p_hitTimer player.
Proof.
  intros Hfree moved.
  destruct (player_move_keeps model mapPosition cubicmap input player)
    as (Hy & Hs & Hh & Hv & Hi & Ht).
  fold moved in Hy, Hs, Hh, Hv, Hi, Ht.
  split; [|now repeat split].
  subst moved. unfold player_move in *.
  destruct (player_keys_keeps input player) as (_ & Ks & _).
  destruct (query_keeps model mapPosition cubicmap (player_keys input player))
    as (Qp & Qs & _).
  pose proof (eq_refl : player_blocked model mapPosition cubicmap
                          (player_keys input player)
                        = fst (CheckCollisionPlayerWithMap model mapPosition
                                 cubicmap (player_keys input player)))
    as Hkeys.
  destruct (CheckCollisionPlayerWithMap _ _ _ _) as [c p']. simpl in *.
  destruct c.
  - rewrite <- Hfree. apply player_blocked_geometry; simpl; congruence.
  - rewrite <- Hkeys. apply player_blocked_geometry; congruence.
Qed.

(** The player of the scene next to the wall cell, holding RIGHT and
    DOWN. *)
Lemma player_move_stays_free_witness :
  let player := Scene.player_at f1_0 f0_5 f1_0 in
  let input :=
    mkInput (F32.lit 1 60) false true false false false true false false
      false false false Scene.no_ray in
  player_blocked Scene.model Scene.mapPosition Scene.cubicmap
    (player_move Scene.model Scene.mapPosition Scene.cubicmap input player)
  = false.
Proof.
  intros player input.
  apply (player_move_stays_free Scene.model Scene.mapPosition Scene.cubicmap
           input player).
  vm_compute. reflexivity.
Defined.

(** ** What the vertical physics touches, and the floor *)

Lemma same_but_vertical_refl (a : Player) : same_but_vertical a a.
Proof. unfold same_but_vertical. now repeat split. Qed.

Lemma same_but_vertical_trans (a b c : Player) :
  same_but_vertical a b → same_but_vertical b c → same_but_vertical a c.
Proof.
  unfold same_but_vertical. intros H1 H2.
  destruct H1 as (?&?&?&?&?&?&?&?&?&?&?&?&?).
  destruct H2 as (?&?&?&?&?&?&?&?&?&?&?&?&?).
  repeat split; congruence.
Qed.

Section PhysicsFrame.

Variable model : Model.
Variable mapPosition : Vector3.
Variable cubicmap : Texture2D.

Lemma apply_gravity_vertical (player : Player) :
  same_but_vertical (apply_gravity player) player.
Proof.
  unfold apply_gravity, same_but_vertical.
  destruct player as [? ? ? ? ? [? ? ?] [] ? ? ? ? ?]; simpl;
    try destruct (F32.ltb _ _); simpl; now repeat split.
Qed.

Lemma apply_velocity_vertical (player : Player) :
  same_but_vertical (apply_velocity player) player.
Proof.
  unfold apply_velocity, same_but_vertical.
  destruct player as [[? ? ?] ? ? ? ? ? ? ? ? ? ? ?]; simpl.
  now repeat split.
Qed.

Lemma query_vertical (player : Player) :
  same_but_vertical
    (snd (CheckCollisionPlayerWithMap model mapPosition cubicmap player))
    player.
Proof.
  rewrite query_player. destruct (query_grounds _ _ _ player);
    [|apply same_but_vertical_refl].
  unfold same_but_vertical. destruct player. simpl. now repeat split.
Qed.

(** The inner landing loop: nothing happens, or the player is put on top
    of a cell that passed the landing test. *)
Lemma landing_row_cases (playerBounds : BoundingBox) (cellX cellZ z : Z)
    (xs : list Z) (player : Player) :
  let result := landing_row mapPosition cubicmap playerBounds cellX cellZ z
                  xs player in
  result = player
  ∨ (∃ x, lands_on mapPosition playerBounds (cellX + x) (cellZ + z) = true
          ∧ vy (p_position result)
            = vy (bmax (CellBounds mapPosition (cellX + x) (cellZ + z))))
    ∧ vy (p_velocity result) = F32.zero
    ∧ p_isGrounded result = true
    ∧ same_but_vertical result player.
Proof.
  induction xs as [|x xs IH]; simpl.
  - now left.
  - destruct (SolidCell cubicmap (cellX + x) (cellZ + z)
              && lands_on mapPosition playerBounds (cellX + x) (cellZ + z))
      eqn:Hcell.
    + right. apply andb_true_iff in Hcell as [_ Hland].
      split; [exists x; split; [exact Hland | reflexivity]|].
      split; [reflexivity|]. split; [reflexivity|].
      unfold same_but_vertical. destruct player as [[? ? ?] ? ? ? ? [? ? ?]].
      simpl. now repeat split.
    + exact IH.
Qed.

Lemma landing_rows_cases (playerBounds : BoundingBox) (cellX cellZ : Z)
    (zs : list Z) (player : Player) :
  let result := landing_rows mapPosition cubicmap playerBounds cellX cellZ
                  zs player in
  result = player
  ∨ (∃ x z, lands_on mapPosition playerBounds (cellX + x) (cellZ + z) = true
            ∧ vy (p_position result)
              = vy (bmax (CellBounds mapPosition (cellX + x) (cellZ + z))))
    ∧ vy (p_velocity result) = F32.zero
    ∧ p_isGrounded result = true
    ∧ same_but_vertical result player.
Proof.
  cbv zeta. induction zs as [|z zs IH]; [now left|].
  cbn [landing_rows].
  - destruct (landing_row_cases playerBounds cellX cellZ z offsets player)
      as [Hsame | ((x & Hland & Hy) & Hv & Hg & Hs)].
    + rewrite Hsame. destruct (p_isGrounded player) eqn:Hg.
      * left. reflexivity.
      * exact IH.
    + rewrite Hg. cbv iota. right.
      split; [exists x, z; split; [exact Hland | exact Hy]|].
      split; [exact Hv|]. split; [exact Hg | exact Hs].
Qed.

Lemma set_p_isGrounded_vertical (g : bool) (player : Player) :
  same_but_vertical (set_p_isGrounded g player) player.
Proof. unfold same_but_vertical. destruct player. simpl. now repeat split. Qed.

Lemma resolve_ground_vertical (player : Player) :
  same_but_vertical (resolve_ground model mapPosition cubicmap player) player.
Proof.
  unfold resolve_ground.
  destruct (F32.ltb (vy (p_position player)) f0_5).
  - unfold same_but_vertical.
    destruct player as [[? ? ?] ? ? ? ? [? ? ?]]. simpl. now repeat split.
  - cbv zeta.
    destruct (F32.ltb (vy (p_velocity (set_p_isGrounded false player)))
                F32.zero);
      [|apply set_p_isGrounded_vertical].
    match goal with
    | |- same_but_vertical (landing_rows _ _ ?b ?cx ?cz ?zs ?p) _ =>
        destruct (landing_rows_cases b cx cz zs p)
          as [-> | (_ & _ & _ & Hs)]
    end.
    + eapply same_but_vertical_trans; [apply query_vertical|].
      apply set_p_isGrounded_vertical.
    + eapply same_but_vertical_trans; [exact Hs|].
      eapply same_but_vertical_trans; [apply query_vertical|].
      apply set_p_isGrounded_vertical.
Qed.

Lemma UpdatePlayerPhysics_vertical (player : Player) (deltaTime : float) :
  same_but_vertical
    (UpdatePlayerPhysics model mapPosition cubicmap player deltaTime) player.
Proof.
  unfold UpdatePlayerPhysics.
  eapply same_but_vertical_trans; [apply resolve_ground_vertical|].
  eapply same_but_vertical_trans; [apply apply_velocity_vertical|].
  apply apply_gravity_vertical.
Qed.

(** The ground check never leaves the player below 0.5. *)
Lemma resolve_ground_floor (player : Player) :
  (vy (p_position (resolve_ground model mapPosition cubicmap player))
   <? f0_5)%f32 = false.
Proof.
  unfold resolve_ground.
  destruct (F32.ltb (vy (p_position player)) f0_5) eqn:Hy.
  - destruct player as [[? ? ?] ? ? ? ? [? ? ?]]. reflexivity.
  - cbv zeta.
    destruct (F32.ltb (vy (p_velocity (set_p_isGrounded false player)))
                F32.zero); [|exact Hy].
    pose proof (query_position model mapPosition cubicmap
                  (set_p_isGrounded false player)) as Hq.
    set (q := snd (CheckCollisionPlayerWithMap model mapPosition cubicmap
                     (set_p_isGrounded false player))) in *.
    change (p_position (set_p_isGrounded false player))
      with (p_position player) in Hq.
    match goal with
    | |- context [landing_rows _ _ ?b ?cx ?cz ?zs ?p] =>
        destruct (landing_rows_cases b cx cz zs p)
          as [-> | ((x & z & Hland & ->) & _)]
    end.
    + now rewrite Hq.
    + unfold lands_on in Hland.
      apply andb_true_iff in Hland as [Hland _].
      apply andb_true_iff in Hland as [Hle _].
      change (vy (bmin (GetPlayerBoundingBox q))) with (vy (p_position q))
        in Hle.
      rewrite Hq in Hle.
      destruct (F32.ltb (vy (bmax (CellBounds mapPosition _ _))) f0_5)
        eqn:Hlow; [|reflexivity].
      rewrite (leb_ltb_trans _ _ _ Hle Hlow) in Hy. discriminate.
Qed.

End PhysicsFrame.

(** X4: [UpdatePlayerPhysics] changes nothing of the player but the
    height, the vertical velocity and the grounded flag: horizontal
    position and velocity, size, speed, health and hit state come out as
    they went in. *)
Theorem physics_is_vertical (model : Model) (mapPosition : Vector3)
    (cubicmap : Texture2D) (player : Player) (deltaTime : float) :
  same_but_vertical
    (UpdatePlayerPhysics model mapPosition cubicmap player deltaTime) player.
Proof.
  unfold UpdatePlayerPhysics.
  eapply same_but_vertical_trans; [apply resolve_ground_vertical|].
  eapply same_but_vertical_trans; [apply apply_velocity_vertical|].
  apply apply_gravity_vertical.
Qed.

(** X5: whatever the player's state and the map, [UpdatePlayerPhysics]
    never leaves the player's base below the ground level 0.5: below it
    the height is set to 0.5, and a cell the player lands on has its top
    at or above the height he fell to. *)
Theorem physics_keeps_above_floor (model : Model) (mapPosition : Vector3)
    (cubicmap : Texture2D) (player : Player) (deltaTime : float) :
  (vy (p_position
         (UpdatePlayerPhysics model mapPosition cubicmap player deltaTime))
   <? f0_5)%f32 = false.
Proof. unfold UpdatePlayerPhysics. cbv zeta. apply resolve_ground_floor. Qed.

(** ** [int] arithmetic *)

(** An operation whose exact result is an [int] is not changed by the
    reduction to 32 bits. *)
Lemma wrap_int_id (z : Z) : is_int z → wrap_int z = z.
Proof.
  unfold is_int, wrap_int, F32.INT_MIN, F32.INT_MAX. intros Hz.
  rewrite Z.mod_small by lia. lia.
Qed.

(** The reduction always leaves an [int]. *)
Lemma wrap_int_range (z : Z) : is_int (wrap_int z).
Proof.
  unfold is_int, wrap_int, F32.INT_MIN, F32.INT_MAX.
  pose proof (Z.mod_pos_bound (z - - 2 ^ 31) (2 ^ 32) ltac:(lia)). lia.
Qed.

(** ** One pass of [CheckBulletCollisions] *)

Lemma for_range_ind {S : Type} (P : S → Prop) (n : nat)
    (body : nat → S → S) (s : S) :
  P s → (∀ i s, (i < n)%nat → P s → P (body i s)) → P (for_range n body s).
Proof.
  intros H0 Hstep. induction n as [|n IH]; [exact H0|].
  rewrite for_range_S. apply Hstep; [lia|]. apply IH.
  intros i s' Hi. apply Hstep. lia.
Qed.

Lemma damage_player_struck (player p : Player) :
  player_struck player p → player_struck player (damage_player p).
Proof.
  intros [-> | [Hhit ->]].
  - destruct (p_isHit player) eqn:E.
    + left. now apply damage_player_in_window.
    + right. now split.
  - right. split; [exact Hhit|].
    apply damage_player_in_window. unfold damage_player.
    now rewrite Hhit.
Qed.

Lemma damage_enemy_struck (enemy e : Enemy) :
  enemy_struck enemy e → e_active e = true →
  enemy_struck enemy (damage_enemy e).
Proof.
  intros [-> | (Hact & Hhit & ->)] Hactive.
  - destruct (e_isHit enemy) eqn:E.
    + left. now apply damage_enemy_in_window.
    + right. now repeat split.
  - right. split; [exact Hact|]. split; [exact Hhit|].
    apply damage_enemy_in_window. unfold damage_enemy. rewrite Hhit. simpl.
    now destruct (_ <=? 0).
Qed.

Lemma Forall2_insert_r {A : Type} (P : A → A → Prop) (l k : list A)
    (i : nat) (x y : A) :
  Forall2 P l k → l !! i = Some x → P x y → Forall2 P l (<[i := y]> k).
Proof.
  intros Hall Hx Hxy. rewrite <- (list_insert_id l i x Hx).
  now apply Forall2_insert.
Qed.

Section Pass.

Variable model : Model.
Variable mapPosition : Vector3.
Variable cubicmap : Texture2D.

(** The state after [n] iterations of the loop, against the state the
    pass started from. *)
Lemma collisions_relation (enemyCount n : nat) (pool : list Bullet)
    (target : Player) (foes : list Enemy) :
  let s :=
    for_range n (collisions_body model mapPosition cubicmap enemyCount)
      (pool, target, foes) in
  Forall2 bullet_spent pool s.1.1
  ∧ player_struck target s.1.2
  ∧ Forall2 enemy_struck foes s.2
  ∧ (∀ i, (n ≤ i)%nat → s.1.1 !! i = pool !! i)
  ∧ ((∀ i b, (i < n)%nat → pool !! i = Some b → b_active b = true →
              b_fromPlayer b = true) → s.1.2 = target)
  ∧ ((∀ i b, (i < n)%nat → pool !! i = Some b → b_active b = true →
              b_fromPlayer b = false) → s.2 = foes).
Proof.
  induction n as [|n IH].
  - simpl. repeat split; auto.
    + apply Forall_Forall2_diag, Forall_forall. intros b _. now left.
    + now left.
    + apply Forall_Forall2_diag, Forall_forall. intros e _. now left.
  - cbv zeta in *. rewrite for_range_S.
    destruct (for_range n _ _) as [[bs p] es]. simpl in IH.
    destruct IH as (Hb & Hp & He & Hge & Hmine & Htheirs).
    unfold collisions_body.
    assert (bs !! n = pool !! n) as Hn by (apply Hge; lia).
    assert (∀ i, (S n ≤ i)%nat → bs !! i = pool !! i) as Hge'
      by (intros i Hi; apply Hge; lia).
    assert ((∀ i b, (i < S n)%nat → pool !! i = Some b →
                    b_active b = true → b_fromPlayer b = true) → p = target)
      as Hmine' by (intros H; apply Hmine; intros i b Hi; apply H; lia).
    assert ((∀ i b, (i < S n)%nat → pool !! i = Some b →
                    b_active b = true → b_fromPlayer b = false) → es = foes)
      as Htheirs' by (intros H; apply Htheirs; intros i b Hi; apply H; lia).
    destruct (bs !! n) as [b|] eqn:Hbn; [|simpl; now repeat split].
    destruct (b_active b) eqn:Hactive; [|simpl; now repeat split].
    symmetry in Hn.
    destruct (check_bullet_cases model mapPosition cubicmap enemyCount b p es)
      as [[_ Heq] | [(_ & Hfrom & _ & Heq) | [(_ & _ & Heq)
          | (_ & Hfrom & j0 & e0 & _ & He0 & Hs0 & _ & Heq)]]];
      rewrite Heq; cbn [fst snd].
    + split; [|split; [exact Hp|split; [exact He|split;
                [|split; assumption]]]].
      * apply (Forall2_insert_r _ _ _ _ b); auto. right. now split.
      * intros i Hi. rewrite list_lookup_insert_ne by lia. now apply Hge'.
    + split; [|split; [now apply damage_player_struck|split; [exact He|split;
                [|split]]]].
      * apply (Forall2_insert_r _ _ _ _ b); auto. right. now split.
      * intros i Hi. rewrite list_lookup_insert_ne by lia. now apply Hge'.
      * intros H. rewrite (H n b (Nat.lt_succ_diag_r n) Hn Hactive) in Hfrom.
        discriminate.
      * exact Htheirs'.
    + split; [|split; [exact Hp|split; [exact He|split;
                [|split; assumption]]]].
      * apply (Forall2_insert_r _ _ _ _ b); auto. now left.
      * intros i Hi. rewrite list_lookup_insert_ne by lia. now apply Hge'.
    + split; [|split; [exact Hp|split; [|split; [|split]]]].
      * apply (Forall2_insert_r _ _ _ _ b); auto. right. now split.
      * destruct (Forall2_lookup_r _ _ _ _ _ He He0) as (e & Hfoe & Hrel).
        apply (Forall2_insert_r _ _ _ _ e); auto.
        apply damage_enemy_struck; [exact Hrel|].
        unfold strikes in Hs0. now apply andb_true_iff in Hs0 as [? _].
      * intros i Hi. rewrite list_lookup_insert_ne by lia. now apply Hge'.
      * exact Hmine'.
      * intros H. rewrite (H n b (Nat.lt_succ_diag_r n) Hn Hactive) in Hfrom.
        discriminate.
Qed.

End Pass.

(** X6: in one pass of [CheckBulletCollisions] the player is damaged at
    most once, however many bullets touch him: his health stays, or 10 is
    taken from it once, as an [int] operation; so when [health - 10] is an
    [int] the health stays or drops by exactly 10.  It changes only if he
    was outside his hit window, which then opens for 0.5.  The pass never
    moves him. *)
Theorem pass_damages_player_once (model : Model) (mapPosition : Vector3)
    (cubicmap : Texture2D) (pool : list Bullet) (count : nat)
    (target : Player) (foes : list Enemy) (foeCount : nat) :
  let after :=
    (CheckBulletCollisions model mapPosition cubicmap pool count target foes
       foeCount).1.2 in
  (p_health after = p_health target
   ∨ p_health after = wrap_int (p_health target - 10))
  ∧ (is_int (p_health target - 10) →
     p_health after = p_health target
     ∨ p_health after = p_health target - 10)
  ∧ (p_health after ≠ p_health target →
     p_isHit target = false ∧ p_isHit after = true
     ∧ p_hitTimer after = f0_5)
  ∧ p_position after = p_position target
  ∧ p_velocity after = p_velocity target
  ∧ p_isGrounded after = p_isGrounded target.
Proof.
  intros after. subst after. unfold CheckBulletCollisions.
  destruct (collisions_relation model mapPosition cubicmap foeCount count
              pool target foes) as (_ & [-> | [Hhit ->]] & _).
  - split; [now left|]. split; [now left|]. split; [congruence|].
    now repeat split.
  - unfold damage_player. rewrite Hhit. destruct target.
    cbn [negb p_health p_isHit p_hitTimer p_position p_velocity p_isGrounded
         set_p_health set_p_isHit set_p_hitTimer] in *.
    split; [now right|]. split.
    + intros Hroom. right. now apply wrap_int_id.
    + now repeat split.
Qed.

(** An enemy bullet inside the player's box takes 10 of his 100 health. *)
Lemma pass_damages_player_once_witness :
  let after :=
    (CheckBulletCollisions Scene.model Scene.mapPosition Scene.cubicmap
       [Shots.at_player; Shots.at_player] 2 Shots.target [] 0).1.2 in
  (p_health after = p_health Shots.target
   ∨ p_health after = p_health Shots.target - 10)
  ∧ p_health after = 90.
Proof.
  intros after. split; [|vm_compute; reflexivity].
  apply (proj1 (proj2 (pass_damages_player_once Scene.model Scene.mapPosition
                         Scene.cubicmap [Shots.at_player; Shots.at_player] 2
                         Shots.target [] 0))).
  split; apply Z.leb_le; vm_compute; reflexivity.
Defined.

(** X7: in one pass of [CheckBulletCollisions] every enemy slot is left
    as it is or damaged once: the array keeps its length; an enemy's
    health stays, or 10 is taken from it once, as an [int] operation, so
    when [health - 10] is an [int] it stays or drops by exactly 10; only
    an active enemy outside its hit window is damaged, no enemy is moved
    or brought back to life, and an enemy that was active with health left
    is, after the pass, either still so or deactivated. *)
Theorem pass_damages_enemy_once (model : Model) (mapPosition : Vector3)
    (cubicmap : Texture2D) (pool : list Bullet) (count : nat)
    (target : Player) (foes : list Enemy) (foeCount : nat) (j : nat)
    (e : Enemy) :
  foes !! j = Some e →
  let after :=
    (CheckBulletCollisions model mapPosition cubicmap pool count target foes
       foeCount).2 in
  length after = length foes
  ∧ ∃ e', after !! j = Some e'
          ∧ enemy_struck e e'
          ∧ (e_health e' = e_health e
             ∨ e_health e' = wrap_int (e_health e - 10))
          ∧ (is_int (e_health e - 10) →
             e_health e' = e_health e ∨ e_health e' = e_health e - 10)
          ∧ (e_active e = false → e' = e)
          ∧ (e_isHit e = true → e' = e)
          ∧ (e_active e' = true → e_active e = true)
          ∧ e_position e' = e_position e
          ∧ (enemy_alive e → enemy_alive e').
Proof.
  intros He after. subst after. unfold CheckBulletCollisions.
  destruct (collisions_relation model mapPosition cubicmap foeCount count
              pool target foes) as (_ & _ & Hrel & _).
  split; [symmetry; eapply Forall2_length; exact Hrel|].
  destruct (Forall2_lookup_l _ _ _ _ _ Hrel He) as (e' & He' & Hstruck).
  exists e'. split; [exact He'|]. split; [exact Hstruck|].
  destruct Hstruck as [-> | (Hact & Hhit & ->)].
  - repeat split; auto.
  - unfold damage_enemy, enemy_alive. rewrite Hhit.
    destruct e as [? ? ? ? ? ? act h hit ?].
    cbn [negb e_health e_active e_isHit e_position set_e_health set_e_isHit
         set_e_hitTimer] in *.
    subst act hit.
    assert (is_int (h - 10) → wrap_int (h - 10) = h - 10) as Hroom
      by apply wrap_int_id.
    destruct (Z.leb_spec (wrap_int (h - 10)) 0);
      cbn [e_health e_active e_isHit e_position set_e_active];
      (split; [now right|]);
      (split; [intros Hint; right; now apply Hroom|]);
      repeat split; try discriminate; auto.
Qed.

(** A player bullet inside an enemy's box takes 10 of its 30 health. *)
Lemma pass_damages_enemy_once_witness :
  ∃ e',
    (CheckBulletCollisions Scene.model Scene.mapPosition Scene.cubicmap
       [Shots.at_enemy; Shots.at_enemy] 2 Shots.target [Shots.foe] 1).2
    !! 0%nat = Some e'
    ∧ enemy_struck Shots.foe e'
    ∧ (e_health e' = e_health Shots.foe
       ∨ e_health e' = e_health Shots.foe - 10)
    ∧ e_health e' = 20.
Proof.
  destruct (pass_damages_enemy_once Scene.model Scene.mapPosition
              Scene.cubicmap [Shots.at_enemy; Shots.at_enemy] 2 Shots.target
              [Shots.foe] 1 0 Shots.foe eq_refl)
    as (_ & e' & He' & Hstruck & _ & Hroom & _).
  exists e'. split; [exact He'|]. split; [exact Hstruck|]. split.
  - apply Hroom. split; apply Z.leb_le; vm_compute; reflexivity.
  - vm_compute in He'. injection He' as <-. reflexivity.
Defined.

(** X8: a pass of [CheckBulletCollisions] only switches bullets off: the
    array keeps its length, every slot keeps position, direction, speed,
    radius, colour and owner, no bullet becomes active, and slots at or
    beyond [bulletCount] and inactive slots are not touched. *)
Theorem pass_only_spends_bullets (model : Model) (mapPosition : Vector3)
    (cubicmap : Texture2D) (pool : list Bullet) (count : nat)
    (target : Player) (foes : list Enemy) (foeCount : nat) (i : nat)
    (b : Bullet) :
  pool !! i = Some b →
  let after :=
    (CheckBulletCollisions model mapPosition cubicmap pool count target foes
       foeCount).1.1 in
  length after = length pool
  ∧ ∃ b', after !! i = Some b'
          ∧ b' = set_b_active (b_active b') b
          ∧ (b_active b' = true → b_active b = true)
          ∧ (b_active b = false → b' = b)
          ∧ ((count ≤ i)%nat → b' = b).
Proof.
  intros Hb after. subst after. unfold CheckBulletCollisions.
  destruct (collisions_relation model mapPosition cubicmap foeCount count
              pool target foes) as (Hrel & _ & _ & Hge & _).
  split; [symmetry; eapply Forall2_length; exact Hrel|].
  destruct (Forall2_lookup_l _ _ _ _ _ Hrel Hb) as (b' & Hb' & Hspent).
  exists b'. split; [exact Hb'|].
  assert ((count ≤ i)%nat → b' = b) as Hbeyond.
  { intros Hi. rewrite (Hge i Hi), Hb in Hb'. congruence. }
  destruct Hspent as [-> | [Hact ->]].
  - repeat split; auto. now destruct b.
  - repeat split; auto; try discriminate. congruence.
Qed.

(** The second of two bullets, beyond a count of 1, is not touched. *)
Lemma pass_only_spends_bullets_witness :
  ∃ b',
    (CheckBulletCollisions Scene.model Scene.mapPosition Scene.cubicmap
       [Shots.at_player; Shots.at_player] 1 Shots.target [] 0).1.1
    !! 1%nat = Some b' ∧ b' = Shots.at_player.
Proof.
  destruct (pass_only_spends_bullets Scene.model Scene.mapPosition
              Scene.cubicmap [Shots.at_player; Shots.at_player] 1
              Shots.target [] 0 1 Shots.at_player eq_refl)
    as (_ & b' & Hb' & _ & _ & _ & Hbeyond).
  exists b'. split; [exact Hb'|]. apply Hbeyond. lia.
Defined.

(** X9: bullets hurt the other side only.  If every active bullet below
    [bulletCount] is the player's, the pass leaves the player exactly as
    he was; if every one is an enemy's, it leaves the enemies exactly as
    they were. *)
Theorem pass_spares_own_side (model : Model) (mapPosition : Vector3)
    (cubicmap : Texture2D) (pool : list Bullet) (count : nat)
    (target : Player) (foes : list Enemy) (foeCount : nat) :
  let after :=
    CheckBulletCollisions model mapPosition cubicmap pool count target foes
      foeCount in
  ((∀ i b, (i < count)%nat → pool !! i = Some b → b_active b = true →
           b_fromPlayer b = true) → after.1.2 = target)
  ∧ ((∀ i b, (i < count)%nat → pool !! i = Some b → b_active b = true →
             b_fromPlayer b = false) → after.2 = foes).
Proof.
  intros after. subst after. unfold CheckBulletCollisions.
  destruct (collisions_relation model mapPosition cubicmap foeCount count
              pool target foes) as (_ & _ & _ & _ & Hmine & Htheirs).
  split; [exact Hmine | exact Htheirs].
Qed.

(** A bullet of the player that sits in the player's own box does him
    nothing. *)
Lemma pass_spares_own_side_witness :
  let own := set_b_position (b_position Shots.at_player) Shots.at_enemy in
  (CheckBulletCollisions Scene.model Scene.mapPosition Scene.cubicmap
     [own] 1 Shots.target [Shots.foe] 1).1.2 = Shots.target.
Proof.
  intros own.
  apply (proj1 (pass_spares_own_side Scene.model Scene.mapPosition
                  Scene.cubicmap [own] 1 Shots.target [Shots.foe] 1)).
  intros [|i] b Hi Hb _; [|lia].
  injection Hb as <-. reflexivity.
Defined.

(** ** [ShootBullet] on an array in order *)

Lemma active_count_cons (b : Bullet) (pool : list Bullet) :
  active_count (b :: pool)
  = ((if b_active b then 1 else 0) + active_count pool)%nat.
Proof.
  unfold active_count. rewrite filter_cons.
  destruct (decide (b_active b = true)) as [->|Hoff]; [reflexivity|].
  now destruct (b_active b).
Qed.

Lemma active_count_insert (pool : list Bullet) (i : nat) (b b' : Bullet) :
  pool !! i = Some b → b_active b = false → b_active b' = true →
  active_count (<[i := b']> pool) = S (active_count pool).
Proof.
  revert i. induction pool as [|b0 pool IH]; intros i Hb Hoff Hon.
  - discriminate.
  - destruct i as [|i]; simpl in *.
    + injection Hb as ->. rewrite !active_count_cons, Hoff, Hon. reflexivity.
    + rewrite !active_count_cons, (IH i Hb Hoff Hon). lia.
Qed.

Lemma active_count_app (l k : list Bullet) :
  active_count (l ++ k) = (active_count l + active_count k)%nat.
Proof. unfold active_count. now rewrite filter_app, length_app. Qed.

(** With the active bullets below the counter, there are at most as many
    as the counter says. *)
Lemma active_count_below (pool : list Bullet) (count : nat) :
  pool_inv pool count → (active_count pool ≤ count)%nat.
Proof.
  intros Hinv. rewrite <- (take_drop count pool), active_count_app.
  assert (active_count (drop count pool) = 0%nat) as ->.
  { apply all_inactive_count. unfold all_inactive, pool_inv in *.
    now rewrite drop_0. }
  pose proof (active_count_le_length (take count pool)) as Hle.
  rewrite length_take in Hle. lia.
Qed.

(** X10: on a bullet array in order (all [MAX_BULLETS] slots present,
    active bullets below the counter) with the counter below
    [MAX_BULLETS], [ShootBullet] always finds a free slot: it writes the new
    bullet into the first inactive slot, which lies at or below the
    counter, raises the counter by one and the number of active bullets
    by one, and leaves every other slot as it is.  The fallback that
    overwrites slot [bulletCount % MAX_BULLETS] is never taken. *)
Theorem ShootBullet_takes_free_slot (pool : list Bullet) (count : nat)
    (position direction : Vector3) (fromPlayer : bool) :
  pool_ok pool count → (count < MAX_BULLETS)%nat →
  ∃ i b,
    (i ≤ count)%nat
    ∧ pool !! i = Some b ∧ b_active b = false
    ∧ (∀ j b', (j < i)%nat → pool !! j = Some b' → b_active b' = true)
    ∧ ShootBullet pool count position direction fromPlayer
      = (<[i := spawned position direction fromPlayer]> pool, S count)
    ∧ active_count
        (ShootBullet pool count position direction fromPlayer).1
      = S (active_count pool)
    ∧ (∀ j, j ≠ i →
         (ShootBullet pool count position direction fromPlayer).1 !! j
         = pool !! j).
Proof.
  intros [Hlen Hinv] Hroom.
  pose proof (proj1 (pool_inv_spec _ _) Hinv) as Hoff.
  destruct (lookup_lt_is_Some_2 pool count) as [b0 Hb0]; [lia|].
  pose proof (Hoff _ _ Hb0 (Nat.le_refl _)) as Hb0off.
  assert (take MAX_BULLETS pool = pool) as Htake by (apply take_ge; lia).
  destruct (first_inactive pool 0) as [i|] eqn:Hfirst.
  - pose proof Hfirst as Hspec.
    apply first_inactive_Some in Hspec as (_ & (b & Hb & Hboff) & Hall).
    rewrite Nat.sub_0_r in Hb, Hall.
    assert (i ≤ count)%nat as Hi.
    { destruct (Nat.le_gt_cases i count) as [|Hgt]; [assumption|].
      specialize (Hall _ _ Hgt Hb0). congruence. }
    exists i, b.
    rewrite (ShootBullet_free_slot _ _ _ _ _ i) by
      (try rewrite Htake; assumption).
    cbn [fst]. repeat split; auto.
    + now apply (active_count_insert pool i b).
    + intros j Hj. now rewrite list_lookup_insert_ne.
  - pose proof (first_inactive_None _ _ Hfirst _ _ Hb0). congruence.
Qed.

(** The first shot into the empty array goes to slot 0. *)
Lemma ShootBullet_takes_free_slot_witness :
  ∃ i b,
    (i ≤ 0)%nat ∧ Scene.empty_pool !! i = Some b ∧ b_active b = false
    ∧ active_count
        (ShootBullet Scene.empty_pool 0 Scene.mapPosition Scene.mapPosition
           true).1
      = S (active_count Scene.empty_pool).
Proof.
  destruct (ShootBullet_takes_free_slot Scene.empty_pool 0 Scene.mapPosition
              Scene.mapPosition true empty_pool_ok)
    as (i & b & Hi & Hb & Hoff & _ & _ & Hcount & _).
  - vm_compute. lia.
  - exists i, b. now repeat split.
Defined.

(** ** One pass of [UpdateEnemies] *)

Lemma enemy_steered_refl (e : Enemy) : enemy_steered e e.
Proof. unfold enemy_steered. now repeat split. Qed.

Lemma enemy_steered_trans (a b c : Enemy) :
  enemy_steered a b → enemy_steered b c → enemy_steered a c.
Proof.
  unfold enemy_steered. intros (?&?&?&?&?&?&?) (?&?&?&?&?&?&?).
  repeat split; congruence.
Qed.

Lemma axis_by_axis_height (collides : Vector3 → bool) (position : Vector3)
    (dx dz : float) :
  vy (axis_by_axis collides position dx dz) = vy position.
Proof.
  destruct position as [x y z]. unfold axis_by_axis, set_vx, set_vz. simpl.
  destruct (collides _); simpl; now destruct (collides _).
Qed.

Section EnemyPass.

Variable model : Model.
Variable mapPosition : Vector3.
Variable cubicmap : Texture2D.
Variable rand : nat → Z.

(** The enemy's map query depends on the position and the size only. *)
Lemma enemy_blocked_geometry (a b : Enemy) :
  e_position a = e_position b → e_size a = e_size b →
  enemy_blocked model mapPosition cubicmap a
  = enemy_blocked model mapPosition cubicmap b.
Proof.
  intros Hp Hs.
  unfold enemy_blocked, CheckCollisionEnemyWithMap, GetEnemyBoundingBox.
  now rewrite Hp, Hs.
Qed.

Lemma enemy_hit_timer_steered (deltaTime : float) (enemy : Enemy) :
  enemy_steered enemy (enemy_hit_timer deltaTime enemy)
  ∧ e_position (enemy_hit_timer deltaTime enemy) = e_position enemy.
Proof.
  destruct (enemy_hit_timer_spec deltaTime enemy) as (_ & _ & H).
  rewrite H. unfold enemy_steered. now repeat split.
Qed.

Lemma enemy_move_steered (direction : Vector3) (enemy : Enemy) :
  enemy_steered enemy (enemy_move model mapPosition cubicmap direction enemy).
Proof.
  rewrite enemy_move_axis_by_axis. unfold enemy_steered.
  cbn [set_e_position e_position e_size e_speed e_texture e_shootCooldown
       e_active e_health].
  rewrite axis_by_axis_height. now repeat split.
Qed.

Lemma enemy_move_free (direction : Vector3) (enemy : Enemy) :
  enemy_blocked model mapPosition cubicmap enemy = false →
  enemy_blocked model mapPosition cubicmap
    (enemy_move model mapPosition cubicmap direction enemy) = false.
Proof.
  intros Hfree. unfold enemy_blocked in *. rewrite enemy_move_axis_by_axis.
  set (collides := λ position,
         CheckCollisionEnemyWithMap model mapPosition cubicmap
           (set_e_position position enemy)).
  apply (axis_by_axis_stays_free collides (e_position enemy)).
  unfold collides. now rewrite set_e_position_same.
Qed.

(** The enemy that the body of the loop leaves behind: the hit timer is
    run, the enemy is moved or not, and the shoot timer is set. *)
Lemma UpdateEnemy_shape (shooter : Player) (deltaTime : float)
    (enemy : Enemy) (shots : Shots) :
  ∃ timer middle,
    (UpdateEnemy model mapPosition cubicmap rand shooter deltaTime enemy
       shots).1 = set_e_shootTimer timer middle
    ∧ (middle = enemy_hit_timer deltaTime enemy
       ∨ ∃ direction,
           middle = enemy_move model mapPosition cubicmap direction
                      (enemy_hit_timer deltaTime enemy)).
Proof.
  destruct shots as [[pool count] calls]. unfold UpdateEnemy.
  set (e1 := enemy_hit_timer deltaTime enemy).
  set (distance := Vector3Length _).
  set (direction := if (distance >? F32.zero)%f32 then _ else _).
  set (e2 := if (distance >? f3_0)%f32 then _ else e1).
  assert (e2 = e1
          ∨ ∃ d, e2 = enemy_move model mapPosition cubicmap d e1) as He2.
  { subst e2. destruct (distance >? f3_0)%f32; [right; now eexists|now left]. }
  destruct (_ && _).
  - destruct (ShootBullet _ _ _ _ _) as [bs bc]. cbn [fst].
    eexists _, e2. split; [reflexivity | exact He2].
  - cbn [fst]. eexists _, e2. split; [reflexivity | exact He2].
Qed.

Lemma UpdateEnemy_steered (shooter : Player) (deltaTime : float)
    (enemy : Enemy) (shots : Shots) :
  let after :=
    (UpdateEnemy model mapPosition cubicmap rand shooter deltaTime enemy
       shots).1 in
  enemy_steered enemy after
  ∧ (enemy_blocked model mapPosition cubicmap enemy = false →
     enemy_blocked model mapPosition cubicmap after = false).
Proof.
  intros after. subst after.
  destruct (UpdateEnemy_shape shooter deltaTime enemy shots)
    as (timer & middle & -> & Hmiddle).
  destruct (enemy_hit_timer_steered deltaTime enemy) as [H1 Hpos].
  assert (enemy_steered enemy middle
          ∧ (enemy_blocked model mapPosition cubicmap enemy = false →
             enemy_blocked model mapPosition cubicmap middle = false))
    as [Hs Hfree].
  { assert (enemy_blocked model mapPosition cubicmap
              (enemy_hit_timer deltaTime enemy)
            = enemy_blocked model mapPosition cubicmap enemy) as Hsame.
    { apply enemy_blocked_geometry; [exact Hpos|]. apply H1. }
    destruct Hmiddle as [-> | [d ->]].
    - split; [exact H1|]. now rewrite Hsame.
    - split.
      + eapply enemy_steered_trans; [exact H1|]. apply enemy_move_steered.
      + intros Hfree. apply enemy_move_free. now rewrite Hsame. }
  split.
  - eapply enemy_steered_trans; [exact Hs|].
    unfold enemy_steered. now repeat split.
  - intros H. rewrite <- (Hfree H). now apply enemy_blocked_geometry.
Qed.

Lemma ShootBullet_count_step (pool : list Bullet) (count : nat)
    (position direction : Vector3) (fromPlayer : bool) :
  (count ≤ (ShootBullet pool count position direction fromPlayer).2
   ≤ S count)%nat.
Proof.
  unfold ShootBullet. destruct (MAX_BULLETS <=? count)%nat; [simpl; lia|].
  destruct (first_inactive _ _); simpl; lia.
Qed.

(** The counters after [n] iterations of the loop. *)
Lemma UpdateEnemies_counters (shooter : Player) (deltaTime : float)
    (foes : list Enemy) (shots : Shots) (n : nat) :
  let after :=
    (for_range n
       (enemies_body model mapPosition cubicmap rand shooter deltaTime)
       (foes, shots)).2 in
  (shots.1.2 ≤ after.1.2)%nat
  ∧ (shots.2 ≤ after.2 ≤ shots.2 + n)%nat
  ∧ (after.1.2 - shots.1.2 ≤ after.2 - shots.2)%nat
  ∧ length after.1.1 = length shots.1.1.
Proof.
  induction n as [|n IH].
  - simpl. repeat split; lia.
  - cbv zeta in *. rewrite for_range_S.
    destruct (for_range n _ _) as [es [[bs bc] calls]]. simpl in IH.
    unfold enemies_body.
    destruct (es !! n) as [e|]; [|simpl; repeat split; lia].
    destruct (e_active e); [|simpl; repeat split; lia].
    destruct (UpdateEnemy_spec model mapPosition cubicmap rand shooter
                deltaTime e bs bc calls) as [_ Hshoot].
    destruct (UpdateEnemy _ _ _ _ _ _ e _) as [e' sh'].
    cbn [fst snd] in *.
    destruct (_ && _).
    + destruct Hshoot as [_ ->]. cbn [fst snd].
      pose proof (ShootBullet_count_step bs bc (raise_half (e_position e'))
                    (Vector3Normalize
                       (Vector3Subtract (raise_half (p_position shooter))
                          (raise_half (e_position e')))) false).
      rewrite ShootBullet_length. repeat split; lia.
    + destruct Hshoot as [_ ->]. cbn [fst snd]. repeat split; lia.
Qed.

End EnemyPass.

(** X11: a pass of [UpdateEnemies] steers and never harms: the array
    keeps its length; an inactive enemy and any slot at or beyond
    [enemyCount] is left exactly as it is; for every enemy the height,
    size, speed, cooldown, active flag and health are unchanged; and an
    enemy that was clear of the map before the pass is clear of it
    after. *)
Theorem UpdateEnemies_steers (model : Model) (mapPosition : Vector3)
    (cubicmap : Texture2D) (rand : nat → Z) (foes : list Enemy)
    (foeCount : nat) (shooter : Player) (shots : Shots) (deltaTime : float)
    (j : nat) (e : Enemy) :
  foes !! j = Some e →
  let after :=
    (UpdateEnemies model mapPosition cubicmap rand foes foeCount shooter
       shots deltaTime).1 in
  length after = length foes
  ∧ ∃ e', after !! j = Some e'
          ∧ enemy_steered e e'
          ∧ (e_active e = false → e' = e)
          ∧ ((foeCount ≤ j)%nat → e' = e)
          ∧ (enemy_blocked model mapPosition cubicmap e = false →
             enemy_blocked model mapPosition cubicmap e' = false).
Proof.
  intros He after. subst after. unfold UpdateEnemies.
  destruct (UpdateEnemies_lookup model mapPosition cubicmap rand shooter
              deltaTime foes shots foeCount j) as (Hlen & Hge & Hlt).
  split; [exact Hlen|].
  destruct (Nat.le_gt_cases foeCount j) as [Hbeyond | Hbelow].
  - exists e. rewrite (Hge Hbeyond). split; [exact He|].
    split; [apply enemy_steered_refl|]. now repeat split.
  - specialize (Hlt Hbelow e He).
    destruct (e_active e) eqn:Hactive.
    + destruct Hlt as [before Hlook]. eexists. split; [exact Hlook|].
      destruct (UpdateEnemy_steered model mapPosition cubicmap rand shooter
                  deltaTime e before) as [Hs Hfree].
      split; [exact Hs|]. split; [discriminate|]. split; [lia | exact Hfree].
    + exists e. split; [exact Hlt|].
      split; [apply enemy_steered_refl|]. now repeat split.
Qed.

(** The enemy of the scene, far from the player and next to the wall
    cell, is steered towards him and stays clear of the wall. *)
Lemma UpdateEnemies_steers_witness :
  let enemy := Scene.enemy_at f1_0 f0_5 f1_0 f1_0 in
  let shooter := Scene.player_at (F32.of_int 6) f0_5 f1_0 in
  ∃ e',
    (UpdateEnemies Scene.model Scene.mapPosition Scene.cubicmap Scene.rand
       [enemy] 1 shooter (Scene.empty_pool, 0%nat, 0%nat) (F32.lit 1 60)).1
    !! 0%nat = Some e'
    ∧ enemy_steered enemy e'
    ∧ enemy_blocked Scene.model Scene.mapPosition Scene.cubicmap e' = false.
Proof.
  intros enemy shooter.
  destruct (UpdateEnemies_steers Scene.model Scene.mapPosition Scene.cubicmap
              Scene.rand [enemy] 1 shooter (Scene.empty_pool, 0%nat, 0%nat)
              (F32.lit 1 60) 0 enemy eq_refl)
    as (_ & e' & He' & Hs & _ & _ & Hfree).
  exists e'. split; [exact He'|]. split; [exact Hs|].
  apply Hfree. vm_compute. reflexivity.
Defined.

(** X12: in a pass of [UpdateEnemies] over [enemyCount] enemies the
    bullet counter never goes down and every bullet placed costs one call
    of [GetRandomValue]; there are at most [enemyCount] such calls, so at
    most [enemyCount] bullets are placed.  The bullet array keeps its
    length. *)
Theorem UpdateEnemies_shot_budget (model : Model) (mapPosition : Vector3)
    (cubicmap : Texture2D) (rand : nat → Z) (foes : list Enemy)
    (foeCount : nat) (shooter : Player) (pool : list Bullet)
    (count calls : nat) (deltaTime : float) :
  let after :=
    (UpdateEnemies model mapPosition cubicmap rand foes foeCount shooter
       (pool, count, calls) deltaTime).2 in
  (count ≤ after.1.2 ≤ count + foeCount)%nat
  ∧ (calls ≤ after.2 ≤ calls + foeCount)%nat
  ∧ (after.1.2 - count ≤ after.2 - calls)%nat
  ∧ length after.1.1 = length pool.
Proof.
  intros after. subst after. unfold UpdateEnemies.
  destruct (UpdateEnemies_counters model mapPosition cubicmap rand shooter
              deltaTime foes (pool, count, calls) foeCount)
    as (H1 & H2 & H3 & H4).
  cbn [fst snd] in *. repeat split; try assumption; lia.
Qed.

(** ** A frame of the main loop *)

Section Frames.

Variable model : Model.
Variable mapPosition : Vector3.
Variable cubicmap : Texture2D.
Variable rand : nat → Z.

(** A frame while the game is playing, stage by stage. *)
Lemma Frame_playing (input : Input) (g : Game) :
  toggled input g = GAME_PLAYING →
  let deltaTime := frameTime input in
  let walked :=
    player_jump input
      (player_move model mapPosition cubicmap input
         (player_hit_timer deltaTime (player g))) in
  let shot :=
    player_shoot input deltaTime walked
      (bullets g, bulletCount g, canShoot g, shootTimer g) in
  let fallen :=
    UpdatePlayerPhysics model mapPosition cubicmap walked deltaTime in
  let steered :=
    UpdateEnemies model mapPosition cubicmap rand (enemies g) (enemyCount g)
      fallen (shot.1.1.1, shot.1.1.2, randCalls g) deltaTime in
  let flown := UpdateBullets steered.2.1.1 steered.2.1.2 deltaTime in
  let struck :=
    CheckBulletCollisions model mapPosition cubicmap flown steered.2.1.2
      fallen steered.1 (enemyCount g) in
  Frame model mapPosition cubicmap rand input g
  = mkGame struck.1.2 struck.2 (enemyCount g) struck.1.1 steered.2.1.2
      (if p_health struck.1.2 <=? 0 then GAME_PAUSED else GAME_PLAYING)
      shot.1.2 shot.2 steered.2.2.
Proof.
  intros Hplaying. cbv zeta. unfold Frame. fold (toggled input g).
  rewrite Hplaying.
  destruct (player_shoot _ _ _ _) as [[[bs bc] cs] t]. cbn [fst snd].
  destruct (UpdateEnemies _ _ _ _ _ _ _ _ _) as [es [[bs' bc'] calls']].
  cbn [fst snd].
  now destruct (CheckBulletCollisions _ _ _ _ _ _ _ _) as [[bs'' p''] es''].
Qed.

Lemma Frame_paused (input : Input) (g : Game) :
  toggled input g = GAME_PAUSED →
  Frame model mapPosition cubicmap rand input g
  = mkGame (player g) (enemies g) (enemyCount g) (bullets g) (bulletCount g)
      GAME_PAUSED (canShoot g) (shootTimer g) (randCalls g).
Proof.
  intros Hpaused. unfold Frame. fold (toggled input g). now rewrite Hpaused.
Qed.

Lemma player_hit_timer_keeps (deltaTime : float) (p : Player) :
  p_health (player_hit_timer deltaTime p) = p_health p
  ∧ p_position (player_hit_timer deltaTime p) = p_position p.
Proof.
  destruct (player_hit_timer_spec deltaTime p) as (_ & _ & H).
  rewrite H. now split.
Qed.

Lemma player_jump_keeps (input : Input) (p : Player) :
  p_health (player_jump input p) = p_health p
  ∧ p_position (player_jump input p) = p_position p.
Proof.
  unfold player_jump. now destruct (pressed_SPACE input && p_isGrounded p).
Qed.

(** The player's health is not touched before the collision pass. *)
Lemma walked_fallen_health (input : Input) (p : Player) :
  p_health
    (UpdatePlayerPhysics model mapPosition cubicmap
       (player_jump input
          (player_move model mapPosition cubicmap input
             (player_hit_timer (frameTime input) p)))
       (frameTime input))
  = p_health p.
Proof.
  destruct (UpdatePlayerPhysics_vertical model mapPosition cubicmap
              (player_jump input
                 (player_move model mapPosition cubicmap input
                    (player_hit_timer (frameTime input) p)))
              (frameTime input))
    as (_&_&_&_&_&_&_&_&_&_&Hh&_).
  rewrite Hh.
  rewrite (proj1 (player_jump_keeps _ _)).
  destruct (player_move_keeps model mapPosition cubicmap input
              (player_hit_timer (frameTime input) p))
    as (_ & _ & Hm & _).
  rewrite Hm. apply player_hit_timer_keeps.
Qed.

Lemma player_shoot_counters (input : Input) (deltaTime : float)
    (shooter : Player) (pool : list Bullet) (count : nat) (can : bool)
    (timer : float) :
  let after := player_shoot input deltaTime shooter (pool, count, can, timer) in
  (count ≤ after.1.1.2 ≤ S count)%nat
  ∧ length after.1.1.1 = length pool.
Proof.
  unfold player_shoot. destruct (if negb can then _ else _) as [can' t'].
  destruct (pressed_MOUSE_LEFT input && can'); [|simpl; split; [lia|easy]].
  pose proof (ShootBullet_count_step pool count
                (raise_half (p_position shooter))
                (player_aim (mouseRay input) shooter) true) as Hc.
  pose proof (ShootBullet_length pool count
                (raise_half (p_position shooter))
                (player_aim (mouseRay input) shooter) true) as Hl.
  destruct (ShootBullet _ _ _ _ _) as [bs bc]. simpl in *. now split.
Qed.

End Frames.

(** The health of the player over a collision pass. *)
Lemma pass_player_health (model : Model) (mapPosition : Vector3)
    (cubicmap : Texture2D) (pool : list Bullet) (count : nat)
    (target : Player) (foes : list Enemy) (foeCount : nat) :
  let after :=
    (CheckBulletCollisions model mapPosition cubicmap pool count target foes
       foeCount).1.2 in
  p_health after = p_health target
  ∨ p_health after = wrap_int (p_health target - 10).
Proof.
  intros after. subst after. unfold CheckBulletCollisions.
  destruct (collisions_relation model mapPosition cubicmap foeCount count
              pool target foes) as (_ & [-> | [Hhit ->]] & _).
  - now left.
  - right. unfold damage_player. now rewrite Hhit.
Qed.

(** X13: in one frame the player's health stays, or 10 is taken from it
    once, as an [int] operation; so when [health - 10] is an [int] it stays
    or drops by exactly 10, never more and never up.  Whenever a frame
    ends with the health at 0 or below the game is paused; so, as long as
    [health - 10] is an [int], a player who is dead is paused again at the
    end of every frame, even one in which P was pressed to resume.  While
    the game is paused and P is not pressed a frame changes nothing at
    all. *)
Theorem Frame_health_and_pause (model : Model) (mapPosition : Vector3)
    (cubicmap : Texture2D) (rand : nat → Z) (input : Input) (g : Game) :
  let g' := Frame model mapPosition cubicmap rand input g in
  (p_health (player g') = p_health (player g)
   ∨ p_health (player g') = wrap_int (p_health (player g) - 10))
  ∧ (is_int (p_health (player g) - 10) →
     p_health (player g') = p_health (player g)
     ∨ p_health (player g') = p_health (player g) - 10)
  ∧ (p_health (player g') ≤ 0 → gameState g' = GAME_PAUSED)
  ∧ (is_int (p_health (player g) - 10) → p_health (player g) ≤ 0 →
     gameState g' = GAME_PAUSED)
  ∧ (gameState g = GAME_PAUSED → pressed_P input = false → g' = g).
Proof.
  intros g'. subst g'.
  destruct (toggled input g) eqn:Hstate.
  - rewrite (Frame_playing model mapPosition cubicmap rand input g Hstate).
    cbv zeta. cbn [player gameState].
    match goal with
    | |- context [CheckBulletCollisions ?m ?mp ?c ?b ?n ?p ?es ?k] =>
        pose proof (pass_player_health m mp c b n p es k) as Hpass;
        set (struck := CheckBulletCollisions m mp c b n p es k) in *
    end.
    rewrite walked_fallen_health in Hpass.
    assert (p_health struck.1.2 ≤ 0 →
            (if p_health struck.1.2 <=? 0 then GAME_PAUSED else GAME_PLAYING)
            = GAME_PAUSED) as Hover.
    { intros H. now destruct (Z.leb_spec (p_health struck.1.2) 0); [|lia]. }
    assert (is_int (p_health (player g) - 10) →
            p_health struck.1.2 = p_health (player g)
            ∨ p_health struck.1.2 = p_health (player g) - 10) as Hroom.
    { intros Hint. destruct Hpass as [H | H]; [now left|].
      right. now rewrite H, wrap_int_id. }
    split; [exact Hpass|]. split; [exact Hroom|]. split; [exact Hover|].
    split.
    + intros Hint Hdead. apply Hover. destruct (Hroom Hint); lia.
    + intros Hpaused Hkey. unfold toggled in Hstate.
      rewrite Hkey, Hpaused in Hstate. discriminate.
  - rewrite (Frame_paused model mapPosition cubicmap rand input g Hstate).
    cbn [player gameState]. split; [now left|]. split; [now left|].
    split; [reflexivity|]. split; [reflexivity|].
    intros Hpaused _. destruct g. simpl in *. now rewrite Hpaused.
Qed.

(** A playing game with an enemy's bullet in the player's box: the frame
    takes 10 of his 100 health or none.  The same game paused: without
    P the frame leaves it as it is. *)
Lemma Frame_health_and_pause_witness :
  let playing :=
    mkGame Shots.target [] 0 [Shots.at_player] 1 GAME_PLAYING true F32.zero
      0 in
  let paused :=
    mkGame Shots.target [] 0 [Shots.at_player] 1 GAME_PAUSED true F32.zero
      0 in
  let input := Scene.no_input (F32.lit 1 60) in
  let frame := Frame Scene.model Scene.mapPosition Scene.cubicmap Scene.rand in
  (p_health (player (frame input playing)) = p_health (player playing)
   ∨ p_health (player (frame input playing)) = p_health (player playing) - 10)
  ∧ frame input paused = paused.
Proof.
  intros playing paused input frame. split.
  - apply (proj1 (proj2
             (Frame_health_and_pause Scene.model Scene.mapPosition
                Scene.cubicmap Scene.rand input playing))).
    split; apply Z.leb_le; vm_compute; reflexivity.
  - apply (proj2 (proj2 (proj2 (proj2
             (Frame_health_and_pause Scene.model Scene.mapPosition
                Scene.cubicmap Scene.rand input paused)))));
      reflexivity.
Defined.

(** ** What the loop keeps from frame to frame *)

Lemma ShootBullet_bounded (pool : list Bullet) (count : nat)
    (position direction : Vector3) (fromPlayer : bool) :
  (count ≤ MAX_BULLETS)%nat →
  ((ShootBullet pool count position direction fromPlayer).2 ≤ MAX_BULLETS)%nat.
Proof.
  intros Hc. unfold ShootBullet.
  destruct (Nat.leb_spec MAX_BULLETS count) as [Hfull | Hroom];
    [exact Hc|].
  destruct (first_inactive _ _); cbn [snd]; lia.
Qed.

Lemma enemy_steered_sound (e e' : Enemy) :
  enemy_steered e e' → enemy_sound e → enemy_sound e'.
Proof.
  intros (Hy & _ & _ & _ & _ & Hact & Hh) Hsound Hactive.
  rewrite Hy, Hh. apply Hsound. now rewrite <- Hact.
Qed.

Lemma enemy_struck_sound (e e' : Enemy) :
  enemy_struck e e' → enemy_sound e → enemy_sound e'.
Proof.
  intros [-> | (Hact & Hhit & ->)] Hsound; [exact Hsound|].
  destruct (Hsound Hact) as [Hy Hh]. unfold damage_enemy, enemy_sound.
  rewrite Hhit.
  destruct e as [pos ? ? ? ? ? act h hit ?].
  cbn [negb e_health e_active e_position set_e_health set_e_isHit
       set_e_hitTimer] in *.
  rewrite wrap_int_id
    by (unfold is_int, F32.INT_MIN, F32.INT_MAX; lia).
  destruct (Z.leb_spec (h - 10) 0);
    cbn [e_health e_active e_position set_e_active set_e_health set_e_isHit
         set_e_hitTimer]; [discriminate|].
  intros _. split; [exact Hy|lia].
Qed.

Lemma player_struck_keeps (p p' : Player) :
  player_struck p p' →
  p_position p' = p_position p
  ∧ (p_health p' = p_health p ∨ p_health p' = wrap_int (p_health p - 10)).
Proof.
  intros [-> | [Hhit ->]]; [split; [reflexivity | now left]|].
  unfold damage_player. rewrite Hhit. split; [reflexivity | now right].
Qed.

(** *** Bullets placed against bullets in flight *)

(** A shot raises the counter and the number of active bullets alike. *)
Lemma ShootBullet_balance (pool : list Bullet) (count : nat)
    (position direction : Vector3) (fromPlayer : bool) :
  pool_ok pool count →
  let after := ShootBullet pool count position direction fromPlayer in
  Z.of_nat after.2 - Z.of_nat (active_count after.1)
  = Z.of_nat count - Z.of_nat (active_count pool).
Proof.
  intros [Hlen Hinv]. cbv zeta.
  destruct (Nat.le_gt_cases MAX_BULLETS count) as [Hfull | Hroom].
  { now rewrite ShootBullet_full. }
  pose proof (proj1 (pool_inv_spec _ _) Hinv) as Hoff.
  destruct (lookup_lt_is_Some_2 pool count) as [b0 Hb0]; [lia|].
  pose proof (Hoff _ _ Hb0 (Nat.le_refl _)) as Hb0off.
  assert (take MAX_BULLETS pool = pool) as Htake by (apply take_ge; lia).
  destruct (first_inactive pool 0) as [k|] eqn:Hfirst.
  - rewrite (ShootBullet_free_slot _ _ _ _ _ k) by
      (try rewrite Htake; assumption).
    cbn [fst snd].
    apply first_inactive_Some in Hfirst as (_ & (bk & Hbk & Hbkoff) & _).
    rewrite Nat.sub_0_r in Hbk.
    rewrite (active_count_insert pool k bk) by auto. lia.
  - pose proof (first_inactive_None _ _ Hfirst _ _ Hb0). congruence.
Qed.

(** No more bullets are active in an array none of whose slots was
    switched on. *)
Lemma active_count_mono (l l' : list Bullet) :
  Forall2 (λ b b', b_active b' = true → b_active b = true) l l' →
  (active_count l' ≤ active_count l)%nat.
Proof.
  induction 1 as [|b b' l l' Hb _ IH]; [reflexivity|].
  rewrite !active_count_cons.
  destruct (b_active b') eqn:Hon; [rewrite (Hb eq_refl)|]; lia.
Qed.

Lemma UpdateBullets_active (pool : list Bullet) (count : nat)
    (deltaTime : float) :
  (active_count (UpdateBullets pool count deltaTime) ≤ active_count pool)%nat.
Proof.
  apply active_count_mono, Forall2_same_length_lookup_2.
  - now rewrite UpdateBullets_length.
  - intros i b b' Hb Hb'. rewrite UpdateBullets_lookup, Hb in Hb'.
    destruct (decide _); cbn in Hb'; injection Hb' as <-; [|auto].
    destruct (b_active b) eqn:Hoff; [reflexivity|].
    now rewrite advance_stays_inactive.
Qed.

(** Switching an active bullet off leaves one active bullet less. *)
Lemma active_count_switch_off (pool : list Bullet) (i : nat) (b : Bullet) :
  pool !! i = Some b → b_active b = true →
  S (active_count (<[i := set_b_active false b]> pool)) = active_count pool.
Proof.
  revert i. induction pool as [|b0 pool IH]; intros i Hb Hon.
  - discriminate.
  - destruct i as [|i]; simpl in *.
    + injection Hb as ->. rewrite !active_count_cons, Hon. reflexivity.
    + rewrite !active_count_cons.
      destruct (b_active b0); rewrite <- (IH i Hb Hon); lia.
Qed.

Section Kept.

Variable model : Model.
Variable mapPosition : Vector3.
Variable cubicmap : Texture2D.
Variable rand : nat → Z.

Lemma player_shoot_bounded (input : Input) (deltaTime : float)
    (shooter : Player) (pool : list Bullet) (count : nat) (can : bool)
    (timer : float) :
  (count ≤ MAX_BULLETS)%nat →
  ((player_shoot input deltaTime shooter (pool, count, can, timer)).1.1.2
   ≤ MAX_BULLETS)%nat.
Proof.
  intros Hc. unfold player_shoot.
  destruct (if negb can then _ else _) as [can' t'].
  destruct (pressed_MOUSE_LEFT input && can'); [|exact Hc].
  pose proof (ShootBullet_bounded pool count
                (raise_half (p_position shooter))
                (player_aim (mouseRay input) shooter) true Hc) as H.
  destruct (ShootBullet _ _ _ _ _) as [bs bc]. exact H.
Qed.

Lemma UpdateEnemies_bounded (shooter : Player) (deltaTime : float)
    (foes : list Enemy) (shots : Shots) (n : nat) :
  (shots.1.2 ≤ MAX_BULLETS)%nat →
  ((UpdateEnemies model mapPosition cubicmap rand foes n shooter shots
      deltaTime).2.1.2 ≤ MAX_BULLETS)%nat.
Proof.
  intros Hc. unfold UpdateEnemies.
  apply (for_range_ind (λ s : list Enemy * Shots, (s.2.1.2 ≤ MAX_BULLETS)%nat));
    [exact Hc|].
  intros i [es [[bs bc] calls]] _ Hs. cbn [fst snd] in Hs.
  unfold enemies_body.
  destruct (es !! i) as [e|]; [|exact Hs].
  destruct (e_active e); [|exact Hs].
  destruct (UpdateEnemy_spec model mapPosition cubicmap rand shooter
              deltaTime e bs bc calls) as [_ Hshoot].
  destruct (UpdateEnemy _ _ _ _ _ _ e _) as [e' sh'].
  cbn [fst snd] in *.
  destruct (_ && _).
  - destruct Hshoot as [_ ->]. cbn [fst snd]. now apply ShootBullet_bounded.
  - destruct Hshoot as [_ ->]. exact Hs.
Qed.

(** Each slot of the enemy array over a pass of [UpdateEnemies]. *)
Lemma UpdateEnemies_slots (shooter : Player) (deltaTime : float)
    (foes : list Enemy) (shots : Shots) (n : nat) :
  Forall2 (λ e e', enemy_steered e e' ∧ (e_active e = false → e' = e)) foes
    (UpdateEnemies model mapPosition cubicmap rand foes n shooter shots
       deltaTime).1.
Proof.
  unfold UpdateEnemies. apply Forall2_same_length_lookup_2.
  - destruct (UpdateEnemies_lookup model mapPosition cubicmap rand shooter
                deltaTime foes shots n 0) as (Hlen & _). now symmetry.
  - intros j e e' He He'.
    destruct (UpdateEnemies_lookup model mapPosition cubicmap rand shooter
                deltaTime foes shots n j) as (_ & Hge & Hlt).
    destruct (Nat.le_gt_cases n j) as [Hbeyond | Hbelow].
    + rewrite (Hge Hbeyond), He in He'. injection He' as <-.
      split; [apply enemy_steered_refl | reflexivity].
    + specialize (Hlt Hbelow e He). destruct (e_active e) eqn:Hactive.
      * destruct Hlt as [before Hlook]. rewrite Hlook in He'.
        injection He' as <-. split; [|discriminate].
        apply (UpdateEnemy_steered model mapPosition cubicmap rand shooter
                 deltaTime e before).
      * rewrite Hlt in He'. injection He' as <-.
        split; [apply enemy_steered_refl | reflexivity].
Qed.

(** The enemies over a frame, slot by slot. *)
Lemma Frame_enemy_slots (input : Input) (g : Game) :
  Forall2 (λ e e', enemy_framed e e' ∧ (e_active e = false → e' = e))
    (enemies g) (enemies (Frame model mapPosition cubicmap rand input g)).
Proof.
  destruct (toggled input g) eqn:Hstate.
  - rewrite (Frame_playing model mapPosition cubicmap rand input g Hstate).
    cbv zeta. cbn [enemies].
    match goal with
    | |- context [CheckBulletCollisions ?m ?mp ?c ?b ?k ?p ?es ?n] =>
        destruct (collisions_relation m mp c n k b p es)
          as (_ & _ & Hstruck & _);
        fold (CheckBulletCollisions m mp c b k p es n) in Hstruck
    end.
    match type of Hstruck with
    | Forall2 _ (UpdateEnemies ?m ?mp ?c ?r ?es ?n ?p ?sh ?dt).1 _ =>
        pose proof (UpdateEnemies_slots p dt es sh n) as Hsteered
    end.
    eapply Forall2_trans; [|exact Hsteered|exact Hstruck].
    intros e m e' [Hs Hoff] Hk. split; [now exists m|].
    intros Hinactive. rewrite (Hoff Hinactive) in Hk.
    now destruct Hk as [-> | (Hact & _)]; [|congruence].
  - rewrite (Frame_paused model mapPosition cubicmap rand input g Hstate).
    cbn [enemies]. apply Forall_Forall2_diag, Forall_forall. intros e _.
    split; [|reflexivity].
    exists e. split; [apply enemy_steered_refl | now left].
Qed.

End Kept.

Lemma for_range_insert {A : Type} (f : nat → A) (n : nat) (l : list A) :
  let filled := for_range n (λ i l, <[i := f i]> l) l in
  length filled = length l
  ∧ ∀ i, ((i < n)%nat → (i < length l)%nat → filled !! i = Some (f i))
         ∧ ((n ≤ i)%nat → filled !! i = l !! i).
Proof.
  induction n as [|n IH].
  - split; [reflexivity|]. intros i. split; [lia | reflexivity].
  - cbv zeta in *. rewrite for_range_S. destruct IH as [Hlen IH].
    rewrite length_insert. split; [exact Hlen|].
    intros i. destruct (IH i) as [Hlt Hge]. split.
    + intros Hi Hl. destruct (decide (i = n)) as [-> | Hne].
      * apply list_lookup_insert_eq. now rewrite Hlen.
      * rewrite list_lookup_insert_ne by auto. apply Hlt; [lia | exact Hl].
    + intros Hi. rewrite list_lookup_insert_ne by lia. apply Hge. lia.
Qed.

Section KeptOk.

Variable model : Model.
Variable mapPosition : Vector3.
Variable cubicmap : Texture2D.
Variable rand : nat → Z.

Lemma player_shoot_balance (input : Input) (deltaTime : float)
    (shooter : Player) (pool : list Bullet) (count : nat) (can : bool)
    (timer : float) :
  pool_ok pool count →
  let after := player_shoot input deltaTime shooter (pool, count, can, timer) in
  Z.of_nat after.1.1.2 - Z.of_nat (active_count after.1.1.1)
  = Z.of_nat count - Z.of_nat (active_count pool).
Proof.
  intros Hok. unfold player_shoot.
  destruct (if negb can then _ else _) as [can' t'].
  destruct (pressed_MOUSE_LEFT input && can'); [|reflexivity].
  pose proof (ShootBullet_balance pool count
                (raise_half (p_position shooter))
                (player_aim (mouseRay input) shooter) true Hok) as H.
  cbv zeta in H. destruct (ShootBullet _ _ _ _ _) as [bs bc]. exact H.
Qed.

Lemma UpdateEnemies_balance (shooter : Player) (deltaTime : float)
    (foes : list Enemy) (shots : Shots) (n : nat) :
  pool_ok shots.1.1 shots.1.2 →
  let after :=
    (UpdateEnemies model mapPosition cubicmap rand foes n shooter shots
       deltaTime).2 in
  Z.of_nat after.1.2 - Z.of_nat (active_count after.1.1)
  = Z.of_nat shots.1.2 - Z.of_nat (active_count shots.1.1).
Proof.
  intros Hok. cbv zeta. unfold UpdateEnemies.
  apply (for_range_ind
           (λ s : list Enemy * Shots,
              pool_ok s.2.1.1 s.2.1.2
              ∧ Z.of_nat s.2.1.2 - Z.of_nat (active_count s.2.1.1)
                = Z.of_nat shots.1.2 - Z.of_nat (active_count shots.1.1)));
    [now split|].
  intros k [es [[bs bc] calls]] _ [Hs Hbal]. cbn [fst snd] in Hs, Hbal.
  unfold enemies_body.
  destruct (es !! k) as [e|]; [|now split].
  destruct (e_active e); [|now split].
  destruct (UpdateEnemy_spec model mapPosition cubicmap rand shooter
              deltaTime e bs bc calls) as [_ Hshoot].
  destruct (UpdateEnemy _ _ _ _ _ _ e _) as [e' sh'].
  cbn [fst snd] in *.
  destruct (_ && _).
  - destruct Hshoot as [_ ->]. cbn [fst snd]. split.
    + now apply ShootBullet_pool_ok.
    + rewrite <- Hbal. now apply ShootBullet_balance.
  - destruct Hshoot as [_ ->]. now split.
Qed.

(** Over a collision pass the player's health falls by no more than 10
    for each bullet the pass switches off, and no subtraction leaves the
    range of [int], as long as there is room for every active bullet to
    hit. *)
Lemma collisions_reserve (enemyCount n : nat) (pool : list Bullet)
    (target : Player) (foes : list Enemy) :
  F32.INT_MIN ≤ p_health target - 10 * Z.of_nat (active_count pool) →
  p_health target ≤ F32.INT_MAX →
  let s :=
    for_range n (collisions_body model mapPosition cubicmap enemyCount)
      (pool, target, foes) in
  p_health target - 10 * Z.of_nat (active_count pool)
  ≤ p_health s.1.2 - 10 * Z.of_nat (active_count s.1.1)
  ∧ p_health s.1.2 ≤ p_health target.
Proof.
  intros Hlow Hhigh. unfold F32.INT_MIN, F32.INT_MAX in *.
  induction n as [|n IH]; cbv zeta in *; [simpl; lia|].
  rewrite for_range_S.
  destruct (for_range n _ _) as [[bs p] es]. cbn [fst snd] in IH.
  destruct IH as [Hres Hle]. unfold collisions_body.
  destruct (bs !! n) as [b|] eqn:Hbn; [|cbn [fst snd]; lia].
  destruct (b_active b) eqn:Hactive; [|cbn [fst snd]; lia].
  pose proof (active_count_switch_off bs n b Hbn Hactive) as Hoff.
  destruct (check_bullet_cases model mapPosition cubicmap enemyCount b p es)
    as [[_ Heq] | [(_ & _ & _ & Heq) | [(_ & _ & Heq)
        | (_ & _ & j & e & _ & _ & _ & _ & Heq)]]];
    rewrite Heq; cbn [fst snd].
  - lia.
  - assert (p_health (damage_player p) = p_health p
            ∨ p_health (damage_player p) = wrap_int (p_health p - 10))
      as [Hsame | Hhit].
    { unfold damage_player. destruct (negb (p_isHit p)); [now right|now left]. }
    + rewrite Hsame. lia.
    + rewrite Hhit, wrap_int_id
        by (unfold is_int, F32.INT_MIN, F32.INT_MAX; lia).
      lia.
  - rewrite list_insert_id by exact Hbn. lia.
  - lia.
Qed.

(** The player over a frame. *)
Lemma Frame_player (input : Input) (g : Game) :
  let g' := Frame model mapPosition cubicmap rand input g in
  (p_health (player g') = p_health (player g)
   ∨ p_health (player g') = wrap_int (p_health (player g) - 10))
  ∧ (gameState g' = GAME_PLAYING → 0 < p_health (player g'))
  ∧ ((vy (p_position (player g)) <? f0_5)%f32 = false →
     (vy (p_position (player g')) <? f0_5)%f32 = false).
Proof.
  intros g'. subst g'.
  destruct (toggled input g) eqn:Hstate.
  - rewrite (Frame_playing model mapPosition cubicmap rand input g Hstate).
    cbv zeta. cbn [player gameState].
    match goal with
    | |- context [CheckBulletCollisions ?m ?mp ?c ?b ?n ?p ?es ?k] =>
        destruct (collisions_relation m mp c k n b p es)
          as (_ & Hstruck & _);
        fold (CheckBulletCollisions m mp c b n p es k) in Hstruck;
        set (struck := CheckBulletCollisions m mp c b n p es k) in *
    end.
    apply player_struck_keeps in Hstruck. destruct Hstruck as [Hpos Hh].
    rewrite walked_fallen_health in Hh. rewrite Hpos.
    split; [exact Hh|]. split.
    + destruct (Z.leb_spec (p_health struck.1.2) 0); [discriminate | auto].
    + intros _. apply resolve_ground_floor.
  - rewrite (Frame_paused model mapPosition cubicmap rand input g Hstate).
    cbn [player gameState]. split; [now left|]. split; [|auto].
    intros Hplaying. discriminate.
Qed.

(** Every bullet placed so far and no longer active may have cost the
    player 10 health, and no more than that was lost. *)
Lemma Frame_reserve (input : Input) (g : Game) :
  pool_ok (bullets g) (bulletCount g) →
  (bulletCount g ≤ MAX_BULLETS)%nat →
  p_health (player g) ≤ 100 →
  100 ≤ p_health (player g)
        + 10 * (Z.of_nat (bulletCount g)
                - Z.of_nat (active_count (bullets g))) →
  let g' := Frame model mapPosition cubicmap rand input g in
  p_health (player g') ≤ 100
  ∧ 100 ≤ p_health (player g')
          + 10 * (Z.of_nat (bulletCount g')
                  - Z.of_nat (active_count (bullets g'))).
Proof.
  intros Hok Hcount Hh Hres. cbv zeta.
  destruct (toggled input g) eqn:Hstate.
  2: { rewrite (Frame_paused model mapPosition cubicmap rand input g Hstate).
       cbn [player bullets bulletCount]. now split. }
  rewrite (Frame_playing model mapPosition cubicmap rand input g Hstate).
  cbv zeta. cbn [player bullets bulletCount].
  set (walked := player_jump input _).
  pose proof (player_shoot_pool_ok input (frameTime input) walked
                (bullets g, bulletCount g, canShoot g, shootTimer g) Hok)
    as Hok1.
  pose proof (player_shoot_balance input (frameTime input) walked
                (bullets g) (bulletCount g) (canShoot g) (shootTimer g) Hok)
    as Hbal1.
  pose proof (player_shoot_bounded input (frameTime input) walked
                (bullets g) (bulletCount g) (canShoot g) (shootTimer g)
                Hcount) as Hc1.
  cbv zeta in Hok1, Hbal1.
  set (shot := player_shoot input (frameTime input) walked _) in *.
  set (fallen := UpdatePlayerPhysics _ _ _ walked _).
  assert (p_health fallen = p_health (player g)) as Hfallen
    by apply walked_fallen_health.
  pose proof (UpdateEnemies_balance fallen (frameTime input) (enemies g)
                (shot.1.1.1, shot.1.1.2, randCalls g) (enemyCount g) Hok1)
    as Hbal2.
  pose proof (UpdateEnemies_bounded model mapPosition cubicmap rand fallen
                (frameTime input) (enemies g)
                (shot.1.1.1, shot.1.1.2, randCalls g) (enemyCount g) Hc1)
    as Hc2.
  cbv zeta in Hbal2. cbn [fst snd] in Hbal2.
  set (steered := UpdateEnemies _ _ _ _ _ _ fallen _ _) in *.
  pose proof (UpdateBullets_active steered.2.1.1 steered.2.1.2
                (frameTime input)) as Hact.
  set (flown := UpdateBullets _ _ _) in *.
  unfold MAX_BULLETS in *.
  destruct (collisions_reserve (enemyCount g) steered.2.1.2 flown fallen
              steered.1) as [Hkept Hle].
  { unfold F32.INT_MIN. lia. }
  { unfold F32.INT_MAX. lia. }
  fold (CheckBulletCollisions model mapPosition cubicmap flown
          steered.2.1.2 fallen steered.1 (enemyCount g)) in Hkept, Hle.
  split; lia.
Qed.

Lemma Frame_bulletCount_bounded (input : Input) (g : Game) :
  (bulletCount g ≤ MAX_BULLETS)%nat →
  (bulletCount (Frame model mapPosition cubicmap rand input g)
   ≤ MAX_BULLETS)%nat.
Proof.
  intros Hc. destruct (toggled input g) eqn:Hstate.
  - rewrite (Frame_playing model mapPosition cubicmap rand input g Hstate).
    cbv zeta. cbn [bulletCount].
    apply UpdateEnemies_bounded. cbn [fst snd].
    now apply player_shoot_bounded.
  - rewrite (Frame_paused model mapPosition cubicmap rand input g Hstate).
    exact Hc.
Qed.

Lemma Frame_enemyCount (input : Input) (g : Game) :
  enemyCount (Frame model mapPosition cubicmap rand input g) = enemyCount g.
Proof.
  destruct (toggled input g) eqn:Hstate.
  - now rewrite (Frame_playing model mapPosition cubicmap rand input g Hstate).
  - now rewrite (Frame_paused model mapPosition cubicmap rand input g Hstate).
Qed.

(** A frame hands on what it was handed. *)
Lemma Frame_keeps_ok (input : Input) (g : Game) :
  game_ok g → game_ok (Frame model mapPosition cubicmap rand input g).
Proof.
  intros (Hpool & Hcount & Hn & Hlen & Hsound & Hrest & Hh & Hlive & Hfloor
          & Hres).
  pose proof (Frame_enemy_slots model mapPosition cubicmap rand input g)
    as Hslots.
  destruct (Frame_player input g) as (_ & Hplaying & Hfloor').
  destruct (Frame_reserve input g Hpool Hcount Hh Hres) as [Hh' Hres'].
  split; [now apply Frame_pool_ok|].
  split; [now apply Frame_bulletCount_bounded|].
  split; [now rewrite Frame_enemyCount|].
  split; [now rewrite <- (Forall2_length _ _ _ Hslots)|].
  split; [|split; [|split; [|split; [|split]]]].
  - apply Forall_lookup. intros j e' He'.
    destruct (Forall2_lookup_r _ _ _ _ _ Hslots He')
      as (e & He & (m & Hs & Hk) & _).
    eapply enemy_struck_sound; [exact Hk|].
    eapply enemy_steered_sound; [exact Hs|].
    exact (proj1 (Forall_lookup _ _) Hsound j e He).
  - intros j e' Hj He'.
    destruct (Forall2_lookup_r _ _ _ _ _ Hslots He')
      as (e & He & _ & Hoff).
    pose proof (Hrest j e Hj He) as Hinactive.
    now rewrite (Hoff Hinactive).
  - exact Hh'.
  - exact Hplaying.
  - now apply Hfloor'.
  - exact Hres'.
Qed.

Lemma run_keeps_ok (inputs : list Input) (g : Game) :
  game_ok g → game_ok (run model mapPosition cubicmap rand inputs g).
Proof.
  revert g. unfold run.
  induction inputs as [|input inputs IH]; intros g Hok; [exact Hok|].
  cbn [foldl]. apply IH. now apply Frame_keeps_ok.
Qed.

End KeptOk.

Lemma init_enemy_sound (enemyTexture : Texture2D) (rx rz rt : Z) :
  enemy_sound (init_enemy enemyTexture rx rz rt).
Proof. intros _. split; [reflexivity|]. right. now right. Qed.

Lemma init_game_ok (rand : nat → Z) (playerTexture enemyTexture : Texture2D) :
  game_ok (init_game rand playerTexture enemyTexture).
Proof.
  unfold init_game. cbv zeta.
  generalize (if tex_id enemyTexture =? 0 then playerTexture
              else enemyTexture).
  intros texture. unfold game_ok.
  cbn [bullets bulletCount enemyCount enemies player gameState].
  destruct (for_range_insert
              (λ i, init_enemy texture (rand (3 * i)%nat)
                      (rand (3 * i + 1)%nat) (rand (3 * i + 2)%nat))
              initial_enemyCount (replicate MAX_ENEMIES zero_enemy))
    as [Hlen Hlook].
  fold (init_enemies rand texture) in Hlen, Hlook.
  split; [split; [apply length_replicate | vm_compute; reflexivity]|].
  split; [apply Nat.le_0_l|].
  split; [reflexivity|].
  split; [now rewrite Hlen, length_replicate|].
  split; [|split; [|split; [|split; [|split]]]].
  - unfold init_enemies. apply for_range_ind.
    + apply Forall_replicate. intros H. discriminate.
    + intros i es _ Hes. apply Forall_insert; [exact Hes|].
      apply init_enemy_sound.
  - intros j e Hj He. rewrite (proj2 (Hlook j) Hj) in He.
    apply lookup_replicate in He. destruct He as [-> _]. reflexivity.
  - unfold init_player. cbn [p_health]. lia.
  - intros _. unfold init_player. cbn [p_health]. lia.
  - vm_compute. reflexivity.
  - assert (active_count (replicate MAX_BULLETS zero_bullet) = 0%nat) as ->
      by (vm_compute; reflexivity).
    unfold init_player. cbn [p_health]. lia.
Qed.

(** X14: whatever the inputs, the random numbers and the map, after any
    number of frames from the state [main] starts with the arrays are as
    the loops need them: the bullet array has its [MAX_BULLETS] slots and
    [bulletCount] never exceeds that, so every index below [bulletCount]
    is a slot of the array; every active bullet lies below [bulletCount],
    where [UpdateBullets] and [CheckBulletCollisions] look; [enemyCount]
    stays 10 within an array of [MAX_ENEMIES] slots, and no enemy at or
    beyond slot 10 is ever active. *)
Theorem run_keeps_arrays_in_order (model : Model) (mapPosition : Vector3)
    (cubicmap : Texture2D) (rand : nat → Z)
    (playerTexture enemyTexture : Texture2D) (inputs : list Input) :
  let g :=
    run model mapPosition cubicmap rand inputs
      (init_game rand playerTexture enemyTexture) in
  length (bullets g) = MAX_BULLETS
  ∧ (bulletCount g ≤ MAX_BULLETS)%nat
  ∧ (∀ i, (i < bulletCount g)%nat → is_Some (bullets g !! i))
  ∧ (∀ i b, bullets g !! i = Some b → b_active b = true →
            (i < bulletCount g)%nat)
  ∧ enemyCount g = 10%nat
  ∧ length (enemies g) = MAX_ENEMIES
  ∧ (∀ j, (j < enemyCount g)%nat → is_Some (enemies g !! j))
  ∧ (∀ j e, enemies g !! j = Some e → e_active e = true →
            (j < enemyCount g)%nat).
Proof.
  intros g.
  pose proof (run_keeps_ok model mapPosition cubicmap rand inputs _
                (init_game_ok rand playerTexture enemyTexture)) as Hok.
  fold g in Hok. clearbody g.
  destruct Hok as ([Hlen Hinv] & Hcount & Hn & Hfoes & _ & Hrest & _).
  split; [exact Hlen|]. split; [exact Hcount|]. split.
  { intros i Hi. apply lookup_lt_is_Some. rewrite Hlen. lia. }
  split.
  { intros i b Hb Hactive.
    destruct (Nat.lt_ge_cases i (bulletCount g)) as [Hlt | Hge]; [exact Hlt|].
    rewrite (proj1 (pool_inv_spec _ _) Hinv i b Hb Hge) in Hactive.
    discriminate. }
  split; [exact Hn|]. split; [exact Hfoes|]. split.
  { intros j Hj. apply lookup_lt_is_Some. rewrite Hfoes, Hn in *.
    unfold initial_enemyCount, MAX_ENEMIES in *. lia. }
  intros j e He Hactive. rewrite Hn.
  destruct (Nat.lt_ge_cases j initial_enemyCount) as [Hlt | Hge];
    [exact Hlt|].
  rewrite (Hrest j e Hge He) in Hactive. discriminate.
Qed.

(** X15: whatever the inputs, the random numbers and the map, after any
    number of frames from the state [main] starts with: every active
    enemy stands at height 0.5, where it was placed, and has 10, 20 or 30
    health, so an enemy is taken out by its third hit and by no fewer; the
    player's health is at most 100 and is above 0 whenever the game is
    playing; and the player is not below height 0.5. *)
Theorem run_keeps_actors_sound (model : Model) (mapPosition : Vector3)
    (cubicmap : Texture2D) (rand : nat → Z)
    (playerTexture enemyTexture : Texture2D) (inputs : list Input) :
  let g :=
    run model mapPosition cubicmap rand inputs
      (init_game rand playerTexture enemyTexture) in
  (∀ j e, enemies g !! j = Some e → e_active e = true →
          vy (e_position e) = f0_5
          ∧ (e_health e = 10 ∨ e_health e = 20 ∨ e_health e = 30))
  ∧ p_health (player g) ≤ 100
  ∧ (gameState g = GAME_PLAYING → 0 < p_health (player g))
  ∧ (vy (p_position (player g)) <? f0_5)%f32 = false.
Proof.
  intros g.
  pose proof (run_keeps_ok model mapPosition cubicmap rand inputs _
                (init_game_ok rand playerTexture enemyTexture)) as Hok.
  fold g in Hok. clearbody g.
  destruct Hok as (_ & _ & _ & _ & Hsound & _ & Hh & Hlive & Hfloor & _).
  split; [|split; [exact Hh | split; [exact Hlive | exact Hfloor]]].
  intros j e He Hactive.
  exact (proj1 (Forall_lookup _ _) Hsound j e He Hactive).
Qed.

(** After one idle frame of the scene the first enemy slot is there. *)
Lemma run_keeps_arrays_in_order_witness :
  is_Some
    (enemies
       (run Scene.model Scene.mapPosition Scene.cubicmap Scene.rand
          [Scene.no_input (F32.lit 1 60)]
          (init_game Scene.rand Scene.sprite Scene.sprite)) !! 0%nat).
Proof.
  apply (proj1 (proj2 (proj2 (proj2 (proj2 (proj2 (proj2
           (run_keeps_arrays_in_order Scene.model Scene.mapPosition
              Scene.cubicmap Scene.rand Scene.sprite Scene.sprite
              [Scene.no_input (F32.lit 1 60)])))))))).
  vm_compute. lia.
Defined.

(** After one idle frame of the scene the game is playing, so the player
    has health left. *)
Lemma run_keeps_actors_sound_witness :
  0 < p_health
        (player
           (run Scene.model Scene.mapPosition Scene.cubicmap Scene.rand
              [Scene.no_input (F32.lit 1 60)]
              (init_game Scene.rand Scene.sprite Scene.sprite))).
Proof.
  apply (proj1 (proj2 (proj2
           (run_keeps_actors_sound Scene.model Scene.mapPosition
              Scene.cubicmap Scene.rand Scene.sprite Scene.sprite
              [Scene.no_input (F32.lit 1 60)])))).
  vm_compute. reflexivity.
Defined.

(** X16: what one frame may do to an enemy.  The enemy is steered by
    [UpdateEnemies] and then possibly struck once by
    [CheckBulletCollisions]: an inactive enemy is left exactly as it is;
    no enemy is brought back into play, lifted or lowered, resized, or
    given another speed, cooldown or texture; its health stays, or 10 is
    taken from it once, as an [int] operation, so when [health - 10] is an
    [int] the health stays or drops by exactly 10, never more than that in
    one frame. *)
Theorem Frame_enemies (model : Model) (mapPosition : Vector3)
    (cubicmap : Texture2D) (rand : nat → Z) (input : Input) (g : Game)
    (j : nat) (e : Enemy) :
  enemies g !! j = Some e →
  ∃ e', enemies (Frame model mapPosition cubicmap rand input g) !! j = Some e'
        ∧ enemy_framed e e'
        ∧ (e_active e = false → e' = e)
        ∧ (e_active e' = true → e_active e = true)
        ∧ (e_health e' = e_health e
           ∨ e_health e' = wrap_int (e_health e - 10))
        ∧ (is_int (e_health e - 10) →
           e_health e' = e_health e ∨ e_health e' = e_health e - 10)
        ∧ vy (e_position e') = vy (e_position e)
        ∧ e_size e' = e_size e ∧ e_speed e' = e_speed e
        ∧ e_shootCooldown e' = e_shootCooldown e
        ∧ e_texture e' = e_texture e.
Proof.
  intros He.
  pose proof (Frame_enemy_slots model mapPosition cubicmap rand input g)
    as Hslots.
  destruct (Forall2_lookup_l _ _ _ _ _ Hslots He)
    as (e' & He' & Hframed & Hoff).
  exists e'. split; [exact He'|]. split; [exact Hframed|].
  split; [exact Hoff|].
  destruct Hframed as (m & (Hy & Hsize & Hspeed & Htex & Hcool & Hact & Hh)
                       & Hstruck).
  rewrite <- Hy, <- Hsize, <- Hspeed, <- Htex, <- Hcool, <- Hact, <- Hh.
  clear Hy Hsize Hspeed Htex Hcool Hact Hh Hoff He He' Hslots.
  destruct Hstruck as [-> | (Hactive & Hhit & ->)].
  - split; [auto|]. split; [now left|]. split; [now left|].
    now repeat split.
  - split; [auto|]. unfold damage_enemy. rewrite Hhit.
    destruct m as [? ? ? ? ? ? act h hit ?]. cbn [negb e_health set_e_health
      set_e_isHit set_e_hitTimer].
    assert (is_int (h - 10) → wrap_int (h - 10) = h - 10) as Hroom
      by apply wrap_int_id.
    destruct (wrap_int (h - 10) <=? 0); cbn; (split; [now right|]);
      (split; [intros Hint; right; now apply Hroom|]); now repeat split.
Qed.

(** The scene's enemy, with the player's bullet inside its box, loses 10
    of its 30 health in the frame or none. *)
Lemma Frame_enemies_witness :
  let g :=
    mkGame (Scene.player_at (F32.of_int 6) f0_5 f1_0) [Shots.foe] 1
      [Shots.at_enemy] 1 GAME_PLAYING true F32.zero 0 in
  ∃ e',
    enemies
      (Frame Scene.model Scene.mapPosition Scene.cubicmap Scene.rand
         (Scene.no_input (F32.lit 1 60)) g) !! 0%nat = Some e'
    ∧ enemy_framed Shots.foe e'
    ∧ (e_health e' = e_health Shots.foe
       ∨ e_health e' = e_health Shots.foe - 10).
Proof.
  intros g.
  destruct (Frame_enemies Scene.model Scene.mapPosition Scene.cubicmap
              Scene.rand (Scene.no_input (F32.lit 1 60)) g 0 Shots.foe
              eq_refl) as (e' & He' & Hframed & _ & _ & _ & Hroom & _).
  exists e'. split; [exact He'|]. split; [exact Hframed|].
  apply Hroom. split; apply Z.leb_le; vm_compute; reflexivity.
Defined.

(** X17: what one frame may add.  A frame keeps [enemyCount] and the
    lengths of both arrays; [bulletCount] never goes down and grows by at
    most one for the player and one for each of the [enemyCount]
    enemies; at most [enemyCount] random numbers are drawn, one for each
    enemy that fires. *)
Theorem Frame_budget (model : Model) (mapPosition : Vector3)
    (cubicmap : Texture2D) (rand : nat → Z) (input : Input) (g : Game) :
  let g' := Frame model mapPosition cubicmap rand input g in
  enemyCount g' = enemyCount g
  ∧ length (enemies g') = length (enemies g)
  ∧ length (bullets g') = length (bullets g)
  ∧ (bulletCount g ≤ bulletCount g' ≤ bulletCount g + enemyCount g + 1)%nat
  ∧ (randCalls g ≤ randCalls g' ≤ randCalls g + enemyCount g)%nat
  ∧ (bulletCount g' - bulletCount g
     ≤ randCalls g' - randCalls g + 1)%nat.
Proof.
  intros g'. subst g'.
  destruct (toggled input g) eqn:Hstate.
  - rewrite (Frame_playing model mapPosition cubicmap rand input g Hstate).
    cbv zeta. cbn [enemyCount enemies bullets bulletCount randCalls].
    set (walked := player_jump input _).
    pose proof (player_shoot_counters input (frameTime input) walked
                  (bullets g) (bulletCount g) (canShoot g) (shootTimer g))
      as [Hshot Hpool].
    cbv zeta in Hshot, Hpool.
    set (shot := player_shoot input (frameTime input) walked _) in *.
    set (fallen := UpdatePlayerPhysics _ _ _ walked _).
    destruct (UpdateEnemies_counters model mapPosition cubicmap rand fallen
                (frameTime input) (enemies g)
                (shot.1.1.1, shot.1.1.2, randCalls g) (enemyCount g))
      as (Hup & Hcalls & Hpaid & Hlen).
    pose proof (UpdateEnemies_slots model mapPosition cubicmap rand fallen
                  (frameTime input) (enemies g)
                  (shot.1.1.1, shot.1.1.2, randCalls g) (enemyCount g))
      as Hsteered.
    fold (UpdateEnemies model mapPosition cubicmap rand (enemies g)
            (enemyCount g) fallen (shot.1.1.1, shot.1.1.2, randCalls g)
            (frameTime input)) in Hup, Hcalls, Hpaid, Hlen.
    set (steered := UpdateEnemies _ _ _ _ _ _ fallen _ _) in *.
    cbn [fst snd] in Hup, Hcalls, Hpaid, Hlen.
    set (flown := UpdateBullets _ _ _).
    destruct (collisions_relation model mapPosition cubicmap (enemyCount g)
                steered.2.1.2 flown fallen steered.1)
      as (Hspent & _ & Hstruck & _).
    fold (CheckBulletCollisions model mapPosition cubicmap flown
            steered.2.1.2 fallen steered.1 (enemyCount g)) in Hspent, Hstruck.
    split; [reflexivity|]. split.
    { rewrite <- (Forall2_length _ _ _ Hstruck).
      now rewrite <- (Forall2_length _ _ _ Hsteered). }
    split.
    { rewrite <- (Forall2_length _ _ _ Hspent). subst flown.
      now rewrite UpdateBullets_length, Hlen. }
    split; [lia|]. split; lia.
  - rewrite (Frame_paused model mapPosition cubicmap rand input g Hstate).
    cbn [enemyCount enemies bullets bulletCount randCalls].
    split; [reflexivity|]. split; [reflexivity|]. split; [reflexivity|].
    split; [lia|]. split; lia.
Qed.

(** ** The player's rate of fire *)

Lemma no_new_shot_refl (b : Bullet) : no_new_shot b b.
Proof. intros Ha Hp. now repeat split. Qed.

Lemma no_new_shot_trans (a b c : Bullet) :
  no_new_shot a b → no_new_shot b c → no_new_shot a c.
Proof.
  intros Hab Hbc Ha Hp. destruct (Hbc Ha Hp) as (Ha' & Hp' & Hd).
  destruct (Hab Ha' Hp') as (Ha'' & Hp'' & Hd').
  split; [exact Ha''|]. split; [exact Hp''|]. now rewrite Hd.
Qed.

Lemma no_new_shot_diag (pool : list Bullet) : Forall2 no_new_shot pool pool.
Proof.
  apply Forall_Forall2_diag, Forall_forall. intros b _.
  apply no_new_shot_refl.
Qed.

Lemma no_new_shot_chain (l k m : list Bullet) :
  Forall2 no_new_shot l k → Forall2 no_new_shot k m →
  Forall2 no_new_shot l m.
Proof. apply Forall2_trans. exact no_new_shot_trans. Qed.

(** A shot of an enemy is no new shot of the player. *)
Lemma ShootBullet_no_new_shot (pool : list Bullet) (count : nat)
    (position direction : Vector3) :
  Forall2 no_new_shot pool (ShootBullet pool count position direction false).1.
Proof.
  unfold ShootBullet.
  destruct (MAX_BULLETS <=? count)%nat; [apply no_new_shot_diag|].
  destruct (match first_inactive _ _ with Some i => _ | None => _ end)
    as [k count'].
  cbn [fst].
  destruct (pool !! k) as [b|] eqn:Hk.
  - apply (Forall2_insert_r _ _ _ _ b); [apply no_new_shot_diag | exact Hk|].
    intros _ Hp. discriminate.
  - rewrite list_insert_ge by now apply lookup_ge_None.
    apply no_new_shot_diag.
Qed.

Lemma advance_no_new_shot (b : Bullet) : no_new_shot b (advance_bullet b).
Proof.
  unfold advance_bullet.
  destruct (b_active b) eqn:Hactive; [|apply no_new_shot_refl].
  cbv zeta. destruct (_ >? _)%f32; intros Ha Hp.
  - discriminate.
  - now repeat split.
Qed.

Lemma UpdateBullets_no_new_shot (pool : list Bullet) (count : nat)
    (deltaTime : float) :
  Forall2 no_new_shot pool (UpdateBullets pool count deltaTime).
Proof.
  apply Forall2_same_length_lookup_2.
  - now rewrite UpdateBullets_length.
  - intros i b b' Hb Hb'. rewrite UpdateBullets_lookup, Hb in Hb'.
    destruct (decide _); cbn in Hb'; injection Hb' as <-.
    + apply advance_no_new_shot.
    + apply no_new_shot_refl.
Qed.

Lemma bullet_spent_no_new_shot (b b' : Bullet) :
  bullet_spent b b' → no_new_shot b b'.
Proof.
  intros [-> | [_ ->]]; [apply no_new_shot_refl|].
  intros Ha. discriminate.
Qed.

Section FireRate.

Variable model : Model.
Variable mapPosition : Vector3.
Variable cubicmap : Texture2D.
Variable rand : nat → Z.

Lemma UpdateEnemies_no_new_shot (shooter : Player) (deltaTime : float)
    (foes : list Enemy) (shots : Shots) (n : nat) :
  Forall2 no_new_shot shots.1.1
    (UpdateEnemies model mapPosition cubicmap rand foes n shooter shots
       deltaTime).2.1.1.
Proof.
  unfold UpdateEnemies.
  apply (for_range_ind
           (λ s : list Enemy * Shots, Forall2 no_new_shot shots.1.1 s.2.1.1));
    [apply no_new_shot_diag|].
  intros i [es [[bs bc] calls]] _ Hs. cbn [fst snd] in Hs.
  unfold enemies_body.
  destruct (es !! i) as [e|]; [|exact Hs].
  destruct (e_active e); [|exact Hs].
  destruct (UpdateEnemy_spec model mapPosition cubicmap rand shooter
              deltaTime e bs bc calls) as [_ Hshoot].
  destruct (UpdateEnemy _ _ _ _ _ _ e _) as [e' sh'].
  cbn [fst snd] in *.
  destruct (_ && _).
  - destruct Hshoot as [_ ->]. cbn [fst snd].
    eapply no_new_shot_chain; [exact Hs|]. apply ShootBullet_no_new_shot.
  - destruct Hshoot as [_ ->]. exact Hs.
Qed.

(** The stages of a frame after the player's own shot add no shot of the
    player. *)
Lemma later_stages_no_new_shot (shooter : Player) (deltaTime : float)
    (foes : list Enemy) (shots : Shots) (n : nat) :
  let steered :=
    UpdateEnemies model mapPosition cubicmap rand foes n shooter shots
      deltaTime in
  Forall2 no_new_shot shots.1.1
    (CheckBulletCollisions model mapPosition cubicmap
       (UpdateBullets steered.2.1.1 steered.2.1.2 deltaTime) steered.2.1.2
       shooter steered.1 n).1.1.
Proof.
  intros steered.
  eapply no_new_shot_chain; [apply UpdateEnemies_no_new_shot|].
  fold steered.
  eapply no_new_shot_chain; [apply UpdateBullets_no_new_shot|].
  unfold CheckBulletCollisions.
  match goal with
  | |- Forall2 _ ?b (for_range ?k (collisions_body ?m ?mp ?c ?n) (_, ?p, ?es)).1.1 =>
      destruct (collisions_relation m mp c n k b p es) as (Hspent & _)
  end.
  eapply Forall2_impl; [exact Hspent|]. exact bullet_spent_no_new_shot.
Qed.

(** The player's part of the shooting state after [player_shoot]. *)
Lemma player_shoot_cases (input : Input) (deltaTime : float)
    (shooter : Player) (pool : list Bullet) (count : nat) (can : bool)
    (timer : float) :
  let after := player_shoot input deltaTime shooter (pool, count, can, timer) in
  let charged := can || (timer - deltaTime <=? F32.zero)%f32 in
  if pressed_MOUSE_LEFT input && charged
  then after.1.2 = false ∧ after.2 = shootCooldown
       ∧ after.1.1
         = ShootBullet pool count (raise_half (p_position shooter))
             (player_aim (mouseRay input) shooter) true
  else after.1.1 = (pool, count) ∧ after.1.2 = charged
       ∧ after.2 = if can then timer else (timer - deltaTime)%f32.
Proof.
  unfold player_shoot.
  destruct can; cbn [negb orb].
  - destruct (pressed_MOUSE_LEFT input); cbn [andb]; [|now repeat split].
    now destruct (ShootBullet _ _ _ _ _) as [bs bc].
  - destruct (_ <=? _)%f32;
      (destruct (pressed_MOUSE_LEFT input); cbn [andb];
       [|now repeat split]);
      try now destruct (ShootBullet _ _ _ _ _) as [bs bc].
    now repeat split.
Qed.

End FireRate.

(** X18: the player's rate of fire.  In a frame of play in which the
    player is not ready to shoot ([canShoot] is off and the cooldown timer,
    lowered by the frame time, is still above 0), no shot of the player
    appears in any slot whatever the mouse does, [canShoot] stays off and
    the timer is lowered by the frame time.  In a frame in which he is
    ready and the button is pressed, [canShoot] is switched off and the
    timer is set to the cooldown of 0.5.  Without the button no shot of the
    player appears either, and [canShoot] is on afterwards exactly when he
    was ready. *)
Theorem player_fire_rate (model : Model) (mapPosition : Vector3)
    (cubicmap : Texture2D) (rand : nat → Z) (input : Input) (g : Game) :
  toggled input g = GAME_PLAYING →
  let g' := Frame model mapPosition cubicmap rand input g in
  (ready input g = false →
   Forall2 no_new_shot (bullets g) (bullets g')
   ∧ canShoot g' = false
   ∧ shootTimer g' = (shootTimer g - frameTime input)%f32)
  ∧ (ready input g = true → pressed_MOUSE_LEFT input = true →
     canShoot g' = false ∧ shootTimer g' = shootCooldown)
  ∧ (pressed_MOUSE_LEFT input = false →
     Forall2 no_new_shot (bullets g) (bullets g')
     ∧ canShoot g' = ready input g).
Proof.
  intros Hstate g'. subst g'.
  rewrite (Frame_playing model mapPosition cubicmap rand input g Hstate).
  cbv zeta. cbn [bullets canShoot shootTimer].
  set (walked := player_jump input _).
  pose proof (player_shoot_cases input (frameTime input) walked (bullets g)
                (bulletCount g) (canShoot g) (shootTimer g)) as Hshot.
  cbv zeta in Hshot. fold (ready input g) in Hshot.
  set (shot := player_shoot input (frameTime input) walked _) in *.
  pose proof (later_stages_no_new_shot model mapPosition cubicmap rand
                (UpdatePlayerPhysics model mapPosition cubicmap walked
                   (frameTime input))
                (frameTime input) (enemies g)
                (shot.1.1.1, shot.1.1.2, randCalls g) (enemyCount g))
    as Hlater.
  cbv zeta in Hlater. cbn [fst snd] in Hlater.
  split; [|split].
  - intros Hready. rewrite Hready, andb_false_r in Hshot.
    destruct Hshot as (Hpool & Hcan & Htimer).
    assert (shot.1.1.1 = bullets g) as Hsame by now rewrite Hpool.
    split; [rewrite <- Hsame at 1; exact Hlater|]. split; [exact Hcan|].
    rewrite Htimer. unfold ready in Hready.
    now destruct (canShoot g).
  - intros Hready Hpressed. rewrite Hready, Hpressed in Hshot.
    destruct Hshot as (Hcan & Htimer & _). now split.
  - intros Hidle. rewrite Hidle in Hshot. cbn [andb] in Hshot.
    destruct Hshot as (Hpool & Hcan & _).
    assert (shot.1.1.1 = bullets g) as Hsame by now rewrite Hpool.
    split; [rewrite <- Hsame at 1; exact Hlater | exact Hcan].
Qed.

(** The scene's player has just shot: in the next frame, a sixtieth of a
    second later, a click places no shot of his. *)
Lemma player_fire_rate_witness :
  let g :=
    mkGame Shots.target [] 0 Scene.empty_pool 0 GAME_PLAYING false
      shootCooldown 0 in
  let input :=
    mkInput (F32.lit 1 60) false false false false false false false false
      false false true Scene.no_ray in
  canShoot
    (Frame Scene.model Scene.mapPosition Scene.cubicmap Scene.rand input g)
  = false.
Proof.
  intros g input.
  apply (proj1 (player_fire_rate Scene.model Scene.mapPosition
                  Scene.cubicmap Scene.rand input g eq_refl)).
  vm_compute. reflexivity.
Defined.

(** ** Start-up *)

(** A property of all values in a range holds of what [GetRandomValue]
    returns for that range. *)
Lemma GetRandomValue_cases (P : Z → bool) (r min max : Z) :
  min ≤ max →
  forallb (λ n, P (Z.of_nat n + min)) (seq 0 (Z.to_nat (max - min + 1)))
  = true →
  P (GetRandomValue r min max) = true.
Proof.
  intros Hle Hall. rewrite forallb_forall in Hall. unfold GetRandomValue.
  rewrite Z.abs_eq by lia.
  assert (0 ≤ r mod (max - min + 1) < max - min + 1) as Hr
    by (apply Z.mod_pos_bound; lia).
  specialize (Hall (Z.to_nat (r mod (max - min + 1)))).
  rewrite Z2Nat.id in Hall by lia. apply Hall, in_seq. lia.
Qed.

(** X19: the enemies at start-up, whatever [rand()] returns.  The array
    has its [MAX_ENEMIES] slots. Each of the first 10 holds an active enemy
    with 30 health, outside its hit window, at height 0.5, with X and Z
    between 0.5 and 10.5, a cooldown of 2 and a shoot timer between 0 and
    2; every other slot is zeroed, so inactive. *)
Theorem init_enemies_placed (rand : nat → Z) (enemyTexture : Texture2D)
    (j : nat) (e : Enemy) :
  init_enemies rand enemyTexture !! j = Some e →
  length (init_enemies rand enemyTexture) = MAX_ENEMIES
  ∧ if decide (j < initial_enemyCount)%nat
    then e_active e = true ∧ e_health e = 30 ∧ e_isHit e = false
         ∧ vy (e_position e) = f0_5
         ∧ (f0_5 <=? vx (e_position e))%f32 = true
         ∧ (vx (e_position e) <=? F32.lit 21 2)%f32 = true
         ∧ (f0_5 <=? vz (e_position e))%f32 = true
         ∧ (vz (e_position e) <=? F32.lit 21 2)%f32 = true
         ∧ e_shootCooldown e = ENEMY_SHOOT_COOLDOWN
         ∧ (F32.zero <=? e_shootTimer e)%f32 = true
         ∧ (e_shootTimer e <=? ENEMY_SHOOT_COOLDOWN)%f32 = true
         ∧ e_texture e = enemyTexture
    else e = zero_enemy.
Proof.
  intros He.
  destruct (for_range_insert
              (λ i, init_enemy enemyTexture (rand (3 * i)%nat)
                      (rand (3 * i + 1)%nat) (rand (3 * i + 2)%nat))
              initial_enemyCount (replicate MAX_ENEMIES zero_enemy))
    as [Hlen Hlook].
  fold (init_enemies rand enemyTexture) in Hlen, Hlook.
  rewrite length_replicate in Hlen, Hlook. split; [exact Hlen|].
  assert (j < MAX_ENEMIES)%nat as Hj
    by (rewrite <- Hlen; apply lookup_lt_is_Some; now exists e).
  destruct (Hlook j) as [Hlt Hge].
  destruct (decide (j < initial_enemyCount)%nat) as [Hin | Hout].
  - rewrite (Hlt Hin Hj) in He. injection He as <-.
    unfold init_enemy. cbn [e_active e_health e_isHit e_position vx vy vz
      e_shootCooldown e_shootTimer e_texture].
    pose proof (GetRandomValue_cases
                  (λ k, (f0_5 <=? F32.of_int k + f0_5)%f32
                        && (F32.of_int k + f0_5 <=? F32.lit 21 2)%f32)
                  (rand (3 * j)%nat) 0 10) as Hx.
    pose proof (GetRandomValue_cases
                  (λ k, (f0_5 <=? F32.of_int k + f0_5)%f32
                        && (F32.of_int k + f0_5 <=? F32.lit 21 2)%f32)
                  (rand (3 * j + 1)%nat) 0 10) as Hz.
    pose proof (GetRandomValue_cases
                  (λ k, (F32.zero
                         <=? F32.of_int k / f100_0 * ENEMY_SHOOT_COOLDOWN)%f32
                        && (F32.of_int k / f100_0 * ENEMY_SHOOT_COOLDOWN
                            <=? ENEMY_SHOOT_COOLDOWN)%f32)
                  (rand (3 * j + 2)%nat) 0 100) as Ht.
    cbv beta in Hx, Hz, Ht.
    apply andb_true_iff in Hx; [|lia | vm_compute; reflexivity].
    apply andb_true_iff in Hz; [|lia | vm_compute; reflexivity].
    apply andb_true_iff in Ht; [|lia | vm_compute; reflexivity].
    destruct Hx as [Hx1 Hx2], Hz as [Hz1 Hz2], Ht as [Ht1 Ht2].
    split; [reflexivity|]. split; [reflexivity|]. split; [reflexivity|].
    split; [reflexivity|]. split; [exact Hx1|]. split; [exact Hx2|].
    split; [exact Hz1|]. split; [exact Hz2|]. split; [reflexivity|].
    split; [exact Ht1|]. split; [exact Ht2 | reflexivity].
  - rewrite (Hge ltac:(lia)) in He. apply lookup_replicate in He.
    now destruct He as [-> _].
Qed.

(** With the scene's [rand()], which always returns 0, the first enemy is
    placed at X = Z = 0.5. *)
Lemma init_enemies_placed_witness :
  ∃ e, init_enemies Scene.rand Scene.sprite !! 0%nat = Some e
       ∧ e_active e = true ∧ e_health e = 30.
Proof.
  eexists. split; [reflexivity|].
  pose proof (init_enemies_placed Scene.rand Scene.sprite 0 _ eq_refl) as H.
  cbn [decide] in H. destruct H as (_ & H). 
  destruct (decide _) as [_ | Hno] in H; [|exfalso; apply Hno; vm_compute; lia].
  destruct H as (Ha & Hh & _). split; [exact Ha | exact Hh].
Defined.

(** ** The camera *)

Lemma zoom_camera_clamps (mouseWheel : float) (camera : Camera) :
  F32.neqb mouseWheel F32.zero = true →
  zoom_range (zoom_camera mouseWheel camera).
Proof.
  intros Hwheel. unfold zoom_camera, zoom_range. rewrite Hwheel. cbv zeta.
  cbn [cam_position set_vy vy].
  set (y := (vy (cam_position camera) - mouseWheel * f2_0)%f32).
  destruct (y <? f5_0)%f32 eqn:Hlow.
  - change (f5_0 >? f30_0)%f32 with false. cbv iota. split; reflexivity.
  - destruct (y >? f30_0)%f32 eqn:Hhigh.
    + split; reflexivity.
    + split; [exact Hlow | exact Hhigh].
Qed.

(** X20: the camera over a pass of the loop.  When the mouse wheel has
    moved, the camera's height ends neither below 5 nor above 30, whatever
    it was; when it has not, the height is unchanged: following the player
    never changes it.  So a height within the range stays within it, as
    the start-up height of 18 is.  While the game is playing the camera
    looks at the player from 10 units behind him in Z; while it is paused
    only the zoom moves it.  Up vector, field of view and projection are
    never changed. *)
Theorem camera_frame_zoom (playing : bool) (mouseWheel : float)
    (player : Player) (camera : Camera) :
  let camera' := camera_frame playing mouseWheel player camera in
  (F32.neqb mouseWheel F32.zero = true → zoom_range camera')
  ∧ (F32.neqb mouseWheel F32.zero = false →
     vy (cam_position camera') = vy (cam_position camera))
  ∧ (zoom_range camera → zoom_range camera')
  ∧ zoom_range init_camera
  ∧ (playing = true →
     cam_target camera' = p_position player
     ∧ vx (cam_position camera') = vx (p_position player)
     ∧ vz (cam_position camera') = (vz (p_position player) + f10_0)%f32)
  ∧ (playing = false →
     cam_target camera' = cam_target camera
     ∧ vx (cam_position camera') = vx (cam_position camera)
     ∧ vz (cam_position camera') = vz (cam_position camera))
  ∧ cam_up camera' = cam_up camera ∧ cam_fovy camera' = cam_fovy camera
  ∧ cam_projection camera' = cam_projection camera.
Proof.
  intros camera'. subst camera'. unfold camera_frame.
  set (followed := if playing then UpdateGameCamera camera player else camera).
  assert (vy (cam_position followed) = vy (cam_position camera)) as Hheight
    by (subst followed; now destruct playing).
  assert (cam_up followed = cam_up camera
          ∧ cam_fovy followed = cam_fovy camera
          ∧ cam_projection followed = cam_projection camera) as Hkept
    by (subst followed; now destruct playing).
  assert (∀ c, cam_target (zoom_camera mouseWheel c) = cam_target c
               ∧ vx (cam_position (zoom_camera mouseWheel c))
                 = vx (cam_position c)
               ∧ vz (cam_position (zoom_camera mouseWheel c))
                 = vz (cam_position c)
               ∧ cam_up (zoom_camera mouseWheel c) = cam_up c
               ∧ cam_fovy (zoom_camera mouseWheel c) = cam_fovy c
               ∧ cam_projection (zoom_camera mouseWheel c)
                 = cam_projection c) as Hzoom.
  { intros c. unfold zoom_camera.
    destruct (F32.neqb mouseWheel F32.zero); [|now repeat split].
    cbv zeta. destruct (cam_position c). now repeat split. }
  destruct (Hzoom followed) as (Ht & Hx & Hz & Hup & Hfov & Hproj).
  assert (F32.neqb mouseWheel F32.zero = false →
          vy (cam_position (zoom_camera mouseWheel followed))
          = vy (cam_position camera)) as Hstill.
  { intros Hwheel. unfold zoom_camera. now rewrite Hwheel. }
  split; [apply zoom_camera_clamps|]. split; [exact Hstill|]. split.
  { intros Hrange. destruct (F32.neqb mouseWheel F32.zero) eqn:Hwheel.
    - now apply zoom_camera_clamps.
    - unfold zoom_range. now rewrite (Hstill eq_refl). }
  split; [split; vm_compute; reflexivity|]. split.
  { intros ->. rewrite Ht, Hx, Hz. subst followed. now repeat split. }
  split.
  { intros ->. rewrite Ht, Hx, Hz. subst followed. now repeat split. }
  rewrite Hup, Hfov, Hproj. exact Hkept.
Qed.

(** Scrolling up by 100 notches from the start-up height of 18 leaves the
    camera within the range. *)
Lemma camera_frame_zoom_witness :
  zoom_range (camera_frame true (F32.of_int 100) Shots.target init_camera).
Proof.
  apply (proj1 (camera_frame_zoom true (F32.of_int 100) Shots.target
                  init_camera)).
  vm_compute. reflexivity.
Defined.

(** ** What is left after a pass of [CheckBulletCollisions] *)

Lemma damage_player_box (p : Player) :
  GetPlayerBoundingBox (damage_player p) = GetPlayerBoundingBox p.
Proof. unfold damage_player. now destruct (negb (p_isHit p)). Qed.

Lemma damage_enemy_strikes (b : Bullet) (e : Enemy) :
  strikes b e = false → strikes b (damage_enemy e) = false.
Proof.
  unfold strikes, damage_enemy. intros Hmiss.
  destruct (negb (e_isHit e)); [|exact Hmiss].
  cbv zeta. destruct (_ <=? 0); [reflexivity|].
  destruct e as [? ? ? ? ? ? act ? ? ?]. exact Hmiss.
Qed.

Section Resolved.

Variable model : Model.
Variable mapPosition : Vector3.
Variable cubicmap : Texture2D.

(** After [n] iterations the bullets of the first [n] slots are at rest
    with respect to the player and the enemies as they are by then. *)
Lemma collisions_at_rest (enemyCount n : nat) (pool : list Bullet)
    (target : Player) (foes : list Enemy) :
  let s :=
    for_range n (collisions_body model mapPosition cubicmap enemyCount)
      (pool, target, foes) in
  ∀ i b, (i < n)%nat → s.1.1 !! i = Some b →
         at_rest model mapPosition cubicmap enemyCount s.1.2 s.2 b.
Proof.
  induction n as [|n IH]; cbv zeta in *; [intros i b Hi; lia|].
  rewrite for_range_S.
  destruct (for_range n _ _) as [[bs p] es]. cbn [fst snd] in IH.
  unfold collisions_body.
  assert (∀ i b, (i < S n)%nat → bs !! i = Some b →
                 (i = n → b_active b = false) →
                 at_rest model mapPosition cubicmap enemyCount p es b)
    as Hkept.
  { intros i b Hi Hb Hn. destruct (decide (i = n)) as [-> | Hne].
    - intros Hactive. rewrite (Hn eq_refl) in Hactive. discriminate.
    - apply (IH i b); [lia | exact Hb]. }
  destruct (bs !! n) as [bn|] eqn:Hbn.
  2: { cbn [fst snd]. intros i b Hi Hb. apply (Hkept i b Hi Hb).
       intros ->. congruence. }
  destruct (b_active bn) eqn:Hactive.
  2: { cbn [fst snd]. intros i b Hi Hb. apply (Hkept i b Hi Hb).
       intros ->. congruence. }
  assert (∀ i b, (i < S n)%nat →
                 <[n := set_b_active false bn]> bs !! i = Some b →
                 bs !! i = Some b ∧ i ≠ n ∨ b_active b = false) as Hoff.
  { intros i b Hi Hb. destruct (decide (i = n)) as [-> | Hne].
    - right. rewrite list_lookup_insert_eq in Hb
        by (apply lookup_lt_is_Some; now exists bn).
      now injection Hb as <-.
    - left. now rewrite list_lookup_insert_ne in Hb by auto. }
  destruct (check_bullet_cases model mapPosition cubicmap enemyCount bn p es)
    as [[_ Heq] | [(_ & _ & _ & Heq) | [(Hmap & Hmiss & Heq)
        | (_ & _ & j & e & _ & He & _ & _ & Heq)]]];
    rewrite Heq; cbn [fst snd]; intros i b Hi Hb.
  - destruct (Hoff i b Hi Hb) as [[Hb' Hne] | Hdead].
    + apply (Hkept i b Hi Hb'). now intros ->.
    + intros Hlive. congruence.
  - destruct (Hoff i b Hi Hb) as [[Hb' Hne] | Hdead].
    + unfold at_rest. rewrite damage_player_box.
      apply (Hkept i b Hi Hb'). now intros ->.
    + intros Hlive. congruence.
  - destruct (decide (i = n)) as [-> | Hne].
    + rewrite list_lookup_insert_eq in Hb
        by (apply lookup_lt_is_Some; now exists bn).
      injection Hb as <-. intros _. split; [exact Hmap | exact Hmiss].
    + rewrite list_lookup_insert_ne in Hb by auto.
      apply (Hkept i b Hi Hb). now intros ->.
  - destruct (Hoff i b Hi Hb) as [[Hb' Hne] | Hdead].
    + assert (at_rest model mapPosition cubicmap enemyCount p es b) as Hrest
        by (apply (Hkept i b Hi Hb'); now intros ->).
      intros Hlive. destruct (Hrest Hlive) as [Hm Hrest']. split; [exact Hm|].
      destruct (b_fromPlayer b); [|exact Hrest'].
      intros k e' Hk He'. destruct (decide (k = j)) as [-> | Hkj].
      * rewrite list_lookup_insert_eq in He'
          by (apply lookup_lt_is_Some; now exists e).
        injection He' as <-. apply damage_enemy_strikes.
        now apply (Hrest' j e).
      * rewrite list_lookup_insert_ne in He' by auto.
        now apply (Hrest' k e').
    + intros Hlive. congruence.
Qed.

End Resolved.

(** X21: a pass of [CheckBulletCollisions] leaves no collision behind.
    Every bullet below [bulletCount] that is still active after the pass
    is clear of the map; if an enemy shot it, it does not touch the
    player's box; if the player shot it, it touches the box of no active
    enemy below [enemyCount]; all this with the player and the enemies as
    they are after the pass. *)
Theorem pass_resolves_collisions (model : Model) (mapPosition : Vector3)
    (cubicmap : Texture2D) (pool : list Bullet) (count : nat)
    (target : Player) (foes : list Enemy) (foeCount : nat) (i : nat)
    (b : Bullet) :
  let pass :=
    CheckBulletCollisions model mapPosition cubicmap pool count target foes
      foeCount in
  (i < count)%nat → pass.1.1 !! i = Some b → b_active b = true →
  CheckCollisionBulletWithMap model mapPosition cubicmap b = false
  ∧ (b_fromPlayer b = false →
     touches b (GetPlayerBoundingBox pass.1.2) = false)
  ∧ (b_fromPlayer b = true →
     ∀ k e, (k < foeCount)%nat → pass.2 !! k = Some e →
            strikes b e = false).
Proof.
  intros pass Hi Hb Hlive. subst pass. unfold CheckBulletCollisions in *.
  destruct (collisions_at_rest model mapPosition cubicmap foeCount count
              pool target foes i b Hi Hb Hlive) as [Hmap Hmiss].
  split; [exact Hmap|]. split.
  - intros Hfrom. now rewrite Hfrom in Hmiss.
  - intros Hfrom. now rewrite Hfrom in Hmiss.
Qed.

(** An enemy's bullet that is away from the player, who stands at
    [(3, 0.5, 3)], is still active after the pass and does not touch
    him. *)
Lemma pass_resolves_collisions_witness :
  touches Shots.at_player
    (GetPlayerBoundingBox
       (CheckBulletCollisions Scene.model Scene.mapPosition Scene.cubicmap
          [Shots.at_player] 1 (Scene.player_at f3_0 f0_5 f3_0) [] 0).1.2)
  = false.
Proof.
  assert ((CheckBulletCollisions Scene.model Scene.mapPosition Scene.cubicmap
             [Shots.at_player] 1 (Scene.player_at f3_0 f0_5 f3_0) [] 0).1.1
          !! 0%nat = Some Shots.at_player) as Hslot
    by (vm_compute; reflexivity).
  destruct (pass_resolves_collisions Scene.model Scene.mapPosition
              Scene.cubicmap [Shots.at_player] 1
              (Scene.player_at f3_0 f0_5 f3_0) [] 0 0 Shots.at_player
              (Nat.lt_0_succ 0) Hslot eq_refl) as (_ & Hplayer & _).
  exact (Hplayer eq_refl).
Defined.

(** ** The player's and the enemy's map query compared *)

Section TwoQueries.

Variable model : Model.
Variable mapPosition : Vector3.
Variable cubicmap : Texture2D.

(** The scan of the 3x3 block sets the player's collision flag exactly
    when a wall cell meets his box and his base is not near the top of the
    cells. *)
Lemma scan_collision (player : Player) (box : BoundingBox) (cellX cellZ : Z)
    (cells : list (Z * Z)) (st : bool * bool) :
  fst (foldl (player_cell mapPosition cubicmap player box cellX cellZ) st
         cells)
  = fst st
    || negb (near_top mapPosition player)
       && wall_overlap mapPosition cubicmap box cellX cellZ cells.
Proof.
  unfold wall_overlap, near_top.
  revert st. induction cells as [|xz cells IH]; intros [c g].
  - cbn [foldl existsb fst]. now rewrite andb_false_r, orb_false_r.
  - cbn [foldl existsb]. rewrite IH. unfold player_cell, SolidCell.
    cbv zeta.
    destruct (InsideMap _ _ _); cbn [negb andb orb fst]; [|reflexivity].
    destruct (IsWall _); cbn [negb andb orb fst]; [|reflexivity].
    destruct (CheckCollisionBoxes _ _); cbn [negb andb orb fst];
      [|reflexivity].
    destruct (F32.fabs _ <? f0_1)%f32; cbn [negb andb orb fst].
    + reflexivity.
    + now rewrite orb_true_r.
Qed.

Lemma boxes_agree (player : Player) (enemy : Enemy) :
  p_position player = e_position enemy → p_size player = e_size enemy →
  GetPlayerBoundingBox player = GetEnemyBoundingBox enemy.
Proof.
  intros Hp Hs. unfold GetPlayerBoundingBox, GetEnemyBoundingBox.
  now rewrite Hp, Hs.
Qed.

Lemma enemy_blocked_unfold (enemy : Enemy) :
  enemy_blocked model mapPosition cubicmap enemy
  = if negb (CheckCollisionBoxes (GetEnemyBoundingBox enemy)
               (MapBounds model mapPosition))
    then true
    else wall_overlap mapPosition cubicmap (GetEnemyBoundingBox enemy)
           (F32.to_int (vx (e_position enemy) - vx mapPosition)%f32)
           (F32.to_int (vz (e_position enemy) - vz mapPosition)%f32)
           scan_order.
Proof. reflexivity. Qed.

End TwoQueries.

(** X22: the player's and the enemy's map query, which are two copies of
    the same scan, compared on a player and an enemy of the same position
    and size.  Outside the box of the whole map both report a collision.
    Inside it they report the same unless the player's base is within 0.1
    of the top of the cells: there the player's query takes every wall for
    ground and reports no collision at all, whatever the enemy's query
    says. *)
Theorem map_queries_compared (model : Model) (mapPosition : Vector3)
    (cubicmap : Texture2D) (player : Player) (enemy : Enemy) :
  p_position player = e_position enemy → p_size player = e_size enemy →
  let inside :=
    CheckCollisionBoxes (GetPlayerBoundingBox player)
      (MapBounds model mapPosition) in
  (inside = false →
   player_blocked model mapPosition cubicmap player = true
   ∧ enemy_blocked model mapPosition cubicmap enemy = true)
  ∧ (near_top mapPosition player = false →
     player_blocked model mapPosition cubicmap player
     = enemy_blocked model mapPosition cubicmap enemy)
  ∧ (inside = true → near_top mapPosition player = true →
     player_blocked model mapPosition cubicmap player = false).
Proof.
  intros Hp Hs inside. subst inside.
  rewrite player_blocked_unfold, enemy_blocked_unfold, scan_collision.
  rewrite <- (boxes_agree player enemy Hp Hs), <- Hp.
  cbn [fst orb].
  destruct (CheckCollisionBoxes _ (MapBounds _ _)); cbn [negb].
  - split; [discriminate|]. split.
    + intros ->. reflexivity.
    + intros _ ->. reflexivity.
  - split; [now split|]. split; [reflexivity | discriminate].
Qed.

(** In the scene, a player and an enemy standing at [(1.25, 0.5, 1)],
    where the box reaches into the wall cell, are both blocked. *)
Lemma map_queries_compared_witness :
  player_blocked Scene.model Scene.mapPosition Scene.cubicmap
    (Scene.player_at (F32.lit 5 4) f0_5 f1_0)
  = enemy_blocked Scene.model Scene.mapPosition Scene.cubicmap
      (Scene.enemy_at (F32.lit 5 4) f0_5 f1_0 f1_0).
Proof.
  apply (proj1 (proj2
           (map_queries_compared Scene.model Scene.mapPosition Scene.cubicmap
              (Scene.player_at (F32.lit 5 4) f0_5 f1_0)
              (Scene.enemy_at (F32.lit 5 4) f0_5 f1_0 f1_0)
              eq_refl eq_refl))).
  vm_compute. reflexivity.
Defined.

(** ** Over many frames *)

Lemma has_room_hit (hits : nat) (health : Z) :
  has_room (S hits) health → is_int (health - 10).
Proof. unfold has_room, is_int, F32.INT_MIN, F32.INT_MAX. lia. Qed.

Lemma enemy_worn_refl (e : Enemy) : enemy_worn 0 e e.
Proof. unfold enemy_worn. repeat split; auto; lia. Qed.

Lemma enemy_worn_trans (n m : nat) (a b c : Enemy) :
  enemy_worn n a b → enemy_worn m b c → enemy_worn (n + m) a c.
Proof.
  intros (Hact & Hoff & Hy & Hs & Hh) (Hact' & Hoff' & Hy' & Hs' & Hh').
  split; [auto|]. split.
  { intros Ha. pose proof (Hoff Ha) as ->. now apply Hoff'. }
  split; [congruence|]. split; [congruence|].
  unfold has_room in *. intros Hroom.
  destruct Hh as [Hlow Hhigh]; [lia|].
  destruct Hh' as [Hlow' Hhigh']; [lia|]. lia.
Qed.

Lemma enemy_framed_worn (e e' : Enemy) :
  enemy_framed e e' → (e_active e = false → e' = e) → enemy_worn 1 e e'.
Proof.
  intros (m & (Hy & Hsize & _ & _ & _ & Hact & Hh) & Hstruck) Hoff.
  assert ((e_active e' = true → e_active m = true)
          ∧ (e_health e' = e_health m
             ∨ e_health e' = wrap_int (e_health m - 10))
          ∧ e_position e' = e_position m ∧ e_size e' = e_size m) as Hk.
  { destruct Hstruck as [-> | (Hactive & Hhit & ->)];
      [split; [auto|]; split; [now left | now split]|].
    split; [intros _; exact Hactive|].
    clear Hy Hsize Hact Hh Hactive.
    unfold damage_enemy. rewrite Hhit.
    destruct m as [? ? ? ? ? ? act h hit ?].
    cbn [negb e_health set_e_health set_e_isHit set_e_hitTimer].
    destruct (wrap_int (h - 10) <=? 0); cbn; (split; [now right|]);
      now split. }
  destruct Hk as (Hback & Hless & Hpos & Hsame).
  split; [intros H; rewrite <- Hact; now apply Hback|].
  split; [exact Hoff|]. split; [now rewrite Hpos|]. split; [congruence|].
  intros Hroom. rewrite Hh in Hless.
  destruct Hless as [-> | ->]; [lia|].
  rewrite wrap_int_id by now apply (has_room_hit 0). lia.
Qed.

(** X23: nothing heals and nobody comes back.  Over any number of passes
    of the loop, from any state and with any inputs: no enemy is brought
    back into play, lifted or resized, an enemy that is out of play stays
    exactly as it is, and [enemyCount] does not change.  A health, the
    player's or an enemy's, that is an [int] with room for one hit per
    pass, so that no subtraction overflows, never rises and falls by at
    most 10 for each pass. *)
Theorem run_never_heals (model : Model) (mapPosition : Vector3)
    (cubicmap : Texture2D) (rand : nat → Z) (inputs : list Input) (g : Game) :
  let g' := run model mapPosition cubicmap rand inputs g in
  (has_room (length inputs) (p_health (player g)) →
   p_health (player g) - 10 * Z.of_nat (length inputs)
   ≤ p_health (player g')
   ∧ p_health (player g') ≤ p_health (player g))
  ∧ Forall2 (enemy_worn (length inputs)) (enemies g) (enemies g')
  ∧ enemyCount g' = enemyCount g.
Proof.
  cbv zeta. unfold run. revert g.
  induction inputs as [|input inputs IH]; intros g.
  - cbn [foldl length]. split; [lia|]. split; [|reflexivity].
    apply Forall_Forall2_diag, Forall_forall. intros e _.
    apply enemy_worn_refl.
  - cbn [foldl]. rewrite length_cons.
    destruct (IH (Frame model mapPosition cubicmap rand input g))
      as (Hplayer & Hworn & Hcount).
    destruct (Frame_player model mapPosition cubicmap rand input g)
      as (Hhealth & _).
    cbv zeta in Hhealth.
    split; [|split; [|now rewrite Hcount, Frame_enemyCount]].
    + intros Hroom.
      assert (p_health (player g) - 10
              ≤ p_health
                  (player (Frame model mapPosition cubicmap rand input g))
              ∧ p_health
                  (player (Frame model mapPosition cubicmap rand input g))
                ≤ p_health (player g)) as [Hlow Hhigh].
      { destruct Hhealth as [-> | ->]; [lia|].
        rewrite wrap_int_id by exact (has_room_hit _ _ Hroom). lia. }
      unfold has_room in *. destruct Hplayer as [Hlow' Hhigh']; lia.
    + change (S (length inputs)) with (1 + length inputs)%nat.
      eapply Forall2_trans; [exact (enemy_worn_trans 1 (length inputs))|
                             |exact Hworn].
      eapply Forall2_impl;
        [apply (Frame_enemy_slots model mapPosition cubicmap rand input g)|].
      intros e e' [Hframed Hoff]. now apply enemy_framed_worn.
Qed.

(** Two idle frames of the scene: the player keeps between 80 and 100 of
    his 100 health. *)
Lemma run_never_heals_witness :
  let g :=
    mkGame Shots.target [Shots.foe] 1 [Shots.at_player] 1 GAME_PLAYING true
      F32.zero 0 in
  let inputs := [Scene.no_input (F32.lit 1 60); Scene.no_input (F32.lit 1 60)] in
  let g' :=
    run Scene.model Scene.mapPosition Scene.cubicmap Scene.rand inputs g in
  p_health (player g) - 10 * Z.of_nat (length inputs) ≤ p_health (player g')
  ∧ p_health (player g') ≤ p_health (player g).
Proof.
  intros g inputs g'.
  pose proof (run_never_heals Scene.model Scene.mapPosition Scene.cubicmap
                Scene.rand inputs g) as H.
  cbv zeta in H. destruct H as (Hplayer & _).
  apply Hplayer. split; apply Z.leb_le; vm_compute; reflexivity.
Defined.

(** ** A bullet in flight *)

(** On an array in order a new shot never lands on a bullet in flight. *)
Lemma ShootBullet_keeps_flying (pool : list Bullet) (count : nat)
    (position direction : Vector3) (fromPlayer : bool) (i : nat)
    (b : Bullet) :
  pool_ok pool count → pool !! i = Some b → b_active b = true →
  (ShootBullet pool count position direction fromPlayer).1 !! i = Some b.
Proof.
  intros [Hlen Hinv] Hb Hactive.
  destruct (Nat.le_gt_cases MAX_BULLETS count) as [Hfull | Hroom].
  { now rewrite ShootBullet_full. }
  pose proof (proj1 (pool_inv_spec _ _) Hinv) as Hoff.
  destruct (lookup_lt_is_Some_2 pool count) as [b0 Hb0]; [lia|].
  pose proof (Hoff _ _ Hb0 (Nat.le_refl _)) as Hb0off.
  assert (take MAX_BULLETS pool = pool) as Htake by (apply take_ge; lia).
  destruct (first_inactive pool 0) as [k|] eqn:Hfirst.
  - rewrite (ShootBullet_free_slot _ _ _ _ _ k) by
      (try rewrite Htake; assumption).
    cbn [fst].
    apply first_inactive_Some in Hfirst as (_ & (bk & Hbk & Hbkoff) & _).
    rewrite Nat.sub_0_r in Hbk.
    rewrite list_lookup_insert_ne; [exact Hb|]. intros ->. congruence.
  - pose proof (first_inactive_None _ _ Hfirst _ _ Hb0). congruence.
Qed.

Lemma advance_active (b : Bullet) :
  b_active b = true →
  advance_bullet b
  = mkBullet (next_position b) (b_direction b) (b_speed b) (b_radius b)
      (b_color b) (negb (Vector3Length (next_position b) >? f50_0)%f32)
      (b_fromPlayer b).
Proof.
  intros Hactive. unfold advance_bullet. rewrite Hactive.
  destruct b as [pos dir speed radius color active fromPlayer].
  cbn [b_active] in Hactive. subst active.
  unfold next_position, set_b_position, set_b_active.
  cbn [b_position b_direction b_speed b_radius b_color b_fromPlayer
       b_active].
  cbv zeta. now destruct (F32.gtb _ _).
Qed.

Section InFlight.

Variable model : Model.
Variable mapPosition : Vector3.
Variable cubicmap : Texture2D.
Variable rand : nat → Z.

Lemma player_shoot_keeps_flying (input : Input) (deltaTime : float)
    (shooter : Player) (pool : list Bullet) (count : nat) (can : bool)
    (timer : float) (i : nat) (b : Bullet) :
  pool_ok pool count → pool !! i = Some b → b_active b = true →
  (player_shoot input deltaTime shooter (pool, count, can, timer)).1.1.1 !! i
  = Some b.
Proof.
  intros Hok Hb Hactive.
  pose proof (player_shoot_cases input deltaTime shooter pool count can timer)
    as Hshot.
  cbv zeta in Hshot. destruct (_ && _).
  - destruct Hshot as (_ & _ & ->). now apply ShootBullet_keeps_flying.
  - now destruct Hshot as (-> & _).
Qed.

Lemma UpdateEnemies_keeps_flying (shooter : Player) (deltaTime : float)
    (foes : list Enemy) (shots : Shots) (n i : nat) (b : Bullet) :
  pool_ok shots.1.1 shots.1.2 → shots.1.1 !! i = Some b →
  b_active b = true →
  (UpdateEnemies model mapPosition cubicmap rand foes n shooter shots
     deltaTime).2.1.1 !! i = Some b.
Proof.
  intros Hok Hb Hactive. unfold UpdateEnemies.
  apply (for_range_ind
           (λ s : list Enemy * Shots,
              pool_ok s.2.1.1 s.2.1.2 ∧ s.2.1.1 !! i = Some b));
    [now split|].
  intros k [es [[bs bc] calls]] _ [Hs Hslot]. cbn [fst snd] in Hs, Hslot.
  unfold enemies_body.
  destruct (es !! k) as [e|]; [|now split].
  destruct (e_active e); [|now split].
  destruct (UpdateEnemy_spec model mapPosition cubicmap rand shooter
              deltaTime e bs bc calls) as [_ Hshoot].
  destruct (UpdateEnemy _ _ _ _ _ _ e _) as [e' sh'].
  cbn [fst snd] in *.
  destruct (_ && _).
  - destruct Hshoot as [_ ->]. cbn [fst snd]. split.
    + now apply ShootBullet_pool_ok.
    + now apply ShootBullet_keeps_flying.
  - destruct Hshoot as [_ ->]. now split.
Qed.

End InFlight.

(** X24: a bullet in flight is left to fly.  On a bullet array in order
    (all [MAX_BULLETS] slots present, active bullets below the counter),
    a bullet that is active before a pass of the loop is in its slot
    after the pass with the same direction, speed, radius, colour and
    owner: no shot of that pass, the player's or an enemy's, is written
    over it.  In a playing pass it has moved by direction times speed
    exactly once; in a paused pass it has not moved. *)
Theorem Frame_bullet_in_flight (model : Model) (mapPosition : Vector3)
    (cubicmap : Texture2D) (rand : nat → Z) (input : Input) (g : Game)
    (i : nat) (b : Bullet) :
  pool_ok (bullets g) (bulletCount g) →
  bullets g !! i = Some b → b_active b = true →
  ∃ b',
    bullets (Frame model mapPosition cubicmap rand input g) !! i = Some b'
    ∧ b_direction b' = b_direction b ∧ b_speed b' = b_speed b
    ∧ b_radius b' = b_radius b ∧ b_color b' = b_color b
    ∧ b_fromPlayer b' = b_fromPlayer b
    ∧ b_position b'
      = match toggled input g with
        | GAME_PLAYING => next_position b
        | GAME_PAUSED => b_position b
        end.
Proof.
  intros Hok Hb Hactive.
  destruct (toggled input g) eqn:Hstate.
  2: { rewrite (Frame_paused model mapPosition cubicmap rand input g Hstate).
       cbn [bullets]. exists b. now repeat split. }
  rewrite (Frame_playing model mapPosition cubicmap rand input g Hstate).
  cbv zeta. cbn [bullets].
  set (walked := player_jump input _).
  pose proof (player_shoot_pool_ok input (frameTime input) walked
                (bullets g, bulletCount g, canShoot g, shootTimer g) Hok)
    as Hok1.
  pose proof (player_shoot_keeps_flying input (frameTime input) walked
                (bullets g) (bulletCount g) (canShoot g) (shootTimer g) i b
                Hok Hb Hactive) as Hb1.
  cbv zeta in Hok1.
  set (shot := player_shoot input (frameTime input) walked _) in *.
  set (fallen := UpdatePlayerPhysics _ _ _ walked _).
  pose proof (UpdateEnemies_pool_ok model mapPosition cubicmap rand
                (enemies g) (enemyCount g) fallen
                (shot.1.1.1, shot.1.1.2, randCalls g) (frameTime input) Hok1)
    as Hok2.
  pose proof (UpdateEnemies_keeps_flying model mapPosition cubicmap rand
                fallen (frameTime input) (enemies g)
                (shot.1.1.1, shot.1.1.2, randCalls g) (enemyCount g) i b
                Hok1 Hb1 Hactive) as Hb2.
  cbv zeta in Hok2.
  set (steered := UpdateEnemies _ _ _ _ _ _ fallen _ _) in *.
  destruct Hok2 as [_ Hinv2].
  assert (i < steered.2.1.2)%nat as Hi.
  { destruct (Nat.lt_ge_cases i steered.2.1.2) as [Hlt | Hge]; [exact Hlt|].
    rewrite (proj1 (pool_inv_spec _ _) Hinv2 i b Hb2 Hge) in Hactive.
    discriminate. }
  assert (UpdateBullets steered.2.1.1 steered.2.1.2 (frameTime input) !! i
          = Some (advance_bullet b)) as Hb3.
  { rewrite UpdateBullets_lookup, Hb2.
    destruct (decide (i < steered.2.1.2)%nat); [reflexivity | contradiction]. }
  set (flown := UpdateBullets _ _ _) in *.
  destruct (collisions_relation model mapPosition cubicmap (enemyCount g)
              steered.2.1.2 flown fallen steered.1) as (Hspent & _).
  fold (CheckBulletCollisions model mapPosition cubicmap flown
          steered.2.1.2 fallen steered.1 (enemyCount g)) in Hspent.
  destruct (Forall2_lookup_l _ _ _ _ _ Hspent Hb3) as (b' & Hb' & Hrel).
  exists b'. split; [exact Hb'|].
  rewrite (advance_active b Hactive) in Hrel.
  destruct Hrel as [-> | [_ ->]]; now repeat split.
Qed.

(** The scene's bullet, flying along X from [(1, 0.75, 1)], is in its slot
    after an idle frame. *)
Lemma Frame_bullet_in_flight_witness :
  let g :=
    mkGame (Scene.player_at f3_0 f0_5 f3_0) [] 0
      (<[0%nat := Shots.at_player]> Scene.empty_pool) 1 GAME_PLAYING true
      F32.zero 0 in
  ∃ b',
    bullets
      (Frame Scene.model Scene.mapPosition Scene.cubicmap Scene.rand
         (Scene.no_input (F32.lit 1 60)) g) !! 0%nat = Some b'
    ∧ b_direction b' = b_direction Shots.at_player
    ∧ b_position b' = next_position Shots.at_player.
Proof.
  intros g.
  assert (pool_ok (bullets g) (bulletCount g)) as Hok.
  { split; [vm_compute; reflexivity | vm_compute; reflexivity]. }
  destruct (Frame_bullet_in_flight Scene.model Scene.mapPosition
              Scene.cubicmap Scene.rand (Scene.no_input (F32.lit 1 60)) g 0
              Shots.at_player Hok eq_refl eq_refl)
    as (b' & Hb' & Hdir & _ & _ & _ & _ & Hpos).
  exists b'. split; [exact Hb'|]. split; [exact Hdir | exact Hpos].
Defined.

(** ** Enemies: standoff and shooting *)



Section EnemyShots.

Variable model : Model.
Variable mapPosition : Vector3.
Variable cubicmap : Texture2D.
Variable rand : nat → Z.




End EnemyShots.



(** ** The health arithmetic of a run *)

(** X25: no subtraction from a health overflows in any run.  From the
    state [main] starts with, after any number of passes of the loop with
    any inputs, random numbers and map: the player has lost at most 10
    health for each bullet that was placed and is no longer active, so his
    health is at least 100 - 10 * [MAX_BULLETS] = -4900 and the next
    [health - 10] is an [int]; and so is the next [health - 10] of every
    active enemy. *)
Theorem run_health_in_range (model : Model) (mapPosition : Vector3)
    (cubicmap : Texture2D) (rand : nat → Z)
    (playerTexture enemyTexture : Texture2D) (inputs : list Input) :
  let g :=
    run model mapPosition cubicmap rand inputs
      (init_game rand playerTexture enemyTexture) in
  100 ≤ p_health (player g)
        + 10 * (Z.of_nat (bulletCount g)
                - Z.of_nat (active_count (bullets g)))
  ∧ -4900 ≤ p_health (player g)
  ∧ is_int (p_health (player g) - 10)
  ∧ (∀ j e, enemies g !! j = Some e → e_active e = true →
            is_int (e_health e - 10)).
Proof.
  intros g.
  pose proof (run_keeps_ok model mapPosition cubicmap rand inputs _
                (init_game_ok rand playerTexture enemyTexture)) as Hok.
  fold g in Hok. clearbody g.
  destruct Hok as (_ & Hcount & _ & _ & Hsound & _ & Hh & _ & _ & Hres).
  unfold MAX_BULLETS in Hcount.
  split; [exact Hres|].
  unfold is_int, F32.INT_MIN, F32.INT_MAX.
  split; [lia|]. split; [lia|].
  intros j e He Hactive.
  destruct (proj1 (Forall_lookup _ _) Hsound j e He Hactive) as [_ Hhealth].
  lia.
Qed.

(** After one idle frame of the scene the first enemy is active, and 10
    can be taken from its health. *)
Lemma run_health_in_range_witness :
  ∃ e,
    enemies
      (run Scene.model Scene.mapPosition Scene.cubicmap Scene.rand
         [Scene.no_input (F32.lit 1 60)]
         (init_game Scene.rand Scene.sprite Scene.sprite)) !! 0%nat = Some e
    ∧ is_int (e_health e - 10).
Proof.
  eexists. split; [vm_compute; reflexivity|].
  apply (proj2 (proj2 (proj2
           (run_health_in_range Scene.model Scene.mapPosition Scene.cubicmap
              Scene.rand Scene.sprite Scene.sprite
              [Scene.no_input (F32.lit 1 60)]))) 0%nat).
  - vm_compute. reflexivity.
  - reflexivity.
Defined.
